(** * Crawl service: URL classification, crawl session and job controller

    A shallow embedding of the crawler service (the [EcommerceCrawler]
    class with its URL helpers, and the [CrawleeController] job
    controller) together with the properties of its behaviour.

    The program runs on three external collaborators: the JavaScript
    platform ([URL], [RegExp], [Date]), the browser page driver and the
    crawler runtime with its request queue.  The platform's URL parser
    and the page driver are parameters of the development
    ([Platform], [Site]); regular expressions are modelled concretely for
    the fragment of the syntax that the program's patterns are made of. *)

From stdpp Require Import base option list gmap strings pretty.
From Stdlib Require Import ZArith Ascii String Lia.

Local Open Scope string_scope.
Local Open Scope Z_scope.

(** ** Exceptions *)

(** A thrown JavaScript error: its [name], its [message] and, for the
    controller's [CrawlJobError], its [code]. *)
Record Error := mkError {
  err_name : string;
  err_message : string;
  err_code : option string
}.

(** The result of an expression that may throw. *)
Inductive outcome (A : Type) : Type :=
  | Ok (a : A)
  | Throw (e : Error).
Arguments Ok {A} a.
Arguments Throw {A} e.

#[export] Instance outcome_ret : MRet outcome := fun A a => Ok a.
#[export] Instance outcome_bind : MBind outcome := fun A B f m =>
  match m with
  | Ok a => f a
  | Throw e => Throw e
  end.

(** ** Strings as the platform has them *)

Module Str.

Definition chars (s : string) : list ascii := list_ascii_of_string s.

(** [s.split(sep)] for a one-character separator: never empty. *)
Fixpoint split (sep : ascii) (s : string) : list string :=
  match s with
  | EmptyString => [EmptyString]
  | String c s' =>
      if Ascii.eqb c sep then EmptyString :: split sep s'
      else match split sep s' with
           | [] => [String c EmptyString]
           | w :: ws => String c w :: ws
           end
  end.

(** [l.slice(1)]. *)
Definition slice1 (l : list string) : list string := drop 1 l.

(** [l.join(sep)]. *)
Fixpoint join (sep : string) (l : list string) : string :=
  match l with
  | [] => EmptyString
  | [x] => x
  | x :: r => x +:+ sep +:+ join sep r
  end.

Definition is_upper (c : ascii) : bool :=
  let n := nat_of_ascii c in (Nat.leb 65 n && Nat.leb n 90)%bool.
Definition is_lower (c : ascii) : bool :=
  let n := nat_of_ascii c in (Nat.leb 97 n && Nat.leb n 122)%bool.
Definition is_digit (c : ascii) : bool :=
  let n := nat_of_ascii c in (Nat.leb 48 n && Nat.leb n 57)%bool.
Definition is_alnum (c : ascii) : bool :=
  (is_upper c || is_lower c || is_digit c)%bool.

(** The class [\w]: letters, digits and the underscore. *)
Definition is_word (c : ascii) : bool :=
  (is_alnum c || Ascii.eqb c "_")%bool.

Definition lower (c : ascii) : ascii :=
  if is_upper c then ascii_of_nat (nat_of_ascii c + 32) else c.

Definition mem (c : ascii) (l : list ascii) : bool :=
  existsb (Ascii.eqb c) l.

End Str.

(** ** Regular expressions

    The fragment of the pattern syntax that [createRegexFromUrl] can
    produce from a host name of letters, digits, hyphens and dots: an
    optional leading [^], then a sequence of atoms (a character, an
    escaped character, [.], [\w], [\d], a bracketed class without ranges
    or negation), each with an optional [?], [+] or [*].  A source
    outside the fragment is reported as a [SyntaxError]. *)

Module Regex.

Inductive atom : Type :=
  | AChar (c : ascii)
  | AAny
  | AClass (word digit : bool) (members : list ascii).

Inductive quant : Type := One | Opt | Plus | Star.

Definition item : Type := atom * quant.

Record RegExp := mkRegExp {
  source : string;
  ignoreCase : bool;
  anchored : bool;
  program : list item
}.

(** *** Reading a pattern source *)

Inductive pstate : Type :=
  | PNormal
  | PEscape
  | PClass (word digit : bool) (members : list ascii)
  | PClassEscape (word digit : bool) (members : list ascii).

Definition is_quant (c : ascii) : option quant :=
  if Ascii.eqb c "?" then Some Opt
  else if Ascii.eqb c "+" then Some Plus
  else if Ascii.eqb c "*" then Some Star
  else None.

(** An escaped character that stands for itself. *)
Definition identity_escape (c : ascii) : bool :=
  negb (Str.is_word c).

Fixpoint parse (st : pstate) (acc : list item) (s : list ascii)
  : option (list item) :=
  match s with
  | [] => match st with PNormal => Some (rev acc) | _ => None end
  | c :: r =>
      match st with
      | PNormal =>
          if Ascii.eqb c "\" then parse PEscape acc r
          else if Ascii.eqb c "[" then parse (PClass false false []) acc r
          else if Ascii.eqb c "." then parse PNormal ((AAny, One) :: acc) r
          else match is_quant c with
               | Some q =>
                   match acc with
                   | (a, One) :: acc' => parse PNormal ((a, q) :: acc') r
                   | _ => None
                   end
               | None =>
                   if Str.mem c (Str.chars "^$(){}|]") then None
                   else parse PNormal ((AChar c, One) :: acc) r
               end
      | PEscape =>
          if Ascii.eqb c "w" then
            parse PNormal ((AClass true false [], One) :: acc) r
          else if Ascii.eqb c "d" then
            parse PNormal ((AClass false true [], One) :: acc) r
          else if identity_escape c then
            parse PNormal ((AChar c, One) :: acc) r
          else None
      | PClass w d m =>
          if Ascii.eqb c "]" then
            parse PNormal ((AClass w d (rev m), One) :: acc) r
          else if Ascii.eqb c "\" then parse (PClassEscape w d m) acc r
          else if Ascii.eqb c "^" then None
          else if Ascii.eqb c "-" then
            match r with
            | c' :: _ =>
                if Ascii.eqb c' "]" then parse (PClass w d (c :: m)) acc r
                else match w, d, m with
                     | false, false, [] => parse (PClass w d (c :: m)) acc r
                     | _, _, _ => None
                     end
            | [] => None
            end
          else parse (PClass w d (c :: m)) acc r
      | PClassEscape w d m =>
          if Ascii.eqb c "w" then parse (PClass true d m) acc r
          else if Ascii.eqb c "d" then parse (PClass w true m) acc r
          else if identity_escape c then parse (PClass w d (c :: m)) acc r
          else None
      end
  end.

Definition compile (src : string) : option (bool * list item) :=
  match Str.chars src with
  | c :: r =>
      if Ascii.eqb c "^" then
        prog ← parse PNormal [] r; Some (true, prog)
      else prog ← parse PNormal [] (c :: r); Some (false, prog)
  | [] => Some (false, [])
  end.

(** [new RegExp(src, flags)] for [flags] either empty or ["i"]. *)
Definition new_RegExp (src flags : string) : outcome RegExp :=
  match compile src with
  | Some (anch, prog) =>
      Ok {| source := src; ignoreCase := String.eqb flags "i";
            anchored := anch; program := prog |}
  | None =>
      Throw (mkError "SyntaxError" ("Invalid regular expression: " +:+ src)
               None)
  end.

(** *** Matching *)

Definition char_eq (ic : bool) (p c : ascii) : bool :=
  if ic then Ascii.eqb (Str.lower p) (Str.lower c) else Ascii.eqb p c.

Definition line_terminator (c : ascii) : bool :=
  (Ascii.eqb c "010" || Ascii.eqb c "013")%bool.

Definition atom_ok (ic : bool) (a : atom) (c : ascii) : bool :=
  match a with
  | AChar p => char_eq ic p c
  | AAny => negb (line_terminator c)
  | AClass w d m =>
      ((w && Str.is_word c) || (d && Str.is_digit c)
       || existsb (fun p => char_eq ic p c) m)%bool
  end.

(** Zero or more characters accepted by [ok], then the continuation. *)
Fixpoint star (ok : ascii -> bool) (k : list ascii -> bool)
  (s : list ascii) : bool :=
  (k s || match s with
          | c :: s' => ok c && star ok k s'
          | [] => false
          end)%bool.

Definition one (ok : ascii -> bool) (k : list ascii -> bool)
  (s : list ascii) : bool :=
  match s with
  | c :: s' => (ok c && k s')%bool
  | [] => false
  end.

(** The items match a prefix of [s]. *)
Fixpoint match_items (ic : bool) (items : list item) (s : list ascii)
  : bool :=
  match items with
  | [] => true
  | (a, q) :: rest =>
      let ok := atom_ok ic a in
      let k := match_items ic rest in
      match q with
      | One => one ok k s
      | Opt => (one ok k s || k s)%bool
      | Plus => one ok (star ok k) s
      | Star => star ok k s
      end
  end.

(** The items match at some position of [s]. *)
Fixpoint search (ic : bool) (items : list item) (s : list ascii) : bool :=
  (match_items ic items s
   || match s with
      | _ :: s' => search ic items s'
      | [] => false
      end)%bool.

(** [regex.test(s)] of a pattern without the [g] and [y] flags. *)
Definition test (r : RegExp) (s : string) : bool :=
  if anchored r then match_items (ignoreCase r) (program r) (Str.chars s)
  else search (ignoreCase r) (program r) (Str.chars s).

End Regex.

Export Regex(RegExp).

(** ** The platform's URL class *)

(** What the program asks of [URL]: the host name of an absolute URL
    ([new URL(url).hostname]) and the serialisation of a reference
    resolved against a base ([new URL(url, base).href]).  [None] stands
    for the [TypeError] that the constructor throws on an invalid URL.

    The other fields are what the crawler runtime decides, in ways that
    differ from one release of the runtime to the next.
    [computeUniqueKey] is the key under which the runtime files a
    request that carries no key of its own, and [enqueueStrategy base url]
    tells whether the runtime's default strategy lets a page at [base]
    enqueue [url].  Of the links that [enqueueLinks] is about to file,
    [enqueueSkips known key] tells whether the link with this key is
    passed over before the links are counted against [limit], [known]
    being the keys that the queue has been given; and
    [enqueueRoom max handled pending] is the number of links that one
    call may file under [maxRequestsPerCrawl: max] once [handled]
    requests have been handled and [pending] are waiting, if the runtime
    keeps such a bound.  [requestBudget max] is the number of requests
    that the runtime hands to the handlers under
    [maxRequestsPerCrawl: max] before it stops, if the queue does not
    run empty before: with several requests in flight a runtime can go
    past a positive [max], and it reads 0 as no bound at all. *)
Record Platform := mkPlatform {
  URL_hostname : string -> option string;
  URL_href : string -> string -> option string;
  computeUniqueKey : string -> string;
  enqueueStrategy : string -> string -> bool;
  enqueueSkips : gset string -> string -> bool;
  enqueueRoom : Z -> nat -> nat -> option nat;
  requestBudget : Z -> nat
}.

Definition invalid_url (url : string) : Error :=
  mkError "TypeError" ("Invalid URL: " +:+ url) None.

(** A platform instance, used to evaluate the program on concrete
    inputs.

    Its URL parser answers for the URLs [http(s)://host/path?query#fragment],
    with or without user information and port, whose host is made of
    non-empty labels of letters, digits, hyphens and underscores (the
    last one not starting with a digit, so that it is not read as an
    address), and whose path, query and fragment are made of letters,
    digits and the punctuation that the parser leaves as it is; and for
    the references to such a URL that begin with [//], [/], [?] or [#],
    are empty or are a relative path.  On these it does what the
    platform's parser does: scheme and host are put in lower case, the
    port of the scheme is left out, an empty path becomes [/] and the
    segments [.] and [..] are resolved.  For any other text the answer
    is [None], also where the platform's parser would make something of
    it (other schemes, characters that are escaped, white space).

    Its runtime files a request without a key of its own under the URL
    without fragment and without the slash at the end of the path, the
    parameters of the query sorted by name and those named [utm_...]
    left out (under the URL itself when the URL, or the text of a
    parameter, is out of the scope above); its strategy lets a page
    enqueue the URLs of its own host; it passes over no link, keeps no
    bound of its own on the links of a call, and handles one request at
    a time. *)
Module PlainUrl.

Definition lower_string (s : string) : string :=
  string_of_list_ascii (map Str.lower (Str.chars s)).

(** Splits [s] at the first character accepted by [stop]. *)
Fixpoint break (stop : ascii -> bool) (s : list ascii)
  : list ascii * list ascii :=
  match s with
  | [] => ([], [])
  | c :: r =>
      if stop c then ([], s)
      else let '(a, b) := break stop r in (c :: a, b)
  end.

Definition strip_scheme (s : string) : option (string * string) :=
  let head := lower_string (String.substring 0 8 s) in
  if String.prefix "https://" head
  then Some ("https:", String.substring 8 (String.length s - 8) s)
  else if String.prefix "http://" head
  then Some ("http:", String.substring 7 (String.length s - 7) s)
  else None.

Definition host_char (c : ascii) : bool :=
  (Str.is_alnum c || Ascii.eqb c "-")%bool.

Definition host_byte (c : ascii) : bool :=
  (host_char c || Ascii.eqb c "_")%bool.

Definition label_ok (l : string) : bool :=
  (negb (String.eqb l "") && forallb host_byte (Str.chars l))%bool.

Definition host_ok (h : string) : bool :=
  let labels := Str.split "." h in
  (forallb label_ok labels
   && match last labels with
      | Some (String c _) => negb (Str.is_digit c)
      | _ => false
      end)%bool.

Definition path_start (c : ascii) : bool := Str.mem c (Str.chars "/?#").

Definition user_char (c : ascii) : bool :=
  (Str.is_alnum c || Str.mem c (Str.chars "-._~"))%bool.
Definition path_char (c : ascii) : bool :=
  (Str.is_alnum c || Str.mem c (Str.chars "-._~!$&'()*+,;=:@"))%bool.
Definition query_char (c : ascii) : bool :=
  (Str.is_alnum c || Str.mem c (Str.chars "-._~!$&()*+,;=:@/?"))%bool.
Definition fragment_char (c : ascii) : bool :=
  (Str.is_alnum c || Str.mem c (Str.chars "-._~!$&'()*+,;=:@/?"))%bool.

Definition text_ok (ok : ascii -> bool) (s : string) : bool :=
  forallb ok (Str.chars s).

(** A parsed URL.  The scheme ends with its colon, the user information
    with its [@]; the port is [None] when it is that of the scheme; the
    path is the list of its segments, each of which follows a slash. *)
Record parsed := mkParsed {
  scheme : string;
  userinfo : string;
  host : string;
  port : option N;
  path : list string;
  query : option string;
  fragment : option string
}.

(** *** Ports *)

Definition digit_value (c : ascii) : N := (N_of_ascii c - 48)%N.

Definition number_of (digits : string) : N :=
  fold_left (fun n c => (10 * n + digit_value c)%N) (Str.chars digits) 0%N.

Definition default_port (scheme : string) : N :=
  if String.eqb scheme "https:" then 443%N else 80%N.

Definition parse_port (scheme digits : string) : option (option N) :=
  if (negb (String.eqb digits "") && text_ok Str.is_digit digits
      && (String.length digits <=? 5)%nat
      && (number_of digits <=? 65535)%N)%bool
  then Some (if (number_of digits =? default_port scheme)%N then None
             else Some (number_of digits))
  else None.

(** *** Authority *)

Definition parse_userinfo (u : string) : option string :=
  match Str.split ":" u with
  | [name] =>
      if (negb (String.eqb name "") && text_ok user_char name)%bool
      then Some (name +:+ "@") else None
  | [name; password] =>
      if (negb (String.eqb name "") && text_ok user_char name
          && negb (String.eqb password "") && text_ok user_char password)%bool
      then Some (name +:+ ":" +:+ password +:+ "@") else None
  | _ => None
  end.

Definition parse_hostport (scheme hp : string)
  : option (string * option N) :=
  match Str.split ":" hp with
  | [h] =>
      if host_ok (lower_string h) then Some (lower_string h, None) else None
  | [h; digits] =>
      if host_ok (lower_string h)
      then p ← parse_port scheme digits; Some (lower_string h, p)
      else None
  | _ => None
  end.

Definition parse_authority (scheme authority : string)
  : option (string * string * option N) :=
  match Str.split "@" authority with
  | [hp] => '(h, p) ← parse_hostport scheme hp; Some ("", h, p)
  | [u; hp] =>
      user ← parse_userinfo u;
      '(h, p) ← parse_hostport scheme hp;
      Some (user, h, p)
  | _ => None
  end.

(** *** Path, query and fragment *)

Definition after_mark (s : list ascii) : option string :=
  match s with
  | [] => None
  | _ :: r => Some (string_of_list_ascii r)
  end.

(** The text of a path, the query and the fragment of what follows the
    authority. *)
Definition parse_tail (rest : list ascii)
  : option (string * option string * option string) :=
  let '(before, f) := break (Ascii.eqb "#") rest in
  let '(p, q) := break (Ascii.eqb "?") before in
  if (forallb (fun c => path_char c || Ascii.eqb c "/") p
      && forallb query_char (match q with [] => [] | _ :: r => r end)
      && forallb fragment_char (match f with [] => [] | _ :: r => r end))%bool
  then Some (string_of_list_ascii p, after_mark q, after_mark f)
  else None.

(** The segments of a path that begins with a slash. *)
Definition segments (p : string) : list string := drop 1 (Str.split "/" p).

(** The segments [.] and [..] resolved; [stack] holds the segments kept
    so far, the last one first. *)
Fixpoint clean (stack segs : list string) : list string :=
  match segs with
  | [] => rev stack
  | s :: rest =>
      match rest with
      | [] =>
          if String.eqb s ".." then rev ("" :: drop 1 stack)
          else if String.eqb s "." then rev ("" :: stack)
          else rev (s :: stack)
      | _ =>
          if String.eqb s ".." then clean (drop 1 stack) rest
          else if String.eqb s "." then clean stack rest
          else clean (s :: stack) rest
      end
  end.

Definition clean_path (segs : list string) : list string :=
  match clean [] segs with
  | [] => [""]
  | kept => kept
  end.

(** *** Absolute URLs *)

Definition absolute (url : string) : option parsed :=
  '(sch, after) ← strip_scheme url;
  let '(a, rest) := break path_start (Str.chars after) in
  '(user, h, p) ← parse_authority sch (string_of_list_ascii a);
  '(pth, q, f) ← parse_tail rest;
  Some {| scheme := sch; userinfo := user; host := h; port := p;
          path := clean_path (segments pth); query := q; fragment := f |}.

(** *** References *)

Definition scheme_char (c : ascii) : bool :=
  (Str.is_alnum c || Str.mem c (Str.chars "+.-"))%bool.

(** The text begins with a scheme and its colon. *)
Definition has_scheme (r : string) : bool :=
  let '(name, rest) := break (Ascii.eqb ":") (Str.chars r) in
  match name, rest with
  | c :: _, _ :: _ =>
      (negb (Str.is_digit c) && Str.is_alnum c && forallb scheme_char name)%bool
  | _, _ => false
  end.

Definition resolve (r : string) (b : parsed) : option parsed :=
  if has_scheme r then absolute r
  else
    match Str.chars r with
    | "/"%char :: "/"%char :: _ => absolute (scheme b +:+ r)
    | "/"%char :: _ =>
        '(pth, q, f) ← parse_tail (Str.chars r);
        Some {| scheme := scheme b; userinfo := userinfo b; host := host b;
                port := port b; path := clean_path (segments pth);
                query := q; fragment := f |}
    | "?"%char :: _ =>
        '(_, q, f) ← parse_tail (Str.chars r);
        Some {| scheme := scheme b; userinfo := userinfo b; host := host b;
                port := port b; path := path b; query := q; fragment := f |}
    | "#"%char :: _ =>
        '(_, _, f) ← parse_tail (Str.chars r);
        Some {| scheme := scheme b; userinfo := userinfo b; host := host b;
                port := port b; path := path b; query := query b;
                fragment := f |}
    | [] =>
        Some {| scheme := scheme b; userinfo := userinfo b; host := host b;
                port := port b; path := path b; query := query b;
                fragment := None |}
    | _ =>
        '(pth, q, f) ← parse_tail (Str.chars r);
        Some {| scheme := scheme b; userinfo := userinfo b; host := host b;
                port := port b;
                path := clean_path (removelast (path b)
                                    ++ Str.split "/" pth)%list;
                query := q; fragment := f |}
    end.

(** *** Serialisation *)

Definition port_text (p : option N) : string :=
  match p with
  | Some n => ":" +:+ pretty n
  | None => ""
  end.

Definition path_text (segs : list string) : string :=
  fold_right (fun s acc => "/" +:+ s +:+ acc) "" segs.

Definition marked (mark : string) (part : option string) : string :=
  match part with
  | Some text => mark +:+ text
  | None => ""
  end.

Definition serialise (u : parsed) : string :=
  scheme u +:+ "//" +:+ userinfo u +:+ host u +:+ port_text (port u)
  +:+ path_text (path u) +:+ marked "?" (query u) +:+ marked "#" (fragment u).

Definition hostname (url : string) : option string :=
  host <$> absolute url.

Definition href (url base : string) : option string :=
  b ← absolute base;
  u ← resolve url b;
  Some (serialise u).

(** *** The runtime's part *)

(** The default strategy: the host names are the same. *)
Definition same_hostname (base url : string) : bool :=
  match hostname base, hostname url with
  | Some a, Some b => String.eqb a b
  | _, _ => false
  end.

Definition key_char (c : ascii) : bool :=
  (Str.is_alnum c || Str.mem c (Str.chars "-._*"))%bool.

(** The parameters of a query, if their names and values are texts
    that are written back as they are. *)
Definition parameters (q : string) : option (list (string * string)) :=
  mapM (fun piece =>
          let '(name, rest) := break (Ascii.eqb "=") (Str.chars piece) in
          let value := match rest with [] => [] | _ :: v => v end in
          if (forallb key_char name && forallb key_char value)%bool
          then Some (string_of_list_ascii name, string_of_list_ascii value)
          else None)
    (List.filter (fun piece => negb (String.eqb piece "")) (Str.split "&" q)).

Fixpoint insert_by_name (p : string * string) (l : list (string * string))
  : list (string * string) :=
  match l with
  | [] => [p]
  | p' :: rest =>
      if String.ltb p.1 p'.1 then p :: l else p' :: insert_by_name p rest
  end.

Definition sort_by_name (l : list (string * string))
  : list (string * string) :=
  fold_left (fun sorted p => insert_by_name p sorted) l [].

Definition search_text (q : option string) : option string :=
  match q with
  | None => Some ""
  | Some text =>
      ps ← parameters text;
      let kept :=
        sort_by_name
          (List.filter (fun p => negb (String.prefix "utm_" p.1)) ps) in
      Some (match kept with
            | [] => ""
            | _ => "?" +:+ Str.join "&"
                             (map (fun p => p.1 +:+ "=" +:+ p.2) kept)
            end)
  end.

(** The path without the slash at its end. *)
Definition trimmed_path (segs : list string) : list string :=
  match last segs with
  | Some "" => removelast segs
  | _ => segs
  end.

Definition unique_key (url : string) : string :=
  match absolute url with
  | Some u =>
      match search_text (query u) with
      | Some search =>
          scheme u +:+ "//" +:+ host u +:+ port_text (port u)
          +:+ path_text (trimmed_path (path u)) +:+ search
      | None => url
      end
  | None => url
  end.

(** A runtime that handles one request at a time: it stops at a
    positive bound, and follows the queue for a thousand requests when
    the bound is 0. *)
Definition one_at_a_time (max : Z) : nat :=
  if max =? 0 then 1000%nat else Z.to_nat max.

Definition platform : Platform :=
  {| URL_hostname := hostname;
     URL_href := href;
     computeUniqueKey := unique_key;
     enqueueStrategy := same_hostname;
     enqueueSkips := fun _ _ => false;
     enqueueRoom := fun _ _ _ => None;
     requestBudget := one_at_a_time |}.

End PlainUrl.

(** ** URL helpers of the crawler *)

Section Classifier.

Variable P : Platform.

(** [createRegexFromUrl]: the host of [url] without its first label,
    behind [^https?://[\w-]+\.], case-insensitive. *)
Definition createRegexFromUrl (url : string) : outcome RegExp :=
  match URL_hostname P url with
  | None => Throw (invalid_url url)
  | Some hostname =>
      Regex.new_RegExp
        ("^https?://[\w-]+\." +:+
         Str.join "\." (Str.slice1 (Str.split "." hostname)))
        "i"
  end.

(** [patterns.some(pattern => createRegexFromUrl(pattern).test(url))]:
    patterns are tried in order up to the first that matches, and an
    exception of a tried pattern escapes. *)
Fixpoint some_pattern (url : string) (patterns : list string)
  : outcome bool :=
  match patterns with
  | [] => Ok false
  | pattern :: rest =>
      regex ← createRegexFromUrl pattern;
      if Regex.test regex url then Ok true else some_pattern url rest
  end.

Definition isProductUrl (url : string) (patterns : list string)
  : outcome bool := some_pattern url patterns.

Definition isListingUrl (url : string) (patterns : list string)
  : outcome bool := some_pattern url patterns.

Definition getDomain (url : string) : string :=
  match URL_hostname P url with
  | Some hostname => hostname
  | None => ""
  end.

Definition normalizeUrl (url baseUrl : string) : string :=
  match URL_href P url baseUrl with
  | Some href => href
  | None => ""
  end.

End Classifier.

(** ** Numbers *)

(** A JavaScript number.  Finite numbers are taken to be integers; the
    infinities and [NaN] are kept. *)
Inductive number : Type :=
  | Int (n : Z)
  | Infinity (negative : bool)
  | NaN.

(** [!!n]: 0 and [NaN] are falsy. *)
Definition number_truthy (n : number) : bool :=
  match n with
  | Int n => negb (n =? 0)
  | Infinity _ => true
  | NaN => false
  end.

(** ** The crawler's configuration *)

(** The optional field [maxPages] of a configuration that was read from
    JSON: absent, [null] or a number. *)
Inductive MaxPages : Type :=
  | Absent
  | Null
  | Pages (n : Z).

Record CrawlerConfig := mkConfig {
  startUrls : list string;
  productListingUrlPatterns : list string;
  productCardSelectors : string;
  productUrlPatterns : list string;
  paginationSelectors : string;
  productLinkSelectors : list string;
  maxPages : MaxPages;
  nameSelector : string;
  priceSelector : string
}.

Definition with_maxPages (m : MaxPages) (c : CrawlerConfig) : CrawlerConfig :=
  {| startUrls := startUrls c;
     productListingUrlPatterns := productListingUrlPatterns c;
     productCardSelectors := productCardSelectors c;
     productUrlPatterns := productUrlPatterns c;
     paginationSelectors := paginationSelectors c;
     productLinkSelectors := productLinkSelectors c;
     maxPages := m;
     nameSelector := nameSelector c;
     priceSelector := priceSelector c |}.

(** The constructor's [{ maxPages: 1000, ...config }]: a field that
    the configuration has, be it [null], replaces the default. *)
Definition default_maxPages (c : CrawlerConfig) : CrawlerConfig :=
  with_maxPages (match maxPages c with
                 | Absent => Pages 1000
                 | given => given
                 end) c.

(** [maxRequestsPerCrawl: this.config.maxPages! * 2], for the
    configuration that the constructor has made; [null * 2] is 0. *)
Definition maxRequestsPerCrawl (c : CrawlerConfig) : Z :=
  match maxPages c with
  | Pages n => n * 2
  | Null | Absent => 0
  end.

(** ** The page driver

    A site tells what the browser reports on each of its pages; a page is
    named by the URL that the browser shows.  Calls that can time out or
    fail return an [outcome]. *)
Record Site := mkSite {
  (** [request.loadedUrl] once the runtime has opened the request's URL *)
  loadedUrl : string -> option string;
  (** the [href]s of the page's anchors, as [enqueueLinks] collects them *)
  anchors : string -> list string;
  (** [page.waitForSelector(selector, {state: "attached", timeout})] *)
  waitForSelector : string -> string -> outcome unit;
  (** for each element matching the selector, in document order, the
      [href] of its first [a[href]] descendant, if any *)
  cardHrefs : string -> string -> list (option string);
  (** [page.waitForLoadState("networkidle")] *)
  waitForLoadState : string -> outcome unit;
  (** [#AcceptAll]: [waitFor({state: "attached"})],
      [waitFor({state: "visible"})], [scrollIntoViewIfNeeded()] and
      [first().click()] *)
  acceptAttached : string -> outcome unit;
  acceptVisible : string -> outcome unit;
  acceptScroll : string -> outcome unit;
  acceptClick : string -> outcome unit;
  (** [page.locator(selector).count()] *)
  locatorCount : string -> string -> nat;
  (** [page.locator(selector).first().click()]: the page shown afterwards *)
  clickFirst : string -> string -> outcome string;
  (** [page.content()] *)
  pageContent : string -> outcome string;
  (** [page.locator(selector).textContent()] *)
  textContent : string -> string -> outcome (option string);
  (** [page.locator(selector).first().textContent()] *)
  firstTextContent : string -> string -> outcome (option string);
  (** the locator of the text [EAN] in the body: [count()], and
      [textContent()] of the cells next to it *)
  eanLabelCount : string -> nat;
  eanValueText : string -> outcome (option string);
  (** [new Date().toISOString()] and [generateUniqueId()] as drawn while
      the page is handled *)
  isoNow : string -> string;
  uniqueId : string -> string
}.

(** ** Requests, log and session state *)

Record Request := mkRequest {
  url : string;
  label : option string;
  uniqueKey : string;
  priority : option Z
}.

Inductive LogEntry : Type :=
  | LogInfo (message : string)
  | LogError (message : string)
  | Console (what : string) (value : option string).

(** What the handlers ask the page driver to do to a page. *)
Inductive Action : Type :=
  | RemoveOverlay (page : string)
  | ClickAccept (page : string)
  | ClickNext (page : string).

(** A record of the default dataset; the crawler's only write to it is
    commented out in the product handler. *)
Record DataItem := mkDataItem {
  item_url : string;
  s3Path : string;
  uploadTimestamp : string
}.

(** The state of one run of [EcommerceCrawler]: the object's fields
    ([config], [processedUrls], [pageCount]) and what the runtime keeps
    for it: the request queue with the keys it has ever been given, the
    default dataset, the log, the actions issued to the page driver and
    the requests that have been handled (with [false] for a request whose
    handler threw). *)
Record Session := mkSession {
  config : CrawlerConfig;
  processedUrls : gset string;
  pageCount : Z;
  pending : list Request;
  queueKeys : gset string;
  dataset : list DataItem;
  log : list LogEntry;
  actions : list Action;
  handled : list (Request * bool)
}.

Definition set_processedUrls (v : gset string) (s : Session) : Session :=
  mkSession (config s) v (pageCount s) (pending s) (queueKeys s)
    (dataset s) (log s) (actions s) (handled s).

Definition set_queue (p : list Request) (k : gset string) (s : Session)
  : Session :=
  mkSession (config s) (processedUrls s) (pageCount s) p k
    (dataset s) (log s) (actions s) (handled s).

Definition set_log (l : list LogEntry) (s : Session) : Session :=
  mkSession (config s) (processedUrls s) (pageCount s) (pending s)
    (queueKeys s) (dataset s) l (actions s) (handled s).

Definition set_actions (a : list Action) (s : Session) : Session :=
  mkSession (config s) (processedUrls s) (pageCount s) (pending s)
    (queueKeys s) (dataset s) (log s) a (handled s).

Definition set_handled (h : list (Request * bool)) (s : Session) : Session :=
  mkSession (config s) (processedUrls s) (pageCount s) (pending s)
    (queueKeys s) (dataset s) (log s) (actions s) h.

(** ** Handlers as state transformers that may throw

    A state change made before an exception is thrown stays made. *)
Definition M (A : Type) : Type := Session -> outcome A * Session.

#[export] Instance M_ret : MRet M := fun A a s => (Ok a, s).
#[export] Instance M_bind : MBind M := fun A B f m s =>
  match m s with
  | (Ok a, s') => f a s'
  | (Throw e, s') => (Throw e, s')
  end.

Definition lift {A} (o : outcome A) : M A := fun s => (o, s).
Definition gets {A} (f : Session -> A) : M A := fun s => (Ok (f s), s).
Definition modify (f : Session -> Session) : M unit := fun s => (Ok (), f s).

(** [try { body } catch (error) { handler }] *)
Definition try_catch {A} (body : M A) (handler : Error -> M A) : M A :=
  fun s =>
    match body s with
    | (Ok a, s') => (Ok a, s')
    | (Throw e, s') => handler e s'
    end.

Definition log_info (m : string) : M unit :=
  modify (fun s => set_log (log s ++ [LogInfo m]) s).
Definition log_error (m : string) : M unit :=
  modify (fun s => set_log (log s ++ [LogError m]) s).
Definition console_log (what : string) (v : option string) : M unit :=
  modify (fun s => set_log (log s ++ [Console what v]) s).
Definition act (a : Action) : M unit :=
  modify (fun s => set_actions (actions s ++ [a]) s).

Definition skip : M unit := mret ().

(** Text of a value inside a template literal. *)
Definition show (v : option string) : string := default "undefined" v.

(** ** The request queue and [enqueueLinks] of the crawler runtime *)

(** The request that the queue makes of what it is given: [priority] is
    no option of a request, and is not kept. *)
Definition stored (r : Request) : Request :=
  {| url := url r; label := label r; uniqueKey := uniqueKey r;
     priority := None |}.

(** [requestQueue.addRequest]: a request whose key the queue has already
    been given is dropped; otherwise it is filed behind the pending ones.
    The queue serves requests in the order they were filed. *)
Definition addRequest (r : Request) : M unit :=
  modify (fun s =>
    if bool_decide (uniqueKey r ∈ queueKeys s) then s
    else set_queue (pending s ++ [stored r])
           ({[uniqueKey r]} ∪ queueKeys s) s).

Fixpoint addRequests (rs : list Request) : M unit :=
  match rs with
  | [] => skip
  | r :: rest => addRequest r;; addRequests rest
  end.

(** [requestOptions.map(transformRequestFunction).filter(r => !!r)] *)
Fixpoint transform_all (f : Request -> M (option Request))
  (rs : list Request) : M (list Request) :=
  match rs with
  | [] => mret []
  | r :: rest =>
      o ← f r;
      out ← transform_all f rest;
      mret (match o with Some r' => r' :: out | None => out end)
  end.

Section Crawler.

Variable P : Platform.
Variable site : Site.

(** The request built for a URL that carries no key of its own. *)
Definition request_of (lbl : option string) (u : string) : Request :=
  {| url := u; label := lbl; uniqueKey := computeUniqueKey P u;
     priority := None |}.

(** Of the links that have passed the strategy, those that one call of
    [enqueueLinks] files: the links that the runtime passes over are
    left out, and of the others the first [limit], or fewer if the
    runtime has less room. *)
Definition enqueueCut (limit : nat) (known : gset string) (room : option nat)
  (candidates : list Request) : list Request :=
  take (match room with
        | Some n => Nat.min limit n
        | None => limit
        end)
    (List.filter (fun r => negb (enqueueSkips P known (uniqueKey r)))
       candidates).

(** The room that the runtime sees for new requests. *)
Definition room_for_links (s : Session) : option nat :=
  enqueueRoom P (maxRequestsPerCrawl (config s)) (List.length (handled s))
    (List.length (pending s)).

(** [enqueueLinks({limit, urls, label, transformRequestFunction})] on a
    page at [baseUrl]: the URLs are resolved against the page (those
    that do not resolve are skipped), passed one by one through the
    transformation and filtered by the strategy; what the cut leaves of
    them is filed in the queue. *)
Definition enqueueLinks (limit : nat) (baseUrl : string)
  (urls : list string) (lbl : string)
  (transformRequestFunction : option (Request -> M (option Request)))
  : M unit :=
  let requestOptions :=
    omap (fun u => request_of (Some lbl) <$> URL_href P u baseUrl) urls in
  transformed ← match transformRequestFunction with
                | Some f => transform_all f requestOptions
                | None => mret requestOptions
                end;
  known ← gets queueKeys;
  room ← gets room_for_links;
  addRequests
    (enqueueCut limit known room
       (List.filter (fun r => enqueueStrategy P baseUrl (url r))
          transformed)).

(** *** The default handler *)

(** The [transformRequestFunction] of the default handler. *)
Definition keep_new_listing (baseUrl : string) (req : Request)
  : M (option Request) :=
  let url := normalizeUrl P (url req) baseUrl in
  processed ← gets processedUrls;
  if bool_decide (url ∈ processed) then mret None
  else
    cfg ← gets config;
    listing ← lift (isListingUrl P url (productListingUrlPatterns cfg));
    if listing : bool then
      modify (fun s => set_processedUrls ({[url]} ∪ processedUrls s) s);;
      mret (Some req)
    else mret None.

Definition defaultHandler (request : Request) : M unit :=
  match loadedUrl site (url request) with
  | None => skip
  | Some baseUrl =>
      if String.eqb baseUrl "" then skip
      else
        enqueueLinks 100 baseUrl (anchors site (url request)) "listing"
          (Some (keep_new_listing baseUrl))
  end.

(** *** The listing handler *)

(** A locator is an object, and an object is never falsy. *)
Definition locator_truthy : bool := true.

Definition clickAcceptButton (page : string) : M unit :=
  lift (waitForLoadState site page);;
  act (RemoveOverlay page);;
  lift (acceptAttached site page);;
  lift (acceptVisible site page);;
  if negb locator_truthy then skip
  else
    lift (acceptScroll site page);;
    act (ClickAccept page);;
    lift (acceptClick site page).

(** [.filter((href): href is string => href !== null)] *)
Definition non_null (hrefs : list (option string)) : list string :=
  omap id hrefs.

(** The base that the handler's [enqueueLinks] resolves against. *)
Definition base_of (request : Request) : string :=
  default (url request) (loadedUrl site (url request)).

Definition listingHandler (request : Request) : M unit :=
  let page := url request in
  let loaded := show (loadedUrl site page) in
  try_catch
    (log_info ("Processing URL: " +:+ loaded);;
     cfg ← gets config;
     let productCardSelector := productCardSelectors cfg in
     lift (waitForSelector site page productCardSelector);;
     let products := non_null (cardHrefs site page productCardSelector) in
     (if (0 <? List.length products)%nat then
        enqueueLinks 1 (base_of request) products "product" None;;
        log_info ("Extracted " +:+ pretty (List.length products)
                  +:+ " product URLs")
      else skip);;
     let paginationSelector := paginationSelectors cfg in
     clickAcceptButton page;;
     if (0 <? locatorCount site page paginationSelector)%nat then
       try_catch
         (act (ClickNext page);;
          page' ← lift (clickFirst site page paginationSelector);
          lift (waitForSelector site page' productCardSelector);;
          log_info "Navigated to next page";;
          addRequest {| url := page'; label := Some "listing";
                        uniqueKey := page'; priority := Some 1 |})
         (fun paginationError =>
            log_error ("Pagination error: "
                       +:+ err_message paginationError))
     else log_info "No more pages to process")
    (fun error =>
       log_error ("Error while processing URL " +:+ loaded +:+ ": "
                  +:+ err_message error)).

(** *** The product handler *)

Definition is_space (c : ascii) : bool :=
  Str.mem c [" "%char; "009"%char; "010"%char; "013"%char].

Fixpoint drop_spaces (l : list ascii) : list ascii :=
  match l with
  | c :: r => if is_space c then drop_spaces r else l
  | [] => []
  end.

(** [s.trim()] *)
Definition trim (s : string) : string :=
  string_of_list_ascii
    (rev (drop_spaces (rev (drop_spaces (Str.chars s))))).

Definition productHandler (request : Request) : M unit :=
  let page := url request in
  let loaded := show (loadedUrl site page) in
  try_catch
    (log_info ("Processing product URL: " +:+ loaded);;
     product_html ← lift (pageContent site page);
     cfg ← gets config;
     productName ← lift (textContent site page (nameSelector cfg));
     console_log "Product Name:" productName;;
     price ← lift (firstTextContent site page (priceSelector cfg));
     console_log "Price:" price;;
     (if (0 <? eanLabelCount site page)%nat then
        eanValue ← lift (eanValueText site page);
        console_log "EAN Value:" (trim <$> eanValue)
      else
        lift (Throw (mkError "Error" "EAN label not found on the page"
                       None)));;
     let filename := "products/" +:+ isoNow site page +:+ "_"
                     +:+ uniqueId site page +:+ ".html" in
     try_catch
       (log_info ("Product HTML uploaded to S3: " +:+ filename))
       (fun s3Error =>
          log_error ("S3 Upload Error for " +:+ loaded +:+ ": "
                     +:+ err_message s3Error)))
    (fun error =>
       log_error ("Error processing product " +:+ loaded +:+ ": "
                  +:+ err_message error)).

(** *** The router and the crawl *)

Definition router (request : Request) : M unit :=
  match label request with
  | Some l =>
      if String.eqb l "listing" then listingHandler request
      else if String.eqb l "product" then productHandler request
      else defaultHandler request
  | None => defaultHandler request
  end.

(** One schedule of the runtime: it takes the oldest pending request,
    opens it and hands it to the router, until the queue is empty or
    [budget] requests have been handled.  Requests are taken one at a
    time, every page opens and no handler runs out of time; a request
    whose handler throws is closed as failed, without another try.  What
    the runtime does besides (requests handled side by side, pages that
    fail to open, handlers cut short, retries) is not part of this
    schedule. *)
Fixpoint crawl (budget : nat) (s : Session) : Session :=
  match budget with
  | O => s
  | S budget' =>
      match pending s with
      | [] => s
      | request :: rest =>
          let '(result, s') :=
            router request (set_queue rest (queueKeys s) s) in
          let ok := match result with Ok _ => true | Throw _ => false end in
          crawl budget' (set_handled (handled s' ++ [(request, ok)]) s')
      end
  end.

(** [new EcommerceCrawler(config)] *)
Definition new_EcommerceCrawler (c : CrawlerConfig) : Session :=
  {| config := default_maxPages c;
     processedUrls := ∅;
     pageCount := 0;
     pending := [];
     queueKeys := ∅;
     dataset := [];
     log := [];
     actions := [];
     handled := [] |}.

(** [crawler.run(this.config.startUrls)], from a freshly purged
    default storage, up to [Dataset.open()]. *)
Definition seed (s : Session) : Session :=
  (addRequests (map (request_of None) (startUrls (config s))) s).2.

Definition run_from (s : Session) : Session :=
  crawl (requestBudget P (maxRequestsPerCrawl (config s))) (seed s).

Definition run (c : CrawlerConfig) : Session :=
  run_from (new_EcommerceCrawler c).

End Crawler.

(** ** [crawleeId] and the job controller *)

(** [crawleeId(id?)] when the clock reads [now] milliseconds. *)
Definition crawleeId (now : Z) (id : option number) : number :=
  match id with
  | Some n => if number_truthy n then n else Int now
  | None => Int now
  end.

(** *** Request bodies *)

(** A value parsed from a JSON request body; its numbers are taken to be
    integers. *)
#[warnings="-register-all"]
Inductive jsval : Type :=
  | JUndefined
  | JNull
  | JBool (b : bool)
  | JNum (n : Z)
  | JStr (s : string)
  | JArr (items : list jsval)
  | JObj (fields : list (string * jsval)).

(** [!!v] *)
Definition truthy (v : jsval) : bool :=
  match v with
  | JUndefined | JNull => false
  | JBool b => b
  | JNum n => negb (n =? 0)
  | JStr s => negb (String.eqb s "")
  | JArr _ | JObj _ => true
  end.

(** The value of the last field named [k]; a later duplicate of a key
    replaces an earlier one. *)
Fixpoint field (k : string) (fields : list (string * jsval)) : jsval :=
  match fields with
  | [] => JUndefined
  | (k', v) :: rest =>
      match field k rest with
      | JUndefined => if String.eqb k k' then v else JUndefined
      | later => later
      end
  end.

(** [v.k] for a value [v] that is neither [undefined] nor [null]. *)
Definition get (v : jsval) (k : string) : jsval :=
  match v with
  | JObj fields => field k fields
  | JArr items =>
      if String.eqb k "length" then JNum (Z.of_nat (List.length items))
      else JUndefined
  | JStr s =>
      if String.eqb k "length" then JNum (Z.of_nat (String.length s))
      else JUndefined
  | _ => JUndefined
  end.

(** [v === 0] *)
Definition is_zero (v : jsval) : bool :=
  match v with
  | JNum 0 => true
  | _ => false
  end.

(** *** The controller *)

Definition CrawlJobError (message code : string) : Error :=
  mkError "CrawlJobError" message (Some code).

Definition validateCrawlerConfig (config : jsval) : outcome unit :=
  if negb (truthy config) then
    Throw (CrawlJobError "Crawler configuration is required" "MISSING_CONFIG")
  else if (negb (truthy (get config "urls"))
           || is_zero (get (get config "urls") "length"))%bool then
    Throw (CrawlJobError "At least one URL must be provided" "INVALID_URLS")
  else Ok ().

Record JobOptions := mkJobOptions {
  attempts : Z;
  backoff_type : string;
  backoff_delay : Z;
  removeOnComplete : Z;
  removeOnFail : Z
}.

(** A job record of the queue, with its payload [job.data.config]. *)
Record Job (D : Type) := mkJob {
  job_id : Z;
  job_config : D;
  job_opts : JobOptions;
  job_state : string;
  job_timestamp : Z
}.
Arguments mkJob {D}.
Arguments job_id {D}.
Arguments job_config {D}.
Arguments job_opts {D}.
Arguments job_state {D}.
Arguments job_timestamp {D}.

(** The durable queue: the job records it holds, the next identifier it
    hands out and, for the calls to come, whether its store answers each
    of them; the calls after those listed are answered. *)
Record BullQueue := mkQueue {
  jobs : list (Job jsval);
  next_id : Z;
  answers : list bool
}.

Definition unreachable : Error := mkError "Error" "connect ECONNREFUSED" None.

(** One call to the store. *)
Definition store_call (q : BullQueue) : bool * BullQueue :=
  match answers q with
  | [] => (true, q)
  | answer :: later =>
      (answer, {| jobs := jobs q; next_id := next_id q; answers := later |})
  end.

Record JobCounts := mkJobCounts {
  waiting : nat;
  active : nat;
  completed : nat;
  failed : nat;
  delayed : nat
}.

Definition count_state (st : string) (q : BullQueue) : nat :=
  List.length (List.filter (fun j => String.eqb (job_state j) st) (jobs q)).

Definition job_counts (q : BullQueue) : JobCounts :=
  {| waiting := count_state "waiting" q;
     active := count_state "active" q;
     completed := count_state "completed" q;
     failed := count_state "failed" q;
     delayed := count_state "delayed" q |}.

(** [queue.getJobCounts()] *)
Definition getJobCounts (q : BullQueue) : outcome JobCounts * BullQueue :=
  match store_call q with
  | (true, q') => (Ok (job_counts q'), q')
  | (false, q') => (Throw unreachable, q')
  end.

(** [queue.add(data, opts)] at time [now] *)
Definition queue_add (config : jsval) (opts : JobOptions) (now : Z)
  (q : BullQueue) : outcome (Job jsval) * BullQueue :=
  match store_call q with
  | (true, q') =>
      let job := mkJob (next_id q') config opts "waiting" now in
      (Ok job, {| jobs := jobs q' ++ [job]; next_id := next_id q' + 1;
                  answers := answers q' |})
  | (false, q') => (Throw unreachable, q')
  end.

(** [job.getState()]: the state of the job's record in the store. *)
Definition getState (job : Job jsval) (q : BullQueue)
  : outcome string * BullQueue :=
  match store_call q with
  | (true, q') =>
      (Ok (match List.find (fun j => job_id j =? job_id job) (jobs q') with
           | Some j => job_state j
           | None => "stuck"
           end), q')
  | (false, q') => (Throw unreachable, q')
  end.

Inductive Reply : Type :=
  | Queued (job_id : Z) (status message : string) (queuePosition : JobCounts)
  | Failed (status : Z) (error message : string).

Definition submit_options : JobOptions :=
  {| attempts := 3; backoff_type := "exponential"; backoff_delay := 1000;
     removeOnComplete := 100; removeOnFail := 200 |}.

(** [createCrawlee]: the reply, and the queue afterwards.  The three
    calls to the queue are awaited inside one [try], so that a failure
    of any of them is answered by the [catch]. *)
Definition createCrawlee (body : jsval) (now : Z) (q : BullQueue)
  : Reply * BullQueue :=
  let on_error (error : Error) : Reply :=
    match err_name error, err_code error with
    | "CrawlJobError", Some code => Failed 400 code (err_message error)
    | _, _ => Failed 500 "INTERNAL_ERROR" "Failed to create crawl job"
    end in
  match validateCrawlerConfig body with
  | Throw error => (on_error error, q)
  | Ok _ =>
      match queue_add body submit_options now q with
      | (Throw error, q1) => (on_error error, q1)
      | (Ok job, q1) =>
          match getState job q1 with
          | (Throw error, q2) => (on_error error, q2)
          | (Ok status, q2) =>
              match getJobCounts q2 with
              | (Throw error, q3) => (on_error error, q3)
              | (Ok queuePosition, q3) =>
                  (Queued (job_id job) status
                     "Crawlee job queued successfully" queuePosition, q3)
              end
          end
      end
  end.

Record Metadata := mkMetadata {
  startedAt : Z;
  completedAt : Z;
  metadata_config : CrawlerConfig
}.

Record CrawlJobResult := mkResult {
  crawlId : number;
  processedItems : jsval;
  metadata : Metadata
}.

Definition item_value (d : DataItem) : jsval :=
  JObj [("url", JStr (item_url d)); ("s3Path", JStr (s3Path d));
        ("uploadTimestamp", JStr (uploadTimestamp d))].

(** [dataset.getData()]: not the list of the records but an object that
    holds it under [items], beside the counts of the page of records
    that was asked for. *)
Definition getData (d : list DataItem) : jsval :=
  JObj [("total", JNum (Z.of_nat (List.length d)));
        ("count", JNum (Z.of_nat (List.length d)));
        ("offset", JNum 0);
        ("limit", JNum 999999999999);
        ("desc", JBool false);
        ("items", JArr (map item_value d))].

(** The job processor of [setupQueueProcessing], on a job whose payload
    is read at its declared type ([None] for a job without a
    configuration); [t_id] and [t_done] are the clock's readings in
    [crawleeId] and in [Date.now()]. *)
Definition processJob (P : Platform) (site : Site) (t_id t_done : Z)
  (job : Job (option CrawlerConfig)) : outcome CrawlJobResult :=
  let body : outcome CrawlJobResult :=
    match job_config job with
    | None =>
        Throw (CrawlJobError "Invalid crawler configuration" "INVALID_CONFIG")
    | Some crawleeConfig =>
        let session := run P site crawleeConfig in
        let crawlId := crawleeId t_id None in
        let datasetItems := getData (dataset session) in
        Ok {| crawlId := crawlId;
              processedItems := get datasetItems "length";
              metadata := {| startedAt := job_timestamp job;
                             completedAt := t_done;
                             metadata_config := crawleeConfig |} |}
    end in
  match body with
  | Ok result => Ok result
  | Throw error => Throw (CrawlJobError (err_message error) "CRAWL_FAILED")
  end.

(** ** Observations of a session *)

Definition is_click_next (a : Action) : bool :=
  match a with ClickNext _ => true | _ => false end.

(** The pagination clicks issued so far, oldest first. *)
Definition advances (s : Session) : list Action :=
  List.filter is_click_next (actions s).

Definition has_label (l : string) (r : Request) : bool :=
  match label r with
  | Some l' => String.eqb l' l
  | None => false
  end.

(** The URLs that a handler has been run on, under the given label. *)
Definition visited (l : string) (s : Session) : list string :=
  map (fun h => url h.1) (List.filter (fun h => has_label l h.1) (handled s)).

(** The pending requests for product pages. *)
Definition pending_products (s : Session) : list Request :=
  List.filter (has_label "product") (pending s).

Definition is_upload_notice (e : LogEntry) : bool :=
  match e with
  | LogInfo m => String.prefix "Product HTML uploaded to S3: " m
  | _ => false
  end.

(** The products whose extraction ran to its end. *)
Definition extracted (s : Session) : nat :=
  List.length (List.filter is_upload_notice (log s)).

(** ** Sample sites *)

Module Sample.

Definition timeout (what : string) : Error :=
  mkError "TimeoutError" ("Timeout exceeded waiting for " +:+ what) None.

(** A site on which every wait succeeds, built from its anchors, its
    product cards, the state of its [#AcceptAll] button, the page that
    the pagination control leads to (if there is a control) and the
    number of [EAN] labels of each page. *)
Definition site_of (links : string -> list string)
  (cards : string -> list (option string))
  (accept : string -> outcome unit)
  (next : string -> option string)
  (ean : string -> nat) : Site :=
  {| loadedUrl := fun page => Some page;
     anchors := links;
     waitForSelector := fun _ _ => Ok ();
     cardHrefs := fun page _ => cards page;
     waitForLoadState := fun _ => Ok ();
     acceptAttached := accept;
     acceptVisible := fun _ => Ok ();
     acceptScroll := fun _ => Ok ();
     acceptClick := fun _ => Ok ();
     locatorCount := fun page _ =>
       match next page with Some _ => 1%nat | None => 0%nat end;
     clickFirst := fun page _ =>
       match next page with
       | Some page' => Ok page'
       | None => Throw (timeout "locator.click")
       end;
     pageContent := fun page => Ok ("<html>" +:+ page +:+ "</html>");
     textContent := fun _ _ => Ok (Some "Name");
     firstTextContent := fun _ _ => Ok (Some "9,99");
     eanLabelCount := ean;
     eanValueText := fun _ => Ok (Some " 8712345678906 ");
     isoNow := fun _ => "2024-01-01T00:00:00.000Z";
     uniqueId := fun _ => "k3j9x0a1b2c";
  |}.

Definition config_of (start patterns : list string) (pages : option Z)
  : CrawlerConfig :=
  {| startUrls := start;
     productListingUrlPatterns := patterns;
     productCardSelectors := ".product-item";
     productUrlPatterns := [];
     paginationSelectors := "a.next";
     productLinkSelectors := [];
     maxPages := match pages with Some n => Pages n | None => Absent end;
     nameSelector := "h1";
     priceSelector := ".price" |}.

Definition home : string := "https://www.example.com/".
Definition cat_page (n : nat) : string :=
  "https://www.example.com/cat?page=" +:+ pretty n.
Definition item (n : nat) : string :=
  "https://www.example.com/p/" +:+ pretty n.

(** The number of the listing page, among the first fifty. *)
Definition page_number (u : string) : option nat :=
  List.find (fun n => String.eqb (cat_page n) u) (seq 1 50).

(** *** A listing whose every page has a next control *)
Definition endless : Site :=
  site_of
    (fun page => if String.eqb page home then [cat_page 1] else [])
    (fun _ => [])
    (fun _ => Ok ())
    (fun page => match page_number page with
                 | Some n => Some (cat_page (n + 1))
                 | None => Some (cat_page 1)
                 end)
    (fun _ => 1%nat).

Definition three_pages : CrawlerConfig :=
  config_of [home] ["https://www.example.com/cat"] (Some 3).

(** *** Four listings of one product each *)
Definition four_products : Site :=
  site_of
    (fun page => if String.eqb page home
                 then [cat_page 1; cat_page 2; cat_page 3; cat_page 4]
                 else [])
    (fun page => match page_number page with
                 | Some n => [Some (item n)]
                 | None => []
                 end)
    (fun _ => Ok ())
    (fun _ => None)
    (fun _ => 1%nat).

Definition default_pages : CrawlerConfig :=
  config_of [home] ["https://www.example.com/cat"] None.

(** *** A listing of two products, without consent button *)
Definition no_consent : Site :=
  site_of
    (fun _ => [])
    (fun page => if String.eqb page (cat_page 1)
                 then [Some (item 1); None; Some (item 2)] else [])
    (fun _ => Throw (timeout "locator('#AcceptAll')"))
    (fun page => match page_number page with
                 | Some n => Some (cat_page (n + 1))
                 | None => None
                 end)
    (fun _ => 0%nat).

(** *** A listing of two products, and no further page *)
Definition two_products : Site :=
  site_of
    (fun _ => [])
    (fun page => if String.eqb page (cat_page 1)
                 then [Some (item 1); Some (item 2)] else [])
    (fun _ => Ok ())
    (fun _ => None)
    (fun _ => 1%nat).

(** A site whose product pages answer [name] and [price] to the
    selectors of the product name and of the price. *)
Definition with_texts (name price : outcome (option string)) (site : Site)
  : Site :=
  {| loadedUrl := loadedUrl site;
     anchors := anchors site;
     waitForSelector := waitForSelector site;
     cardHrefs := cardHrefs site;
     waitForLoadState := waitForLoadState site;
     acceptAttached := acceptAttached site;
     acceptVisible := acceptVisible site;
     acceptScroll := acceptScroll site;
     acceptClick := acceptClick site;
     locatorCount := locatorCount site;
     clickFirst := clickFirst site;
     pageContent := pageContent site;
     textContent := fun _ _ => name;
     firstTextContent := fun _ _ => price;
     eanLabelCount := eanLabelCount site;
     eanValueText := eanValueText site;
     isoNow := isoNow site;
     uniqueId := uniqueId site |}.

Definition listing_request (n : nat) : Request :=
  {| url := cat_page n; label := Some "listing";
     uniqueKey := cat_page n; priority := None |}.

Definition product_request (n : nat) : Request :=
  {| url := item n; label := Some "product";
     uniqueKey := item n; priority := None |}.

(** A session in which the first listing page is about to be handled. *)
Definition at_listing : Session :=
  set_queue [] {[ cat_page 1 ]} (new_EcommerceCrawler default_pages).

Definition at_product : Session :=
  set_queue [listing_request 2] {[ item 1; cat_page 2 ]}
    (new_EcommerceCrawler default_pages).

(** *** Request bodies and jobs *)

(** A body with every field of [CrawlerConfig], and nothing else. *)
Definition full_body : jsval :=
  JObj [("startUrls", JArr [JStr home]);
        ("productListingUrlPatterns",
         JArr [JStr "https://www.example.com/cat"]);
        ("productCardSelectors", JStr ".product-item");
        ("productUrlPatterns", JArr [JStr "https://www.example.com/p"]);
        ("paginationSelectors", JStr "a.next");
        ("productLinkSelectors", JArr [JStr "a"]);
        ("maxPages", JNum 3);
        ("nameSelector", JStr "h1");
        ("priceSelector", JStr ".price")].

(** A body without start URLs, with a stray [urls] field. *)
Definition urls_body : jsval :=
  JObj [("startUrls", JArr []); ("urls", JArr [JStr home])].

Definition empty_queue : BullQueue :=
  {| jobs := []; next_id := 1; answers := [] |}.

Definition job_of (c : CrawlerConfig) : Job (option CrawlerConfig) :=
  mkJob 1 (Some c) submit_options "active" 1700000000000.

(** *** A listing whose every page has one product and a next control *)
Definition catalogue : Site :=
  site_of
    (fun _ => [])
    (fun page => match page_number page with
                 | Some n => [Some (item n)]
                 | None => []
                 end)
    (fun _ => Ok ())
    (fun page => match page_number page with
                 | Some n => Some (cat_page (n + 1))
                 | None => None
                 end)
    (fun _ => 1%nat).






End Sample.

(** ** Statements about the classifier *)

(** A host label: no dot in it. *)
Definition single_label (h : string) : Prop :=
  "."%char ∉ Str.chars h.

(** A character of the class [[\w-]]. *)
Definition label_char (c : ascii) : bool :=
  (Str.is_word c || Ascii.eqb c "-")%bool.

(** [http://] or [https://] in any case, one or more characters of
    [[\w-]], a dot, and anything after it. *)
Definition dotted_http (u : list ascii) : Prop :=
  exists scheme first rest : list ascii,
    u = (scheme ++ first ++ "."%char :: rest)%list
    /\ (map Str.lower scheme = Str.chars "http://"
        \/ map Str.lower scheme = Str.chars "https://")
    /\ first <> []
    /\ Forall (fun c => label_char c = true) first.

(** The program of [^https?://[\w-]+\.]. *)
Definition one_label_program : list Regex.item :=
  let lit c := (Regex.AChar c, Regex.One) in
  [lit "h"; lit "t"; lit "t"; lit "p"; (Regex.AChar "s", Regex.Opt);
   lit ":"; lit "/"; lit "/";
   (Regex.AClass true false ["-"], Regex.Plus); lit "."]%char.

Definition one_label_regex : RegExp :=
  {| Regex.source := "^https?://[\w-]+\.";
     Regex.ignoreCase := true;
     Regex.anchored := true;
     Regex.program := one_label_program |}.

(** "The regex derived from a pattern with a one-label host accepts a
    candidate exactly when the candidate's host is that host." *)
Definition bare_host_only (P : Platform) : Prop :=
  forall pattern host r candidate candidate_host,
    URL_hostname P pattern = Some host ->
    single_label host ->
    createRegexFromUrl P pattern = Ok r ->
    URL_hostname P candidate = Some candidate_host ->
    (Regex.test r candidate = true <-> candidate_host = host).

(** ** Reasoning about handlers *)

(** From a state that satisfies [I], the computation ends, normally or
    by an exception, in a state that satisfies [J]. *)
Definition hoare {A} (I : Session -> Prop) (m : M A) (J : Session -> Prop)
  : Prop :=
  forall s, I s -> J (m s).2.

(** From a state that satisfies [I], the computation returns a value [a]
    and ends in a state that satisfies [Q a]. *)
Definition succeeds {A} (I : Session -> Prop) (m : M A)
  (Q : A -> Session -> Prop) : Prop :=
  forall s, I s -> exists a, (m s).1 = Ok a /\ Q a (m s).2.

(** The page driver finds the cards of the page and its consent button,
    and reports a pagination control. *)
Definition next_control_in_reach (site : Site) (c : CrawlerConfig)
  (page : string) : Prop :=
  waitForSelector site page (productCardSelectors c) = Ok ()
  /\ waitForLoadState site page = Ok ()
  /\ acceptAttached site page = Ok ()
  /\ acceptVisible site page = Ok ()
  /\ acceptScroll site page = Ok ()
  /\ acceptClick site page = Ok ()
  /\ (0 < locatorCount site page (paginationSelectors c))%nat.

(** What the steps of [clickAcceptButton] that can fail come to, on a
    page. *)
Definition dismissal (site : Site) (page : string) : outcome unit :=
  waitForLoadState site page;;
  acceptAttached site page;;
  acceptVisible site page;;
  acceptScroll site page;;
  acceptClick site page.

(** A property that logging and the actions other than pagination clicks
    do not disturb. *)
Record Quiet (I : Session -> Prop) : Prop := mkQuiet {
  quiet_log : forall l s, I s -> I (set_log l s);
  quiet_act : forall a s,
    is_click_next a = false -> I s -> I (set_actions (actions s ++ [a]) s)
}.

(** A property that, besides, filing a request and marking a URL as
    processed do not disturb. *)
Record Stable (I : Session -> Prop) : Prop := mkStable {
  stable_quiet : Quiet I;
  stable_processed : forall v s, I s -> I (set_processedUrls v s);
  stable_add : forall r, hoare I (addRequest r) I
}.

(** A property that a pagination click does not disturb. *)
Definition click_closed (I : Session -> Prop) : Prop :=
  forall page s, I s -> I (set_actions (actions s ++ [ClickNext page]) s).

(** A property that the runtime's own bookkeeping of the queue and of the
    handled requests does not disturb. *)
Definition loop_closed (I : Session -> Prop) : Prop :=
  (forall p k s, I s -> I (set_queue p k s))
  /\ (forall h s, I s -> I (set_handled h s)).

(** The fields that no handler writes: the configuration, the page
    counter and the dataset are as in [s0]. *)
Definition untouched (s0 s : Session) : Prop :=
  config s = config s0 /\ pageCount s = pageCount s0
  /\ dataset s = dataset s0.

(** All but the log is as in [s0]. *)
Definition same_but_log (s0 s : Session) : Prop :=
  config s = config s0 /\ processedUrls s = processedUrls s0
  /\ pageCount s = pageCount s0 /\ pending s = pending s0
  /\ queueKeys s = queueKeys s0 /\ dataset s = dataset s0
  /\ actions s = actions s0 /\ handled s = handled s0.

(** The requests that the listing handler's [enqueueLinks] makes of the
    cards of a page, before the cut to [limit]. *)
Definition product_candidates (P : Platform) (site : Site)
  (request : Request) (c : CrawlerConfig) : list Request :=
  List.filter (fun r => enqueueStrategy P (base_of site request) (url r))
    (omap (fun u => request_of P (Some "product")
                      <$> URL_href P u (base_of site request))
       (non_null (cardHrefs site (url request) (productCardSelectors c)))).

(** At most [n] requests for product pages are pending. *)
Definition products_upto (n : nat) (s : Session) : Prop :=
  (List.length (pending_products s) <= n)%nat.

(** A request's URL as the default handler normalizes it. *)
Definition norm (P : Platform) (baseUrl : string) (r : Request) : string :=
  normalizeUrl P (url r) baseUrl.

(** ** Statements about ordinary hosts *)

(** A character of an ordinary host name: a letter, a digit, a hyphen or
    the dot between labels. *)
Definition hostish (c : ascii) : bool :=
  (PlainUrl.host_char c || Ascii.eqb c ".")%bool.

(** A text with a backslash put before each of its dots. *)
Fixpoint escape_dots (w : list ascii) : list ascii :=
  match w with
  | [] => []
  | c :: r =>
      if Ascii.eqb c "." then "\"%char :: "."%char :: escape_dots r
      else c :: escape_dots r
  end.

(** The items that match the characters of [w], one after the other. *)
Definition literal (w : list ascii) : list Regex.item :=
  map (fun c => (Regex.AChar c, Regex.One)) w.

(** [http://] or [https://] in any case, one or more characters of
    [[\w-]], a dot, the text [domain] in any case, and anything after
    it. *)
Definition domain_prefixed (domain u : list ascii) : Prop :=
  exists scheme first found rest : list ascii,
    u = (scheme ++ first ++ "."%char :: found ++ rest)%list
    /\ (map Str.lower scheme = Str.chars "http://"
        \/ map Str.lower scheme = Str.chars "https://")
    /\ first <> []
    /\ Forall (fun c => label_char c = true) first
    /\ map Str.lower found = map Str.lower domain.

(** The pattern [p] yields a regular expression, and that expression
    rejects [url]. *)
Definition passes_over (P : Platform) (url p : string) : Prop :=
  exists r, createRegexFromUrl P p = Ok r /\ Regex.test r url = false.

(** ** Statements about the handlers *)

(** The records of the crawler are as in [s0]: its configuration, its
    processed URLs, its page counter, the dataset and the handled
    requests. *)
Definition keeps_records (s0 s : Session) : Prop :=
  config s = config s0 /\ processedUrls s = processedUrls s0
  /\ pageCount s = pageCount s0 /\ dataset s = dataset s0
  /\ handled s = handled s0.

(** The pattern yields a regular expression. *)
Definition compiles (P : Platform) (p : string) : Prop :=
  exists r, createRegexFromUrl P p = Ok r.

(** The pending requests for listing pages. *)
Definition pending_listings (s : Session) : list Request :=
  List.filter (has_label "listing") (pending s).

(** The request under which the listing handler files the page shown
    after a pagination click. *)
Definition refiled (page' : string) : Request :=
  {| url := page'; label := Some "listing"; uniqueKey := page';
     priority := Some 1 |}.

(** ** Sample sites with failing pages *)

Module Faulty.

(** The site [site] with other answers to the waits for a selector, to
    the pagination click and to the reading of the [EAN] value. *)
Definition with_faults (wait : string -> string -> outcome unit)
  (click : string -> string -> outcome string)
  (ean : string -> outcome (option string)) (site : Site) : Site :=
  {| loadedUrl := loadedUrl site;
     anchors := anchors site;
     waitForSelector := wait;
     cardHrefs := cardHrefs site;
     waitForLoadState := waitForLoadState site;
     acceptAttached := acceptAttached site;
     acceptVisible := acceptVisible site;
     acceptScroll := acceptScroll site;
     acceptClick := acceptClick site;
     locatorCount := locatorCount site;
     clickFirst := click;
     pageContent := pageContent site;
     textContent := textContent site;
     firstTextContent := firstTextContent site;
     eanLabelCount := eanLabelCount site;
     eanValueText := ean;
     isoNow := isoNow site;
     uniqueId := uniqueId site |}.

(** A site whose product cards never attach. *)
Definition no_cards : Site :=
  with_faults (fun _ _ => Throw (Sample.timeout "locator('.product-item')"))
    (clickFirst Sample.two_products) (eanValueText Sample.two_products)
    Sample.two_products.

(** A listing of two pages whose pagination control cannot be
    clicked. *)
Definition stuck_button : Site :=
  with_faults (waitForSelector Sample.endless)
    (fun _ _ => Throw (Sample.timeout "locator.click"))
    (eanValueText Sample.endless) Sample.endless.

(** A listing whose pagination loads new cards under the same URL. *)
Definition same_url : Site :=
  with_faults (waitForSelector Sample.endless) (fun page _ => Ok page)
    (eanValueText Sample.endless) Sample.endless.

End Faulty.

(** Every URL marked as processed matches one of the patterns [ps] for
    listing pages; the configuration is [c]. *)
Definition marks_listings (P : Platform) (c : CrawlerConfig)
  (ps : list string) (s : Session) : Prop :=
  config s = c
  /\ forall u, u ∈ processedUrls s -> isListingUrl P u ps = Ok true.

(** What the product handler reads off a page, in the order of its
    reads: the content of the page, the texts of the name and of the
    price, and the trimmed text of the [EAN] value. *)
Definition product_reads (site : Site) (c : CrawlerConfig) (page : string)
  : outcome (option string * option string * option string) :=
  match pageContent site page with
  | Throw e => Throw e
  | Ok _ =>
      match textContent site page (nameSelector c) with
      | Throw e => Throw e
      | Ok name =>
          match firstTextContent site page (priceSelector c) with
          | Throw e => Throw e
          | Ok price =>
              if (0 <? eanLabelCount site page)%nat then
                match eanValueText site page with
                | Throw e => Throw e
                | Ok eanValue => Ok (name, price, trim <$> eanValue)
                end
              else
                Throw (mkError "Error" "EAN label not found on the page"
                         None)
          end
      end
  end.

Definition is_log_error (e : LogEntry) : bool :=
  match e with
  | LogError _ => true
  | _ => false
  end.

(** ** A start page with a link to another site *)

Module Outbound.

Definition site : Site :=
  Sample.site_of
    (fun page => if String.eqb page Sample.home
                 then [Sample.cat_page 1; "https://partner.example.org/"]
                 else [])
    (fun _ => [])
    (fun _ => Ok ())
    (fun _ => None)
    (fun _ => 0%nat).

(** A configuration whose second listing pattern is no URL. *)
Definition broken_pattern : CrawlerConfig :=
  Sample.config_of [Sample.home] ["https://www.example.com/cat"; "listing"]
    None.

Definition start : Request :=
  {| url := Sample.home; label := None; uniqueKey := Sample.home;
     priority := None |}.

End Outbound.

(** ** A session under another configuration *)

Definition set_config (c : CrawlerConfig) (s : Session) : Session :=
  mkSession c (processedUrls s) (pageCount s) (pending s) (queueKeys s)
    (dataset s) (log s) (actions s) (handled s).

(** The configuration [c] with other patterns for product URLs and other
    selectors for product links. *)
Definition with_product_hints (patterns links : list string)
  (c : CrawlerConfig) : CrawlerConfig :=
  {| startUrls := startUrls c;
     productListingUrlPatterns := productListingUrlPatterns c;
     productCardSelectors := productCardSelectors c;
     productUrlPatterns := patterns;
     paginationSelectors := paginationSelectors c;
     productLinkSelectors := links;
     maxPages := maxPages c;
     nameSelector := nameSelector c;
     priceSelector := priceSelector c |}.

(** The computation [m] behaves in the same way when the configuration
    of the session is changed by [f]. *)
Definition blind {A} (f : CrawlerConfig -> CrawlerConfig) (m : M A) : Prop :=
  forall s,
    m (set_config (f (config s)) s)
    = ((m s).1, set_config (f (config (m s).2)) (m s).2).

(** ** Statements about the controller *)

(** A value of [urls] that the validation lets pass: a non-empty array,
    a non-empty string, [true], a number other than 0, or an object
    whose [length] is not 0. *)
Definition usable_urls (urls : jsval) : bool :=
  match urls with
  | JArr (_ :: _) => true
  | JStr s => negb (String.eqb s "")
  | JNum n => negb (n =? 0)
  | JBool b => b
  | JObj fields => negb (is_zero (field "length" fields))
  | _ => false
  end.

Definition MISSING_CONFIG : Error :=
  CrawlJobError "Crawler configuration is required" "MISSING_CONFIG".

Definition INVALID_URLS : Error :=
  CrawlJobError "At least one URL must be provided" "INVALID_URLS".

(** ** Where requests come from *)

(** A request that carries the label of a listing or of a product page,
    or else carries no label and is for one of the start URLs of [c]. *)
Definition origin (c : CrawlerConfig) (r : Request) : Prop :=
  match label r with
  | Some l => l = "listing" \/ l = "product"
  | None => url r ∈ startUrls c
  end.

(** All pending and all handled requests of the session are of these
    kinds. *)
Definition accounted (c : CrawlerConfig) (s : Session) : Prop :=
  Forall (origin c) (pending s)
  /\ Forall (fun h => origin c h.1) (handled s).

(** A transformation that lets a request through hands it on as it
    is. *)
Definition hands_on (g : Request -> M (option Request)) : Prop :=
  forall r s r', (g r s).1 = Ok (Some r') -> r' = r.

(** "[crawleeId] returns the argument unchanged for every non-zero
    numeric argument." *)
Definition unchanged_when_nonzero : Prop :=
  forall now id, id <> Int 0 -> crawleeId now (Some id) = id.

(** * Properties of the URL classifier *)

Example createRegexFromUrl_www_example :
  (Regex.source <$> match createRegexFromUrl PlainUrl.platform
                             "https://www.example.com/cat" with
                    | Ok r => Some r | Throw _ => None end)
  = Some "^https?://[\w-]+\.example\.com".
Proof. vm_compute. reflexivity. Qed.

Example hostname_examples :
  PlainUrl.hostname "https://www.example.com/cat" = Some "www.example.com"
  /\ PlainUrl.hostname "HTTP://LocalHost/a?b=1" = Some "localhost"
  /\ PlainUrl.hostname "/buy/" = None
  /\ PlainUrl.href "https://www.example.com" "https://www.example.com/x"
     = Some "https://www.example.com/".
Proof. vm_compute. repeat split. Qed.


Section StrFacts.

Lemma chars_app (s t : string) :
  Str.chars (s +:+ t) = (Str.chars s ++ Str.chars t)%list.
Proof.
  unfold Str.chars. induction s as [|c s IH]; [reflexivity|].
  simpl. f_equal. exact IH.
Qed.

Lemma split_label (l rest : string) :
  single_label l ->
  Str.split "." (l +:+ "." +:+ rest) = l :: Str.split "." rest.
Proof.
  unfold single_label. induction l as [|c l IH]; intros Hl.
  - reflexivity.
  - cbn in Hl. apply not_elem_of_cons in Hl as [Hc Hl].
    change (String c l +:+ "." +:+ rest)
      with (String c (l +:+ "." +:+ rest)).
    cbn [Str.split].
    destruct (Ascii.eqb_spec c ".") as [->|_]; [congruence|].
    rewrite (IH Hl). reflexivity.
Qed.

Lemma split_single (h : string) :
  single_label h -> Str.split "." h = [h].
Proof.
  unfold single_label. induction h as [|c h IH]; intros Hl.
  - reflexivity.
  - cbn in Hl. apply not_elem_of_cons in Hl as [Hc Hl].
    cbn [Str.split].
    destruct (Ascii.eqb_spec c ".") as [->|_]; [congruence|].
    rewrite (IH Hl). reflexivity.
Qed.

End StrFacts.

Section MatchFacts.

Import Regex.

Lemma one_spec ok k s :
  one ok k s = true <->
  exists c s', s = c :: s' /\ ok c = true /\ k s' = true.
Proof.
  destruct s as [|c s']; cbn.
  - split; [discriminate|]. intros (? & ? & ? & _); discriminate.
  - rewrite andb_true_iff. split.
    + intros [? ?]. eauto.
    + intros (? & ? & [= <- <-] & ? & ?). auto.
Qed.

Lemma star_spec ok k s :
  star ok k s = true <->
  exists l r, s = (l ++ r)%list /\ Forall (fun c => ok c = true) l /\ k r = true.
Proof.
  induction s as [|c s IH]; cbn [star]; rewrite orb_true_iff.
  - split.
    + intros [H|H]; [|discriminate]. exists [], []. auto.
    + intros (l & r & Hs & _ & Hk). symmetry in Hs.
      apply app_eq_nil in Hs as [-> ->]. auto.
  - rewrite andb_true_iff, IH. split.
    + intros [H|[Hc (l & r & -> & Hl & Hk)]].
      * exists [], (c :: s). auto.
      * exists (c :: l), r. auto.
    + intros (l & r & Hs & Hl & Hk). destruct l as [|c' l].
      * cbn in Hs. subst r. auto.
      * injection Hs as <- ->. inversion Hl; subst.
        right. split; [assumption|]. exists l, r. auto.
Qed.

Lemma one_mono ok (k : list ascii -> bool) s t :
  (forall s', k s' = true -> k (s' ++ t)%list = true) ->
  one ok k s = true -> one ok k (s ++ t)%list = true.
Proof.
  intros Hk. destruct s as [|c s]; cbn; [discriminate|].
  rewrite !andb_true_iff. intros [? ?]. auto.
Qed.

Lemma star_mono ok (k : list ascii -> bool) s t :
  (forall s', k s' = true -> k (s' ++ t)%list = true) ->
  star ok k s = true -> star ok k (s ++ t)%list = true.
Proof.
  intros Hk. induction s as [|c s IH]; cbn [star app].
  - rewrite orb_false_r. intros H. apply Hk in H. cbn in H.
    destruct t; cbn [star]; rewrite H; reflexivity.
  - rewrite !orb_true_iff, !andb_true_iff.
    intros [H|[? ?]]; [left; exact (Hk _ H)|right; auto].
Qed.

(** A match of a prefix stays a match when the subject is extended. *)
Lemma match_items_app ic items s t :
  match_items ic items s = true ->
  match_items ic items (s ++ t)%list = true.
Proof.
  revert s. induction items as [|[a q] rest IH]; intros s; [reflexivity|].
  cbn [match_items]. destruct q.
  - apply one_mono, IH.
  - rewrite !orb_true_iff. intros [H|H].
    + left. revert H. apply one_mono, IH.
    + right. apply IH, H.
  - apply one_mono. intros s'. apply star_mono, IH.
  - apply star_mono, IH.
Qed.

Lemma search_app ic items s t :
  search ic items s = true -> search ic items (s ++ t)%list = true.
Proof.
  induction s as [|c s IH]; cbn [search app].
  - rewrite orb_false_r. intros H.
    apply (match_items_app _ _ _ t) in H. cbn in H.
    destruct t; cbn [search]; rewrite H; reflexivity.
  - rewrite !orb_true_iff. intros [H|H].
    + left. apply (match_items_app _ _ (c :: s) t), H.
    + right. apply IH, H.
Qed.

Lemma test_app r url path :
  test r url = true -> test r (url +:+ path) = true.
Proof.
  unfold test. rewrite chars_app.
  destruct (anchored r); [apply match_items_app|apply search_app].
Qed.

End MatchFacts.

(** ** Domain classification *)

Section ClassifierFacts.

Variable P : Platform.

Lemma createRegexFromUrl_flags pattern r :
  createRegexFromUrl P pattern = Ok r ->
  Regex.ignoreCase r = true /\ Regex.anchored r = true.
Proof.
  unfold createRegexFromUrl, Regex.new_RegExp.
  destruct (URL_hostname P pattern) as [h|]; [|discriminate].
  set (tail := Str.join _ _).
  unfold Regex.compile. rewrite chars_app. cbn [Str.chars
    list_ascii_of_string app Ascii.eqb Bool.eqb].
  destruct (Regex.parse _ _ _) as [prog|]; cbn; [|discriminate].
  intros [= <-]. split; reflexivity.
Qed.

Lemma createRegexFromUrl_shape pattern (first rest : string) :
  URL_hostname P pattern = Some (first +:+ "." +:+ rest) ->
  single_label first ->
  createRegexFromUrl P pattern
  = Regex.new_RegExp
      ("^https?://[\w-]+\." +:+ Str.join "\." (Str.split "." rest)) "i".
Proof.
  intros Hh Hl. unfold createRegexFromUrl. rewrite Hh.
  rewrite (split_label _ _ Hl). reflexivity.
Qed.

End ClassifierFacts.

(** C5. Against the pattern set [{https://www.example.com/cat}], the URL
    [https://shop.example.com/any] is classified as matching and
    [https://example.org/any] as not matching, for listing and for
    product patterns alike.  The matcher derived from a pattern is the
    case-insensitive regular expression anchored at
    [^https?://[\w-]+\.] followed by the pattern's host without its
    leftmost label, dots escaped; the pattern's path plays no part, and
    neither does whatever follows the matched prefix of the candidate. *)
Theorem domain_classification :
  let patterns := ["https://www.example.com/cat"] in
  (isListingUrl PlainUrl.platform "https://shop.example.com/any" patterns
   = Ok true
   /\ isProductUrl PlainUrl.platform "https://shop.example.com/any" patterns
      = Ok true
   /\ isListingUrl PlainUrl.platform "https://example.org/any" patterns
      = Ok false
   /\ isProductUrl PlainUrl.platform "https://example.org/any" patterns
      = Ok false)
  /\ (forall (P : Platform) (pattern first rest : string),
        URL_hostname P pattern = Some (first +:+ "." +:+ rest) ->
        single_label first ->
        createRegexFromUrl P pattern
        = Regex.new_RegExp
            ("^https?://[\w-]+\." +:+ Str.join "\." (Str.split "." rest))
            "i")
  /\ (forall (P : Platform) (pattern : string) (r : RegExp),
        createRegexFromUrl P pattern = Ok r ->
        Regex.ignoreCase r = true /\ Regex.anchored r = true)
  /\ (forall (P : Platform) (p1 p2 host : string),
        URL_hostname P p1 = Some host -> URL_hostname P p2 = Some host ->
        createRegexFromUrl P p1 = createRegexFromUrl P p2)
  /\ (forall (P : Platform) (pattern : string) (r : RegExp)
        (candidate more : string),
        createRegexFromUrl P pattern = Ok r ->
        Regex.test r candidate = true ->
        Regex.test r (candidate +:+ more) = true).
Proof.
  cbv zeta. split; [|split; [|split; [|split]]].
  - vm_compute. repeat split.
  - intros P. apply createRegexFromUrl_shape.
  - intros P. apply createRegexFromUrl_flags.
  - intros P p1 p2 host H1 H2. unfold createRegexFromUrl.
    rewrite H1, H2. reflexivity.
  - intros P pattern r candidate more _. apply test_app.
Qed.

Lemma domain_classification_witness :
  createRegexFromUrl PlainUrl.platform "https://www.example.com/cat"
  = Regex.new_RegExp "^https?://[\w-]+\.example\.com" "i"
  /\ createRegexFromUrl PlainUrl.platform "https://www.example.com/cat"
     = createRegexFromUrl PlainUrl.platform
         "https://www.example.com/other/path?x=1"
  /\ (exists r,
        createRegexFromUrl PlainUrl.platform "https://www.example.com/cat"
        = Ok r
        /\ Regex.ignoreCase r = true
        /\ Regex.anchored r = true
        /\ Regex.test r ("https://shop.example.com" +:+ "/any/deeper")
           = true).
Proof.
  destruct domain_classification as (_ & Hshape & Hflags & Hhost & Hpath).
  split; [|split].
  - apply (Hshape PlainUrl.platform "https://www.example.com/cat"
             "www" "example.com").
    + vm_compute. reflexivity.
    + unfold single_label. vm_compute. intros H.
      repeat (apply elem_of_cons in H as [H|H]; [discriminate|]).
      apply elem_of_nil in H. exact H.
  - apply (Hhost PlainUrl.platform _ _ "www.example.com");
      vm_compute; reflexivity.
  - eexists. split; [vm_compute; reflexivity|].
    split; [|split].
    + eapply (Hflags PlainUrl.platform "https://www.example.com/cat").
      vm_compute. reflexivity.
    + eapply (Hflags PlainUrl.platform "https://www.example.com/cat").
      vm_compute. reflexivity.
    + eapply (Hpath PlainUrl.platform "https://www.example.com/cat" _
                "https://shop.example.com" "/any/deeper");
        vm_compute; reflexivity.
Defined.

(** ** Patterns with a one-label host *)

Section OneLabel.

Import Regex.

Lemma class_word_dash c :
  atom_ok true (AClass true false ["-"%char]) c = label_char c.
Proof. destruct c as [[] [] [] [] [] [] [] []]; reflexivity. Qed.

Lemma char_eq_dot c : char_eq true "." c = true -> c = "."%char.
Proof.
  destruct c as [[] [] [] [] [] [] [] []]; cbn; intros H;
    first [reflexivity | discriminate H].
Qed.

Lemma char_eq_lower p c :
  char_eq true p c = true <-> Str.lower c = Str.lower p.
Proof.
  unfold char_eq. destruct (Ascii.eqb_spec (Str.lower p) (Str.lower c));
    split; congruence.
Qed.

Lemma one_label_tail u :
  match_items true
    [(AChar ":", One); (AChar "/", One); (AChar "/", One);
     (AClass true false ["-"%char], Plus); (AChar ".", One)] u = true <->
  exists c1 c2 c3 first rest,
    u = (c1 :: c2 :: c3 :: first ++ "."%char :: rest)%list
    /\ map Str.lower [c1; c2; c3] = Str.chars "://"
    /\ first <> [] /\ Forall (fun c => label_char c = true) first.
Proof.
  cbn [match_items]. rewrite one_spec. split.
  - intros (c1 & u1 & -> & H1 & H). apply one_spec in H
      as (c2 & u2 & -> & H2 & H). apply one_spec in H
      as (c3 & u3 & -> & H3 & H). apply one_spec in H
      as (c4 & u4 & -> & H4 & H). apply star_spec in H
      as (l & r & -> & Hl & H). apply one_spec in H
      as (d & rest & -> & Hd & _).
    apply char_eq_dot in Hd as ->.
    apply char_eq_lower in H1, H2, H3.
    exists c1, c2, c3, (c4 :: l), rest. repeat split.
    + cbn [map]. rewrite H1, H2, H3. reflexivity.
    + discriminate.
    + constructor.
      * rewrite <- class_word_dash. exact H4.
      * eapply Forall_impl; [exact Hl|]. intros c Hc.
        rewrite <- class_word_dash. exact Hc.
  - intros (c1 & c2 & c3 & first & rest & -> & Hs & Hne & Hf).
    cbn [map] in Hs. injection Hs as H1 H2 H3.
    destruct first as [|c4 l]; [congruence|]. inversion Hf; subst.
    exists c1, (c2 :: c3 :: (c4 :: l) ++ "."%char :: rest)%list.
    split; [reflexivity|]. split; [apply char_eq_lower; exact H1|].
    apply one_spec. do 2 eexists. split; [reflexivity|].
    split; [apply char_eq_lower; exact H2|].
    apply one_spec. do 2 eexists. split; [reflexivity|].
    split; [apply char_eq_lower; exact H3|].
    apply one_spec. do 2 eexists. split; [reflexivity|].
    split; [rewrite class_word_dash; assumption|].
    apply star_spec. exists l, ("."%char :: rest)%list.
    split; [reflexivity|]. split.
    + eapply Forall_impl; [eassumption|]. intros c Hc.
      rewrite class_word_dash. exact Hc.
    + reflexivity.
Qed.

Ltac take_char H :=
  match type of H with
  | map _ ?l = _ =>
      destruct l as [|? l]; cbn [map] in H; [discriminate H|];
      injection H as ? H
  end.

Lemma one_label_match u :
  match_items true one_label_program u = true <-> dotted_http u.
Proof.
  unfold one_label_program.
  cbn [match_items]. rewrite one_spec. split.
  - intros (c1 & u1 & -> & H1 & H). apply one_spec in H
      as (c2 & u2 & -> & H2 & H). apply one_spec in H
      as (c3 & u3 & -> & H3 & H). apply one_spec in H
      as (c4 & u4 & -> & H4 & H).
    apply char_eq_lower in H1, H2, H3, H4.
    apply orb_true_iff in H as [H|H].
    + apply one_spec in H as (c5 & u5 & -> & H5 & H).
      apply char_eq_lower in H5.
      apply one_label_tail in H
        as (c6 & c7 & c8 & first & rest & -> & Hs & Hne & Hf).
      exists [c1; c2; c3; c4; c5; c6; c7; c8], first, rest.
      split; [reflexivity|]. split; [|auto]. right.
      cbn [map] in *. rewrite H1, H2, H3, H4, H5.
      injection Hs as -> -> ->. reflexivity.
    + apply one_label_tail in H
        as (c6 & c7 & c8 & first & rest & -> & Hs & Hne & Hf).
      exists [c1; c2; c3; c4; c6; c7; c8], first, rest.
      split; [reflexivity|]. split; [|auto]. left.
      cbn [map] in *. rewrite H1, H2, H3, H4.
      injection Hs as -> -> ->. reflexivity.
  - intros (scheme & first & rest & -> & Hs & Hne & Hf).
    assert (Htail : forall c6 c7 c8,
               map Str.lower [c6; c7; c8] = Str.chars "://" ->
               match_items true
                 [(AChar ":", One); (AChar "/", One); (AChar "/", One);
                  (AClass true false ["-"%char], Plus); (AChar ".", One)]
                 (c6 :: c7 :: c8 :: first ++ "."%char :: rest)%list
               = true).
    { intros c6 c7 c8 H. apply one_label_tail.
      exists c6, c7, c8, first, rest. auto. }
    destruct Hs as [Hs|Hs];
      unfold Str.chars in Hs; cbn [list_ascii_of_string] in Hs.
    + do 7 take_char Hs. destruct scheme; [|discriminate Hs].
      cbn [app]. do 2 eexists. split; [reflexivity|].
      split; [apply char_eq_lower; assumption|].
      apply one_spec. do 2 eexists. split; [reflexivity|].
      split; [apply char_eq_lower; assumption|].
      apply one_spec. do 2 eexists. split; [reflexivity|].
      split; [apply char_eq_lower; assumption|].
      apply one_spec. do 2 eexists. split; [reflexivity|].
      split; [apply char_eq_lower; assumption|].
      apply orb_true_iff. right. apply Htail.
      unfold Str.chars. cbn [map list_ascii_of_string]. congruence.
    + do 8 take_char Hs. destruct scheme; [|discriminate Hs].
      cbn [app]. do 2 eexists. split; [reflexivity|].
      split; [apply char_eq_lower; assumption|].
      apply one_spec. do 2 eexists. split; [reflexivity|].
      split; [apply char_eq_lower; assumption|].
      apply one_spec. do 2 eexists. split; [reflexivity|].
      split; [apply char_eq_lower; assumption|].
      apply one_spec. do 2 eexists. split; [reflexivity|].
      split; [apply char_eq_lower; assumption|].
      apply orb_true_iff. left.
      apply one_spec. do 2 eexists. split; [reflexivity|].
      split; [apply char_eq_lower; assumption|].
      apply Htail.
      unfold Str.chars. cbn [map list_ascii_of_string]. congruence.
Qed.

End OneLabel.

(** C6, as the code has it.  For every pattern whose host name is a
    single label, the derived regular expression is
    [^https?://[\w-]+\.] whatever the label is: it accepts a candidate
    exactly when the candidate starts with [http://] or [https://] (in
    any case), then one or more word characters or hyphens, then a
    dot. *)
Theorem one_label_pattern (P : Platform) (pattern host : string) :
  URL_hostname P pattern = Some host ->
  single_label host ->
  exists r : RegExp,
    createRegexFromUrl P pattern = Ok r
    /\ Regex.source r = "^https?://[\w-]+\."
    /\ forall candidate : string,
         Regex.test r candidate = true <-> dotted_http (Str.chars candidate).
Proof.
  intros Hh Hl. unfold createRegexFromUrl. rewrite Hh.
  rewrite (split_single _ Hl). cbn [Str.slice1 drop Str.join].
  eexists. split; [vm_compute; reflexivity|].
  split; [reflexivity|].
  intros candidate. unfold Regex.test. cbn [Regex.anchored Regex.ignoreCase
    Regex.program]. apply one_label_match.
Qed.

Lemma localhost_single_label : single_label "localhost".
Proof.
  unfold single_label. vm_compute. intros H.
  repeat (apply elem_of_cons in H as [H|H]; [discriminate H|]).
  apply elem_of_nil in H. exact H.
Qed.

Lemma one_label_pattern_witness :
  exists r : RegExp,
    createRegexFromUrl PlainUrl.platform "http://localhost/cat" = Ok r
    /\ Regex.source r = "^https?://[\w-]+\."
    /\ forall candidate : string,
         Regex.test r candidate = true <-> dotted_http (Str.chars candidate).
Proof.
  apply (one_label_pattern PlainUrl.platform "http://localhost/cat"
           "localhost").
  - vm_compute. reflexivity.
  - exact localhost_single_label.
Defined.

(** C6, as the specification words it, fails: the regex derived from
    [http://localhost/cat] rejects [http://localhost/any], whose host is
    the pattern's own. *)
Lemma bare_host_only_fails : ~ bare_host_only PlainUrl.platform.
Proof.
  intros H.
  assert (Hr : createRegexFromUrl PlainUrl.platform "http://localhost/cat"
               = Ok one_label_regex) by (vm_compute; reflexivity).
  assert (Ht : Regex.test one_label_regex "http://localhost/any" = false)
    by (vm_compute; reflexivity).
  assert (Hh : URL_hostname PlainUrl.platform "http://localhost/any"
               = Some "localhost") by (vm_compute; reflexivity).
  assert (Hp : URL_hostname PlainUrl.platform "http://localhost/cat"
               = Some "localhost") by (vm_compute; reflexivity).
  pose proof (H _ _ _ _ _ Hp localhost_single_label Hr Hh) as [_ Hback].
  rewrite (Hback eq_refl) in Ht. discriminate Ht.
Qed.

(** * Properties of the handlers *)

Section HoareRules.

Context {A B : Type}.
Implicit Types I J K : Session -> Prop.

Lemma hoare_weaken I K J (m : M A) :
  hoare I m K -> (forall s, K s -> J s) -> hoare I m J.
Proof. intros H HKJ s Hs. apply HKJ, H, Hs. Qed.

Lemma hoare_ret I (a : A) : hoare I (mret a) I.
Proof. intros s Hs. exact Hs. Qed.

Lemma hoare_lift I (o : outcome A) : hoare I (lift o) I.
Proof. intros s Hs. exact Hs. Qed.

Lemma hoare_gets I (f : Session -> A) : hoare I (gets f) I.
Proof. intros s Hs. exact Hs. Qed.

Lemma hoare_bind I K J (m : M A) (f : A -> M B) :
  hoare I m K -> (forall s, K s -> J s) ->
  (forall a, hoare K (f a) J) -> hoare I (m ≫= f) J.
Proof.
  intros Hm HKJ Hf s Hs. specialize (Hm s Hs).
  unfold mbind, M_bind. destruct (m s) as [[a|e] s']; cbn in *.
  - apply Hf, Hm.
  - apply HKJ, Hm.
Qed.

Lemma hoare_seq I (m : M A) (f : A -> M B) :
  hoare I m I -> (forall a, hoare I (f a) I) -> hoare I (m ≫= f) I.
Proof. intros Hm Hf. apply (hoare_bind I I I); auto. Qed.

Lemma hoare_try I K J (body : M A) (handler : Error -> M A) :
  hoare I body K -> (forall s, K s -> J s) ->
  (forall e, hoare K (handler e) J) -> hoare I (try_catch body handler) J.
Proof.
  intros Hm HKJ Hh s Hs. specialize (Hm s Hs).
  unfold try_catch. destruct (body s) as [[a|e] s']; cbn in *.
  - apply HKJ, Hm.
  - apply Hh, Hm.
Qed.

End HoareRules.

Section HandlerRules.

Variable P : Platform.
Variable site : Site.
Implicit Types I J K : Session -> Prop.

Lemma hoare_skip I : hoare I skip I.
Proof. intros s Hs. exact Hs. Qed.

Lemma hoare_log_info I m :
  (forall l s, I s -> I (set_log l s)) -> hoare I (log_info m) I.
Proof. intros HL s Hs. apply HL, Hs. Qed.

Lemma hoare_log_error I m :
  (forall l s, I s -> I (set_log l s)) -> hoare I (log_error m) I.
Proof. intros HL s Hs. apply HL, Hs. Qed.

Lemma hoare_console_log I w v :
  (forall l s, I s -> I (set_log l s)) -> hoare I (console_log w v) I.
Proof. intros HL s Hs. apply HL, Hs. Qed.

Lemma hoare_act I a :
  Quiet I -> is_click_next a = false -> hoare I (act a) I.
Proof. intros Q Ha s Hs. apply (quiet_act _ Q); assumption. Qed.

Lemma hoare_addRequests I rs :
  (forall r, hoare I (addRequest r) I) -> hoare I (addRequests rs) I.
Proof.
  intros Hadd. induction rs as [|r rs IH]; cbn [addRequests].
  - apply hoare_skip.
  - apply hoare_seq; [apply Hadd|intros _; exact IH].
Qed.

Lemma hoare_transform_all I f rs :
  (forall r, hoare I (f r) I) -> hoare I (transform_all f rs) I.
Proof.
  intros Hf. induction rs as [|r rs IH]; cbn [transform_all].
  - apply hoare_ret.
  - apply hoare_seq; [apply Hf|intros o].
    apply hoare_seq; [exact IH|intros out]. apply hoare_ret.
Qed.

Lemma hoare_enqueueLinks I limit baseUrl urls lbl transform :
  (forall r, hoare I (addRequest r) I) ->
  (forall f r, transform = Some f -> hoare I (f r) I) ->
  hoare I (enqueueLinks P limit baseUrl urls lbl transform) I.
Proof.
  intros Hadd Hf. unfold enqueueLinks. apply hoare_seq.
  - destruct transform as [f|].
    + apply hoare_transform_all. intros r. apply (Hf f r eq_refl).
    + apply hoare_ret.
  - intros transformed.
    apply hoare_seq; [apply hoare_gets|intros known].
    apply hoare_seq; [apply hoare_gets|intros room].
    apply hoare_addRequests, Hadd.
Qed.

Lemma hoare_keep_new_listing I baseUrl req :
  (forall v s, I s -> I (set_processedUrls v s)) ->
  hoare I (keep_new_listing P baseUrl req) I.
Proof.
  intros Hp. unfold keep_new_listing.
  apply hoare_seq; [apply hoare_gets|intros processed].
  destruct (bool_decide _); [apply hoare_ret|].
  apply hoare_seq; [apply hoare_gets|intros cfg].
  apply hoare_seq; [apply hoare_lift|intros []]; [|apply hoare_ret].
  apply hoare_seq; [|intros _; apply hoare_ret].
  intros s Hs. apply Hp, Hs.
Qed.

Lemma hoare_defaultHandler I request :
  Stable I -> hoare I (defaultHandler P site request) I.
Proof.
  intros St. unfold defaultHandler.
  destruct (loadedUrl site (url request)) as [baseUrl|];
    [|apply hoare_skip].
  destruct (String.eqb baseUrl ""); [apply hoare_skip|].
  apply hoare_enqueueLinks; [apply (stable_add _ St)|].
  intros f r [= <-]. apply hoare_keep_new_listing, (stable_processed _ St).
Qed.

Lemma hoare_clickAcceptButton I page :
  Quiet I -> hoare I (clickAcceptButton site page) I.
Proof.
  intros Q. unfold clickAcceptButton, locator_truthy. cbn [negb].
  repeat (apply hoare_seq; [|intros _]);
    first [apply hoare_lift | apply hoare_act; [exact Q|reflexivity]].
Qed.

Lemma hoare_productHandler I request :
  (forall l s, I s -> I (set_log l s)) ->
  hoare I (productHandler site request) I.
Proof.
  intros HL. unfold productHandler.
  apply (hoare_try I I I); [|auto|intros e; apply hoare_log_error, HL].
  apply hoare_seq; [apply hoare_log_info, HL|intros _].
  apply hoare_seq; [apply hoare_lift|intros product_html].
  apply hoare_seq; [apply hoare_gets|intros cfg].
  apply hoare_seq; [apply hoare_lift|intros productName].
  apply hoare_seq; [apply hoare_console_log, HL|intros _].
  apply hoare_seq; [apply hoare_lift|intros price].
  apply hoare_seq; [apply hoare_console_log, HL|intros _].
  apply hoare_seq.
  - destruct (0 <? _)%nat; [|apply hoare_lift].
    apply hoare_seq; [apply hoare_lift|intros eanValue].
    apply hoare_console_log, HL.
  - intros _. apply (hoare_try I I I); [|auto|].
    + apply hoare_log_info, HL.
    + intros e. apply hoare_log_error, HL.
Qed.

(** The listing handler takes [I] to [J] when the product links are
    filed from [I] to [K], the pagination click leads from [K] to [J],
    and the re-filing of the listing keeps [J]. *)
Lemma hoare_listingHandler I K J request :
  Quiet I -> Quiet K -> Quiet J ->
  (forall s, I s -> K s) -> (forall s, K s -> J s) ->
  (forall urls,
      hoare I (enqueueLinks P 1 (base_of site request) urls "product" None)
        K) ->
  (forall s, K s ->
             J (set_actions (actions s ++ [ClickNext (url request)]) s)) ->
  (forall page',
      hoare J (addRequest {| url := page'; label := Some "listing";
                             uniqueKey := page'; priority := Some 1 |}) J) ->
  hoare I (listingHandler P site request) J.
Proof.
  intros QI QK QJ HIK HKJ Hprod Hclick Hadd. unfold listingHandler.
  apply (hoare_try I J J); [|auto|intros e; apply hoare_log_error, (quiet_log _ QJ)].
  apply (hoare_bind I I J); [apply hoare_log_info, (quiet_log _ QI)|auto|intros _].
  apply (hoare_bind I I J); [apply hoare_gets|auto|intros cfg].
  apply (hoare_bind I I J); [apply hoare_lift|auto|intros _].
  apply (hoare_bind I K J); [|auto|intros _].
  { destruct (0 <? _)%nat.
    - apply (hoare_bind I K K); [apply Hprod|auto|intros _].
      apply hoare_log_info, (quiet_log _ QK).
    - apply (hoare_weaken I I K); [apply hoare_skip|auto]. }
  apply (hoare_bind K K J);
    [apply hoare_clickAcceptButton, QK|auto|intros _].
  destruct (0 <? _)%nat.
  - apply (hoare_try K J J); [|auto|intros e; apply hoare_log_error, (quiet_log _ QJ)].
    apply (hoare_bind K J J); [|auto|intros _].
    { intros s Hs. apply Hclick, Hs. }
    apply hoare_seq; [apply hoare_lift|intros page'].
    apply hoare_seq; [apply hoare_lift|intros _].
    apply hoare_seq; [apply hoare_log_info, (quiet_log _ QJ)|intros _].
    apply Hadd.
  - apply (hoare_weaken K K J); [apply hoare_log_info, (quiet_log _ QK)|auto].
Qed.

Lemma hoare_listingHandler_stable I request :
  Stable I -> click_closed I ->
  hoare I (listingHandler P site request) I.
Proof.
  intros St Hc. pose proof (stable_quiet _ St) as Q.
  apply (hoare_listingHandler I I I);
    [exact Q|exact Q|exact Q|intros; assumption|intros; assumption|..].
  - intros urls. apply hoare_enqueueLinks; [apply (stable_add _ St)|].
    intros f r [=].
  - intros s. apply Hc.
  - intros page'. apply (stable_add _ St).
Qed.

(** The router on a request that is not for a listing. *)
Lemma hoare_router_other I request :
  Stable I -> has_label "listing" request = false ->
  hoare I (router P site request) I.
Proof.
  intros St. unfold router, has_label.
  destruct (label request) as [l|].
  - intros ->. destruct (String.eqb l "product");
      [apply hoare_productHandler, (quiet_log _ (stable_quiet _ St))|].
    apply hoare_defaultHandler, St.
  - intros _. apply hoare_defaultHandler, St.
Qed.

Lemma router_listing request :
  has_label "listing" request = true ->
  router P site request = listingHandler P site request.
Proof.
  unfold router, has_label. destruct (label request) as [l|];
    [|discriminate]. intros ->. reflexivity.
Qed.

Lemma hoare_router I request :
  Stable I -> click_closed I -> hoare I (router P site request) I.
Proof.
  intros St Hc. destruct (has_label "listing" request) eqn:Hl.
  - rewrite (router_listing _ Hl).
    apply hoare_listingHandler_stable; assumption.
  - apply hoare_router_other; assumption.
Qed.

(** *** The crawl *)

Lemma crawl_keeps I budget s :
  Stable I -> click_closed I -> loop_closed I ->
  I s -> I (crawl P site budget s).
Proof.
  intros St Hc [Hq Hh]. revert s.
  induction budget as [|budget IH]; intros s Hs; [exact Hs|].
  cbn [crawl]. destruct (pending s) as [|request rest]; [exact Hs|].
  pose proof (hoare_router I request St Hc _ (Hq rest (queueKeys s) _ Hs))
    as Hr.
  destruct (router P site request _) as [result s']. cbn in Hr.
  apply IH, Hh, Hr.
Qed.

Lemma seed_keeps I s : Stable I -> I s -> I (seed P s).
Proof.
  intros St Hs. unfold seed.
  apply (hoare_addRequests I _ (stable_add _ St)), Hs.
Qed.

Lemma run_keeps I s :
  Stable I -> click_closed I -> loop_closed I ->
  I s -> I (run_from P site s).
Proof.
  intros St Hc Hl Hs. unfold run_from.
  apply crawl_keeps; auto. apply seed_keeps; assumption.
Qed.

End HandlerRules.

(** * Properties of a session *)

Section SessionFacts.

Variable P : Platform.
Variable site : Site.

Lemma addRequest_cases r s :
  (addRequest r s).2 = s
  \/ ((uniqueKey r ∉ queueKeys s)
      /\ (addRequest r s).2
         = set_queue (pending s ++ [stored r])
             ({[uniqueKey r]} ∪ queueKeys s) s).
Proof.
  unfold addRequest, modify. cbn.
  destruct (bool_decide_reflect (uniqueKey r ∈ queueKeys s)); auto.
Qed.

(** A property of fields that the queue does not hold is stable. *)
Lemma stable_of_fields I :
  (forall l s, I s -> I (set_log l s)) ->
  (forall a s, I s -> I (set_actions (actions s ++ [a]) s)
               \/ is_click_next a = true) ->
  (forall v s, I s -> I (set_processedUrls v s)) ->
  (forall p k s, I s -> I (set_queue p k s)) ->
  Stable I.
Proof.
  intros Hlog Hact Hproc Hqueue. split; [split|..]; auto.
  - intros a s Ha Hs. destruct (Hact a s Hs) as [H|H]; [exact H|congruence].
  - intros r s Hs. destruct (addRequest_cases r s) as [->|[_ ->]]; auto.
Qed.

Lemma untouched_stable s0 : Stable (untouched s0).
Proof. apply stable_of_fields; intros; auto. Qed.

Lemma untouched_run c :
  untouched (new_EcommerceCrawler c) (run P site c).
Proof.
  unfold run. apply run_keeps.
  - apply untouched_stable.
  - intros page s H. exact H.
  - split; intros; assumption.
  - repeat split.
Qed.

(** *** Pagination clicks *)

Lemma advances_app_other a s :
  is_click_next a = false ->
  advances (set_actions (actions s ++ [a]) s) = advances s.
Proof.
  intros Ha. unfold advances. cbn [actions set_actions].
  rewrite List.filter_app. cbn [List.filter]. rewrite Ha.
  apply app_nil_r.
Qed.

(** *** The listing handler has no page-count guard *)

Lemma hoare_bind_ok {A B} (I : Session -> Prop) Q J (m : M A)
  (f : A -> M B) :
  succeeds I m Q -> (forall a, hoare (Q a) (f a) J) -> hoare I (m ≫= f) J.
Proof.
  intros Hm Hf s Hs. destruct (Hm s Hs) as (a & Ha & HQ).
  unfold mbind, M_bind. destruct (m s) as [r s']. cbn in *. subst r.
  apply Hf, HQ.
Qed.

Lemma hoare_assume {A} (fact : Prop) (I J : Session -> Prop) (m : M A) :
  (fact -> hoare I m J) -> hoare (fun s => fact /\ I s) m J.
Proof. intros H s [Hf Hs]. apply (H Hf), Hs. Qed.

Lemma succeeds_bind {A B} (I : Session -> Prop) Q R (m : M A)
  (f : A -> M B) :
  succeeds I m Q -> (forall a, succeeds (Q a) (f a) R) ->
  succeeds I (m ≫= f) R.
Proof.
  intros Hm Hf s Hs. destruct (Hm s Hs) as (a & Ha & HQ).
  unfold mbind, M_bind. destruct (m s) as [r s']. cbn in *. subst r.
  apply Hf, HQ.
Qed.

(** A body that runs to its end needs no handler. *)
Lemma hoare_bind_ok_try {A} (I J : Session -> Prop) (body : M A)
  (handler : Error -> M A) :
  hoare I body J -> (forall e, hoare J (handler e) J) ->
  hoare I (try_catch body handler) J.
Proof. intros Hb Hh. apply (hoare_try I J J); auto. Qed.

Lemma succeeds_modify (I J : Session -> Prop) f :
  (forall s, I s -> J (f s)) -> succeeds I (modify f) (fun _ => J).
Proof. intros H s Hs. exists (). split; [reflexivity|apply H, Hs]. Qed.

Lemma succeeds_addRequests (I : Session -> Prop) rs :
  (forall r, hoare I (addRequest r) I) ->
  succeeds I (addRequests rs) (fun _ => I).
Proof.
  intros Hadd. induction rs as [|r rs IH]; cbn [addRequests].
  - intros s Hs. exists (). auto.
  - apply (succeeds_bind I (fun _ => I)); [|intros _; exact IH].
    intros s Hs. exists (). split; [reflexivity|apply Hadd, Hs].
Qed.

Lemma succeeds_enqueueLinks_plain (I : Session -> Prop) limit baseUrl urls
  lbl :
  (forall r, hoare I (addRequest r) I) ->
  succeeds I (enqueueLinks P limit baseUrl urls lbl None) (fun _ => I).
Proof.
  intros Hadd. unfold enqueueLinks.
  apply (succeeds_bind I (fun _ => I));
    [intros s Hs; eexists; split; [reflexivity|exact Hs]|intros transformed].
  apply (succeeds_bind I (fun _ => I));
    [intros s Hs; eexists; split; [reflexivity|exact Hs]|intros known].
  apply (succeeds_bind I (fun _ => I));
    [intros s Hs; eexists; split; [reflexivity|exact Hs]|intros room].
  apply succeeds_addRequests, Hadd.
Qed.

Lemma succeeds_clickAcceptButton (I : Session -> Prop) page :
  Quiet I ->
  waitForLoadState site page = Ok () -> acceptAttached site page = Ok () ->
  acceptVisible site page = Ok () -> acceptScroll site page = Ok () ->
  acceptClick site page = Ok () ->
  succeeds I (clickAcceptButton site page) (fun _ => I).
Proof.
  intros Q H1 H2 H3 H4 H5 s Hs. exists ().
  unfold clickAcceptButton, locator_truthy, mbind, M_bind, lift, act,
    modify. rewrite H1, H2, H3, H4, H5. cbn. split; [reflexivity|].
  apply (quiet_act _ Q); [reflexivity|].
  apply (quiet_act _ Q); [reflexivity|exact Hs].
Qed.

(** Whenever the page driver reports a pagination control on a listing
    page, the handler clicks it: neither [pageCount] nor [maxPages] is
    consulted. *)
Lemma listing_advances request s :
  next_control_in_reach site (config s) (url request) ->
  ClickNext (url request) ∈ actions (listingHandler P site request s).2.
Proof.
  intros (Hw & H1 & H2 & H3 & H4 & H5 & Hn).
  set (c := config s) in *.
  set (I := fun s' : Session => config s' = c).
  set (J := fun s' : Session => ClickNext (url request) ∈ actions s').
  assert (QI : Quiet I) by (split; intros; assumption).
  assert (QJ : Quiet J).
  { split; [intros; assumption|]. intros a s' _ H.
    unfold J in *. cbn. apply elem_of_app. left. exact H. }
  assert (AI : forall r, hoare I (addRequest r) I).
  { intros r s' Hs'.
    destruct (addRequest_cases r s') as [->|[_ ->]]; exact Hs'. }
  assert (AJ : forall r, hoare J (addRequest r) J).
  { intros r s' Hs'.
    destruct (addRequest_cases r s') as [->|[_ ->]]; exact Hs'. }
  cut (hoare I (listingHandler P site request) J).
  { intros H. apply H. reflexivity. }
  unfold listingHandler.
  apply (hoare_try I J J); [|auto|intros e; apply hoare_log_error, (quiet_log _ QJ)].
  apply (hoare_bind_ok I (fun _ => I)); [|intros _].
  { apply succeeds_modify. intros s' H. exact H. }
  apply (hoare_bind_ok I (fun a s' => a = c /\ I s')); [|intros cfg].
  { intros s' Hs'. exists (config s'). cbn. auto. }
  apply hoare_assume. intros ->.
  apply (hoare_bind_ok I (fun _ => I)); [|intros _].
  { intros s' Hs'. exists (). cbn. rewrite Hw. auto. }
  apply (hoare_bind_ok I (fun _ => I)); [|intros _].
  { destruct (0 <? _)%nat; [|intros s' Hs'; exists (); auto].
    apply (succeeds_bind I (fun _ => I)).
    - apply succeeds_enqueueLinks_plain, AI.
    - intros _. apply succeeds_modify. intros s' H. exact H. }
  apply (hoare_bind_ok I (fun _ => I)); [|intros _].
  { apply succeeds_clickAcceptButton; assumption. }
  apply Nat.ltb_lt in Hn. rewrite Hn.
  apply (hoare_try I J J); [|auto|intros e; apply hoare_log_error, (quiet_log _ QJ)].
  apply (hoare_bind I J J); [|auto|intros _].
  { intros s' _. unfold J. cbn. apply elem_of_app. right.
    apply elem_of_cons. left. reflexivity. }
  apply hoare_seq; [apply hoare_lift|intros page'].
  apply hoare_seq; [apply hoare_lift|intros _].
  apply hoare_seq; [apply hoare_log_info, (quiet_log _ QJ)|intros _].
  apply AJ.
Qed.

(** *** The dismissal step is not protected *)

Lemma clickAcceptButton_outcome page s :
  (clickAcceptButton site page s).1 = dismissal site page.
Proof.
  unfold clickAcceptButton, dismissal, locator_truthy, mbind, M_bind,
    outcome_bind, lift, act, modify.
  destruct (waitForLoadState site page) as [[]|e]; [|reflexivity].
  destruct (acceptAttached site page) as [[]|e]; [|reflexivity].
  destruct (acceptVisible site page) as [[]|e]; [|reflexivity].
  destruct (acceptScroll site page) as [[]|e]; [|reflexivity].
  destruct (acceptClick site page) as [[]|e]; reflexivity.
Qed.

Lemma hoare_bind_throws {A B} (I J : Session -> Prop) (m : M A)
  (f : A -> M B) :
  (forall s, I s -> exists e, (m s).1 = Throw e) -> hoare I m J ->
  hoare I (m ≫= f) J.
Proof.
  intros Ht Hm s Hs. destruct (Ht s Hs) as (e & He).
  specialize (Hm s Hs). unfold mbind, M_bind.
  destruct (m s) as [r s']. cbn in *. subst r. exact Hm.
Qed.

(** When the dismissal step throws, the handler ends without a
    pagination click. *)
Lemma failed_dismissal_skips_click request s e :
  dismissal site (url request) = Throw e ->
  advances (listingHandler P site request s).2 = advances s.
Proof.
  intros Hd.
  set (I := fun s' : Session => advances s' = advances s).
  assert (Q : Quiet I).
  { split; [intros; assumption|]. intros a s' Ha H. unfold I.
    rewrite (advances_app_other _ _ Ha). exact H. }
  assert (Hadd : forall r, hoare I (addRequest r) I).
  { intros r s' Hs'.
    destruct (addRequest_cases r s') as [->|[_ ->]]; exact Hs'. }
  cut (hoare I (listingHandler P site request) I).
  { intros H. apply H. reflexivity. }
  unfold listingHandler.
  apply (hoare_try I I I);
    [|auto|intros e'; apply hoare_log_error, (quiet_log _ Q)].
  apply hoare_seq; [apply hoare_log_info, (quiet_log _ Q)|intros _].
  apply hoare_seq; [apply hoare_gets|intros cfg].
  apply hoare_seq; [apply hoare_lift|intros _].
  apply hoare_seq; [|intros _].
  { destruct (0 <? _)%nat; [|apply hoare_skip].
    apply hoare_seq; [|intros _; apply hoare_log_info, (quiet_log _ Q)].
    apply hoare_enqueueLinks; [exact Hadd|intros f r [=]]. }
  apply hoare_bind_throws; [|apply hoare_clickAcceptButton, Q].
  intros s' _. exists e. rewrite clickAcceptButton_outcome. exact Hd.
Qed.

End SessionFacts.

(** ** The pagination bound *)

(** C1 at its failing input.  The page counter and the bound are there
    ([pageCount], "counter to track the number of pages processed";
    [maxPages], "maximum number of pages to process"), but the listing
    handler neither counts nor compares: it leaves [pageCount] as it
    is, and whenever the page driver finds the cards, the consent button
    and a pagination control on a listing page, it clicks the control,
    whatever [pageCount] and [maxPages] are.  With [maxPages = 3] and a
    page driver that reports a pagination control on every page, the
    fourth listing page is visited and the fourth advance is issued on
    it, with [pageCount] still 0. *)
Theorem maxPages_does_not_stop_pagination :
  (forall P site request s,
      next_control_in_reach site (config s) (url request) ->
      ClickNext (url request) ∈ actions (listingHandler P site request s).2
      /\ pageCount (listingHandler P site request s).2 = pageCount s)
  /\ let s := run PlainUrl.platform Sample.endless Sample.three_pages in
     maxPages (config s) = Pages 3
     /\ (forall page selector,
            (0 < locatorCount Sample.endless page selector)%nat)
     /\ visited "listing" s !! 3%nat = Some (Sample.cat_page 4)
     /\ advances s !! 3%nat = Some (ClickNext (Sample.cat_page 4))
     /\ ~ (List.length (advances s) <= 3)%nat
     /\ pageCount s = 0.
Proof.
  split.
  - intros P site request s Hn. split; [apply listing_advances, Hn|].
    apply (hoare_listingHandler_stable P site (untouched s) request
             (untouched_stable s) (fun page s' H => H) s).
    repeat split.
  - cbv zeta. split; [vm_compute; reflexivity|]. split.
    + intros page selector. unfold Sample.endless, Sample.site_of.
      cbn [locatorCount]. destruct (Sample.page_number page); lia.
    + split; [vm_compute; reflexivity|].
      split; [vm_compute; reflexivity|].
      split; [vm_compute; lia|].
      vm_compute. reflexivity.
Qed.

Lemma maxPages_does_not_stop_pagination_witness :
  ClickNext (Sample.cat_page 4)
  ∈ actions (listingHandler PlainUrl.platform Sample.endless
               (Sample.listing_request 4) Sample.at_listing).2
  /\ pageCount (listingHandler PlainUrl.platform Sample.endless
                  (Sample.listing_request 4) Sample.at_listing).2 = 0.
Proof.
  destruct maxPages_does_not_stop_pagination as [H _].
  apply (H PlainUrl.platform Sample.endless (Sample.listing_request 4)
           Sample.at_listing).
  unfold next_control_in_reach. vm_compute. repeat split; lia.
Defined.

(** * The job controller *)

(** ** Identifiers *)

(** C10, as the code has it.  [crawleeId] returns its argument
    unchanged when the argument is a number other than 0 and [NaN], and
    the clock's reading when the argument is absent, 0 or [NaN], so that
    [crawleeId(0)] is not 0 while the clock is not.  The identifier of a
    job result is the clock's reading when the crawl has ended, and two
    results made at the same reading carry the same identifier. *)
Theorem crawleeId_is_a_timestamp :
  (forall now id,
      id <> Int 0 -> id <> NaN -> crawleeId now (Some id) = id)
  /\ (forall now,
         crawleeId now None = Int now
         /\ crawleeId now (Some (Int 0)) = Int now
         /\ crawleeId now (Some NaN) = Int now)
  /\ (forall now, now <> 0 -> crawleeId now (Some (Int 0)) <> Int 0)
  /\ (forall P site t_id t_done job result,
         processJob P site t_id t_done job = Ok result ->
         crawlId result = Int t_id)
  /\ (forall P1 P2 site1 site2 t_id t1 t2 job1 job2 result1 result2,
         processJob P1 site1 t_id t1 job1 = Ok result1 ->
         processJob P2 site2 t_id t2 job2 = Ok result2 ->
         crawlId result1 = crawlId result2).
Proof.
  assert (Hid : forall P site t_id t_done job result,
             processJob P site t_id t_done job = Ok result ->
             crawlId result = Int t_id).
  { intros P site t_id t_done job result. unfold processJob.
    destruct (job_config job); [|discriminate].
    intros [= <-]. reflexivity. }
  split; [|split; [|split; [|split]]].
  - intros now [n|negative|] H0 Hnan; cbn; [|reflexivity|contradiction].
    destruct (Z.eqb_spec n 0) as [->|]; [contradiction|reflexivity].
  - intros now. repeat split.
  - intros now Hnow. cbn. congruence.
  - exact Hid.
  - intros P1 P2 site1 site2 t_id t1 t2 job1 job2 r1 r2 H1 H2.
    rewrite (Hid _ _ _ _ _ _ H1), (Hid _ _ _ _ _ _ H2). reflexivity.
Qed.

Lemma crawleeId_is_a_timestamp_witness :
  crawleeId 1700000000123 (Some (Int 42)) = Int 42
  /\ crawleeId 1700000000123 (Some (Infinity false)) = Infinity false
  /\ crawleeId 1700000000123 (Some (Int 0)) <> Int 0
  /\ (exists r1 r2,
         processJob PlainUrl.platform Sample.endless 1700000000123
           1700000000124 (Sample.job_of Sample.three_pages) = Ok r1
         /\ processJob PlainUrl.platform Sample.four_products 1700000000123
              1700000000125 (Sample.job_of Sample.default_pages) = Ok r2
         /\ crawlId r1 = Int 1700000000123
         /\ crawlId r1 = crawlId r2).
Proof.
  destruct crawleeId_is_a_timestamp as (H1 & _ & H3 & H4 & H5).
  split; [apply H1; discriminate|]. split; [apply H1; discriminate|].
  split; [apply H3; lia|].
  do 2 eexists.
  split; [unfold processJob, Sample.job_of; cbn [job_config]; reflexivity|].
  split; [unfold processJob, Sample.job_of; cbn [job_config]; reflexivity|].
  split.
  - eapply (H4 PlainUrl.platform Sample.endless _ 1700000000124
              (Sample.job_of Sample.three_pages)).
    unfold processJob, Sample.job_of; cbn [job_config]; reflexivity.
  - eapply (H5 PlainUrl.platform PlainUrl.platform Sample.endless
              Sample.four_products 1700000000123 1700000000124
              1700000000125 (Sample.job_of Sample.three_pages)
              (Sample.job_of Sample.default_pages));
      unfold processJob, Sample.job_of; cbn [job_config]; reflexivity.
Defined.

(** C10, as the specification words it, fails: [NaN] is a number other
    than 0, and [crawleeId(NaN)] is the clock's reading. *)
Lemma crawleeId_of_NaN :
  NaN <> Int 0
  /\ crawleeId 1700000000123 (Some NaN) = Int 1700000000123
  /\ crawleeId 1700000000123 (Some NaN) <> NaN
  /\ ~ unchanged_when_nonzero.
Proof.
  split; [discriminate|]. split; [reflexivity|]. split; [discriminate|].
  intros H. specialize (H 1700000000123 NaN). cbn in H.
  discriminate H. discriminate.
Qed.

(** ** Submission *)

(** C4 at its failing inputs.  The validation reads [config.urls], a
    field that [CrawlerConfig] does not have: a body with non-empty
    [startUrls] and every selector and pattern is refused with
    [INVALID_URLS] and the queue is left as it was, while a body with
    empty [startUrls] and a stray [urls] field is queued. *)
Theorem createCrawlee_reads_urls :
  createCrawlee Sample.full_body 1700000000000 Sample.empty_queue
  = (Failed 400 "INVALID_URLS" "At least one URL must be provided",
     Sample.empty_queue)
  /\ (exists q',
         createCrawlee Sample.urls_body 1700000000000 Sample.empty_queue
         = (Queued 1 "waiting" "Crawlee job queued successfully"
              (mkJobCounts 1 0 0 0 0), q')
         /\ List.length (jobs q') = 1%nat)
  /\ (forall fields now q,
         field "urls" fields = JUndefined ->
         createCrawlee (JObj fields) now q
         = (Failed 400 "INVALID_URLS" "At least one URL must be provided",
            q)).
Proof.
  split; [vm_compute; reflexivity|]. split.
  - eexists. split; [vm_compute; reflexivity|reflexivity].
  - intros fields now q H. unfold createCrawlee, validateCrawlerConfig.
    cbn [truthy negb get]. rewrite H. reflexivity.
Qed.

Lemma createCrawlee_reads_urls_witness :
  createCrawlee (JObj [("startUrls", JArr [JStr Sample.home])]) 0
    Sample.empty_queue
  = (Failed 400 "INVALID_URLS" "At least one URL must be provided",
     Sample.empty_queue).
Proof.
  destruct createCrawlee_reads_urls as (_ & _ & H).
  apply H. reflexivity.
Defined.

(** ** The result of a job *)

(** C3 at its failing input.  The processor reads [length] off what
    [dataset.getData()] resolves to, and that is not the list of the
    records but the object that holds the list: [processedItems] is
    [undefined] on every result, whatever was extracted.  The list
    would not do either: no handler writes to the dataset, so that the
    dataset of a run is empty whatever the site.  A job whose session
    carries the extraction of four products to its end does not report
    [processedItems = 4]. *)
Theorem processedItems_is_undefined :
  (forall P site t_id t_done job result,
      processJob P site t_id t_done job = Ok result ->
      processedItems result = JUndefined)
  /\ (forall P site c, dataset (run P site c) = [])
  /\ extracted (run PlainUrl.platform Sample.four_products
                  Sample.default_pages) = 4%nat
  /\ (exists result,
         processJob PlainUrl.platform Sample.four_products 1700000000123
           1700000000124 (Sample.job_of Sample.default_pages) = Ok result
         /\ processedItems result = JUndefined
         /\ processedItems result <> JNum 4).
Proof.
  assert (Hu : forall P site t_id t_done job result,
             processJob P site t_id t_done job = Ok result ->
             processedItems result = JUndefined).
  { intros P site t_id t_done job result. unfold processJob.
    destruct (job_config job); [|discriminate].
    intros [= <-]. reflexivity. }
  split; [exact Hu|]. split.
  { intros P site c. destruct (untouched_run P site c) as (_ & _ & H).
    exact H. }
  split; [vm_compute; reflexivity|].
  eexists. split.
  - unfold processJob, Sample.job_of. cbn [job_config]. reflexivity.
  - split; [reflexivity|discriminate].
Qed.

Lemma processedItems_is_undefined_witness :
  exists result,
    processJob PlainUrl.platform Sample.four_products 1700000000123
      1700000000124 (Sample.job_of Sample.default_pages) = Ok result
    /\ processedItems result = JUndefined.
Proof.
  destruct processedItems_is_undefined as (H & _).
  eexists. split;
    [unfold processJob, Sample.job_of; cbn [job_config]; reflexivity|].
  eapply (H PlainUrl.platform Sample.four_products 1700000000123
            1700000000124 (Sample.job_of Sample.default_pages)).
  unfold processJob, Sample.job_of; cbn [job_config]; reflexivity.
Defined.

(** ** Consent overlay *)

(** C7 at its failing input.  The dismissal step is not best-effort:
    whenever one of its waits or clicks throws, the exception leaves the
    listing handler's outer [try] and the handler ends without a
    pagination click.  On a listing page with a pagination control and
    without the [#AcceptAll] button, the wait for the button throws; the
    overlay is removed, the error is logged and the pagination control
    is never clicked. *)
Theorem absent_consent_stops_pagination :
  (forall P site request s e,
      dismissal site (url request) = Throw e ->
      advances (listingHandler P site request s).2 = advances s)
  /\ let request := Sample.listing_request 1 in
     let s := (listingHandler PlainUrl.platform Sample.no_consent request
                 Sample.at_listing).2 in
     (0 < locatorCount Sample.no_consent (url request) "a.next")%nat
     /\ actions s = [RemoveOverlay (url request)]
     /\ advances s = []
     /\ last (log s)
        = Some (LogError
                  ("Error while processing URL " +:+ url request +:+ ": "
                   +:+ "Timeout exceeded waiting for locator('#AcceptAll')")).
Proof.
  split.
  - intros P site request s e. apply failed_dismissal_skips_click.
  - cbv zeta. split; [vm_compute; lia|].
    split; [vm_compute; reflexivity|].
    split; vm_compute; reflexivity.
Qed.

Lemma absent_consent_stops_pagination_witness :
  advances (listingHandler PlainUrl.platform Sample.no_consent
              (Sample.listing_request 1) Sample.at_listing).2
  = advances Sample.at_listing.
Proof.
  destruct absent_consent_stops_pagination as [H _].
  apply (H PlainUrl.platform Sample.no_consent (Sample.listing_request 1)
           Sample.at_listing (Sample.timeout "locator('#AcceptAll')")).
  vm_compute. reflexivity.
Defined.

(** * Product extraction *)

Section ProductFacts.

Variable P : Platform.
Variable site : Site.

Lemma productHandler_returns request s :
  (productHandler site request s).1 = Ok ().
Proof.
  unfold productHandler, try_catch.
  match goal with |- context [match ?b s with _ => _ end] =>
    destruct (b s) as [[[]|e] s'] end; reflexivity.
Qed.

Lemma productHandler_same_but_log request s :
  same_but_log s (productHandler site request s).2.
Proof.
  apply (hoare_productHandler site (same_but_log s)).
  - intros l s' H. exact H.
  - repeat split.
Qed.

Lemma extracted_app s l :
  extracted (set_log (log s ++ l) s)
  = (extracted s + List.length (List.filter is_upload_notice l))%nat.
Proof.
  unfold extracted. cbn [log set_log].
  rewrite List.filter_app, length_app. reflexivity.
Qed.

Ltac run_product :=
  unfold productHandler, try_catch, mbind, M_bind, log_info, log_error,
    console_log, modify, lift, gets;
  cbn [fst snd config log set_log].

Lemma product_without_name request s html e :
  pageContent site (url request) = Ok html ->
  textContent site (url request) (nameSelector (config s)) = Throw e ->
  (productHandler site request s).2
  = set_log
      (log s
       ++ [LogInfo ("Processing product URL: "
                    +:+ show (loadedUrl site (url request)));
           LogError ("Error processing product "
                     +:+ show (loadedUrl site (url request)) +:+ ": "
                     +:+ err_message e)]) s.
Proof.
  intros Hc Hn. run_product. rewrite Hc. cbn [fst snd config log set_log].
  rewrite Hn. cbn [fst snd config log set_log].
  rewrite <- app_assoc. reflexivity.
Qed.

Lemma product_without_price request s html name e :
  pageContent site (url request) = Ok html ->
  textContent site (url request) (nameSelector (config s)) = Ok name ->
  firstTextContent site (url request) (priceSelector (config s)) = Throw e ->
  (productHandler site request s).2
  = set_log
      (log s
       ++ [LogInfo ("Processing product URL: "
                    +:+ show (loadedUrl site (url request)));
           Console "Product Name:" name;
           LogError ("Error processing product "
                     +:+ show (loadedUrl site (url request)) +:+ ": "
                     +:+ err_message e)]) s.
Proof.
  intros Hc Hn Hp. run_product. rewrite Hc. cbn [fst snd config log set_log].
  rewrite Hn. cbn [fst snd config log set_log].
  rewrite Hp. cbn [fst snd config log set_log].
  rewrite <- !app_assoc. reflexivity.
Qed.

Lemma product_without_ean request s html name price :
  pageContent site (url request) = Ok html ->
  textContent site (url request) (nameSelector (config s)) = Ok name ->
  firstTextContent site (url request) (priceSelector (config s)) = Ok price ->
  eanLabelCount site (url request) = 0%nat ->
  (productHandler site request s).2
  = set_log
      (log s
       ++ [LogInfo ("Processing product URL: "
                    +:+ show (loadedUrl site (url request)));
           Console "Product Name:" name;
           Console "Price:" price;
           LogError ("Error processing product "
                     +:+ show (loadedUrl site (url request)) +:+ ": "
                     +:+ "EAN label not found on the page")]) s.
Proof.
  intros Hc Hn Hp He. run_product. rewrite Hc.
  cbn [fst snd config log set_log].
  rewrite Hn. cbn [fst snd config log set_log].
  rewrite Hp. cbn [fst snd config log set_log].
  rewrite He. cbn [Nat.ltb Nat.leb fst snd config log set_log err_message].
  rewrite <- !app_assoc. reflexivity.
Qed.

Lemma router_product request :
  has_label "product" request = true ->
  router P site request = productHandler site request.
Proof.
  unfold router, has_label. destruct (label request) as [l|]; [|discriminate].
  intros H. apply String.eqb_eq in H as ->. reflexivity.
Qed.

(** After a product request the crawl goes on with the rest of the
    queue. *)
Lemma crawl_past_product budget request rest s :
  pending s = request :: rest ->
  has_label "product" request = true ->
  exists s',
    crawl P site (Datatypes.S budget) s = crawl P site budget s'
    /\ pending s' = rest
    /\ handled s' = (handled s ++ [(request, true)])%list
    /\ queueKeys s' = queueKeys s
    /\ dataset s' = dataset s.
Proof.
  intros Hp Hl. cbn [crawl]. rewrite Hp, (router_product _ Hl).
  pose proof (productHandler_returns request
                (set_queue rest (queueKeys s) s)) as Hr.
  pose proof (productHandler_same_but_log request
                (set_queue rest (queueKeys s) s))
    as (_ & _ & _ & Hpend & Hkeys & Hdata & _ & Hhand).
  destruct (productHandler site request _) as [result s1].
  cbn [fst snd] in *. subst result.
  eexists. split; [reflexivity|]. cbn [pending handled queueKeys dataset
    set_handled]. rewrite Hpend, Hhand, Hkeys, Hdata. repeat split.
Qed.

End ProductFacts.

Ltac last_entry :=
  cbn [log set_log];
  repeat match goal with
         | |- last (?l ++ ?a :: ?b :: ?r) = _ =>
             change (a :: b :: r) with ([a] ++ b :: r)%list;
             rewrite (app_assoc l)
         end;
  apply last_snoc.

Ltac no_notice :=
  match goal with
  | |- (_ + ?n)%nat = _ => change n with 0%nat; apply Nat.add_0_r
  end.

(** C9.  The product handler never throws: whatever fails while a
    product is extracted is caught inside the handler and logged.  It
    changes nothing but the log.  When the name, the price or the [EAN]
    label is missing, the log ends with the error, no upload notice is
    written and no record is made; the crawl then goes on with the rest
    of the queue, and the runtime sees a request that was handled without
    failure. *)
Theorem product_failure_is_local (P : Platform) (site : Site)
  (request : Request) (s : Session) :
  let page := url request in
  let after := (productHandler site request s).2 in
  let failure (message : string) :=
    LogError ("Error processing product " +:+ show (loadedUrl site page)
              +:+ ": " +:+ message) in
  (productHandler site request s).1 = Ok ()
  /\ same_but_log s after
  /\ (forall html e,
         pageContent site page = Ok html ->
         textContent site page (nameSelector (config s)) = Throw e ->
         last (log after) = Some (failure (err_message e))
         /\ extracted after = extracted s)
  /\ (forall html name e,
         pageContent site page = Ok html ->
         textContent site page (nameSelector (config s)) = Ok name ->
         firstTextContent site page (priceSelector (config s)) = Throw e ->
         last (log after) = Some (failure (err_message e))
         /\ extracted after = extracted s)
  /\ (forall html name price,
         pageContent site page = Ok html ->
         textContent site page (nameSelector (config s)) = Ok name ->
         firstTextContent site page (priceSelector (config s)) = Ok price ->
         eanLabelCount site page = 0%nat ->
         last (log after)
         = Some (failure "EAN label not found on the page")
         /\ extracted after = extracted s)
  /\ (forall budget rest s0,
         pending s0 = request :: rest ->
         has_label "product" request = true ->
         exists s1,
           crawl P site (Datatypes.S budget) s0 = crawl P site budget s1
           /\ pending s1 = rest
           /\ handled s1 = (handled s0 ++ [(request, true)])%list
           /\ queueKeys s1 = queueKeys s0
           /\ dataset s1 = dataset s0).
Proof.
  cbv zeta. split; [apply productHandler_returns|].
  split; [apply productHandler_same_but_log|].
  split; [|split; [|split]].
  - intros html e Hc Hn. rewrite (product_without_name _ _ _ _ _ Hc Hn).
    split; [last_entry|].
    rewrite extracted_app. no_notice.
  - intros html name e Hc Hn Hp.
    rewrite (product_without_price _ _ _ _ _ _ Hc Hn Hp).
    split; [last_entry|].
    rewrite extracted_app. no_notice.
  - intros html name price Hc Hn Hp He.
    rewrite (product_without_ean _ _ _ _ _ _ Hc Hn Hp He).
    split; [last_entry|].
    rewrite extracted_app. no_notice.
  - intros budget rest s0. apply crawl_past_product.
Qed.

Lemma product_failure_is_local_witness :
  let request := Sample.product_request 1 in
  let html := "<html>https://www.example.com/p/1</html>" in
  let failure (message : string) :=
    Some (LogError
            ("Error processing product https://www.example.com/p/1: "
             +:+ message)) in
  let nameless :=
    Sample.with_texts (Throw (Sample.timeout "locator('h1')"))
      (Ok (Some "9,99")) Sample.four_products in
  let priceless :=
    Sample.with_texts (Ok (Some "Name"))
      (Throw (Sample.timeout "locator('.price')")) Sample.four_products in
  (last (log (productHandler nameless request Sample.at_product).2)
   = failure "Timeout exceeded waiting for locator('h1')"
   /\ extracted (productHandler nameless request Sample.at_product).2
      = extracted Sample.at_product)
  /\ (last (log (productHandler priceless request Sample.at_product).2)
      = failure "Timeout exceeded waiting for locator('.price')"
      /\ extracted (productHandler priceless request Sample.at_product).2
         = extracted Sample.at_product)
  /\ (last (log (productHandler Sample.no_consent request
                   Sample.at_product).2)
      = failure "EAN label not found on the page"
      /\ extracted (productHandler Sample.no_consent request
                      Sample.at_product).2
         = extracted Sample.at_product)
  /\ exists s1,
       crawl PlainUrl.platform Sample.no_consent 2
         (set_queue [request; Sample.listing_request 2] ∅
            Sample.at_product)
       = crawl PlainUrl.platform Sample.no_consent 1 s1
       /\ pending s1 = [Sample.listing_request 2].
Proof.
  cbv zeta. split; [|split; [|split]].
  - destruct (product_failure_is_local PlainUrl.platform
                (Sample.with_texts (Throw (Sample.timeout "locator('h1')"))
                   (Ok (Some "9,99")) Sample.four_products)
                (Sample.product_request 1) Sample.at_product)
      as (_ & _ & H & _).
    apply (H "<html>https://www.example.com/p/1</html>"
             (Sample.timeout "locator('h1')")); vm_compute; reflexivity.
  - destruct (product_failure_is_local PlainUrl.platform
                (Sample.with_texts (Ok (Some "Name"))
                   (Throw (Sample.timeout "locator('.price')"))
                   Sample.four_products)
                (Sample.product_request 1) Sample.at_product)
      as (_ & _ & _ & H & _).
    apply (H "<html>https://www.example.com/p/1</html>" (Some "Name")
             (Sample.timeout "locator('.price')")); vm_compute; reflexivity.
  - destruct (product_failure_is_local PlainUrl.platform Sample.no_consent
                (Sample.product_request 1) Sample.at_product)
      as (_ & _ & _ & _ & H & _).
    apply (H "<html>https://www.example.com/p/1</html>" (Some "Name")
             (Some "9,99")); vm_compute; reflexivity.
  - destruct (product_failure_is_local PlainUrl.platform Sample.no_consent
                (Sample.product_request 1) Sample.at_product)
      as (_ & _ & _ & _ & _ & H).
    destruct (H 1%nat [Sample.listing_request 2]
                (set_queue
                   [Sample.product_request 1; Sample.listing_request 2]
                   ∅ Sample.at_product)) as (s1 & H1 & H2 & _);
      try (vm_compute; reflexivity).
    exists s1. split; assumption.
Defined.

(** * Fan-out *)

Section FanOut.

Variable P : Platform.
Variable site : Site.

Lemma bind_eval {A B} (m : M A) (f : A -> M B) s :
  (m ≫= f) s
  = match m s with
    | (Ok a, s') => f a s'
    | (Throw e, s') => (Throw e, s')
    end.
Proof. reflexivity. Qed.

Lemma addRequest_grows f r s :
  (List.length (List.filter f (pending (addRequest r s).2))
   <= List.length (List.filter f (pending s)) + 1)%nat.
Proof.
  destruct (addRequest_cases r s) as [->|[_ ->]]; [lia|].
  cbn [pending set_queue]. rewrite List.filter_app, length_app.
  cbn [List.filter]. destruct (f (stored r)); cbn; lia.
Qed.

Lemma addRequests_grows f rs s :
  (List.length (List.filter f (pending (addRequests rs s).2))
   <= List.length (List.filter f (pending s)) + List.length rs)%nat.
Proof.
  revert s. induction rs as [|r rs IH]; intros s; cbn [addRequests].
  - cbn. lia.
  - unfold mbind, M_bind.
    pose proof (addRequest_grows f r s) as Hr.
    destruct (addRequest r s) as [[[]|e] s1] eqn:Ha; cbn [snd] in *.
    + specialize (IH s1). cbn [List.length]. lia.
    + cbn [List.length]. lia.
Qed.

(** Whatever the runtime passes over and whatever room it sees, the cut
    leaves no more than [limit] links, all of them among the
    candidates. *)
Lemma enqueueCut_length limit known room candidates :
  (List.length (enqueueCut P limit known room candidates) <= limit)%nat.
Proof.
  unfold enqueueCut. rewrite length_take. destruct room; lia.
Qed.

Lemma enqueueCut_subseteq limit known room candidates :
  enqueueCut P limit known room candidates ⊆ candidates.
Proof.
  unfold enqueueCut. intros r Hr. apply subseteq_take in Hr.
  apply list_elem_of_In, List.filter_In in Hr as [Hr _].
  apply list_elem_of_In, Hr.
Qed.

Lemma enqueueLinks_plain limit baseUrl urls lbl s :
  enqueueLinks P limit baseUrl urls lbl None s
  = addRequests
      (enqueueCut P limit (queueKeys s) (room_for_links P s)
         (List.filter (fun r => enqueueStrategy P baseUrl (url r))
            (omap (fun u => request_of P (Some lbl) <$> URL_href P u baseUrl)
               urls))) s.
Proof. reflexivity. Qed.

(** What [enqueueLinks] does with the requests that have passed the
    transformation. *)
Lemma enqueue_tail_eval limit baseUrl transformed s :
  (known ← gets queueKeys;
   room ← gets (room_for_links P);
   addRequests
     (enqueueCut P limit known room
        (List.filter (fun r => enqueueStrategy P baseUrl (url r))
           transformed))) s
  = addRequests
      (enqueueCut P limit (queueKeys s) (room_for_links P s)
         (List.filter (fun r => enqueueStrategy P baseUrl (url r))
            transformed)) s.
Proof. reflexivity. Qed.

(** [enqueueLinks] files no more than [limit] requests. *)
Lemma enqueueLinks_grows f limit baseUrl urls lbl transform s :
  (forall g r p, transform = Some g ->
                 hoare (fun s' => pending s' = p) (g r)
                   (fun s' => pending s' = p)) ->
  (List.length
     (List.filter f
        (pending (enqueueLinks P limit baseUrl urls lbl transform s).2))
   <= List.length (List.filter f (pending s)) + limit)%nat.
Proof.
  intros Hg. unfold enqueueLinks. rewrite bind_eval.
  set (requestOptions := omap _ urls).
  set (tr := match transform with
             | Some g => transform_all g requestOptions
             | None => mret requestOptions
             end).
  assert (Ht : pending (tr s).2 = pending s).
  { unfold tr. destruct transform as [g|]; [|reflexivity].
    apply (hoare_transform_all (fun s' => pending s' = pending s));
      [|reflexivity].
    intros r. apply (Hg g r (pending s) eq_refl). }
  destruct (tr s) as [[transformed|e] s1]; cbn [snd] in *.
  - rewrite enqueue_tail_eval.
    etransitivity; [apply addRequests_grows|].
    rewrite Ht. pose proof (enqueueCut_length limit (queueKeys s1)
                              (room_for_links P s1)
                              (List.filter
                                 (fun r => enqueueStrategy P baseUrl (url r))
                                 transformed)). lia.
  - rewrite Ht. lia.
Qed.

Lemma filter_all {A} (l : list A) : List.filter (fun _ => true) l = l.
Proof. induction l as [|a l IH]; cbn; [|rewrite IH]; reflexivity. Qed.

Lemma defaultHandler_grows request s :
  (List.length (pending (defaultHandler P site request s).2)
   <= List.length (pending s) + 100)%nat.
Proof.
  unfold defaultHandler.
  destruct (loadedUrl site (url request)) as [baseUrl|]; [|cbn; lia].
  destruct (String.eqb baseUrl ""); [cbn; lia|].
  rewrite <- (filter_all (pending s)), <- (filter_all (pending _)).
  apply enqueueLinks_grows. intros g r p [= <-].
  apply hoare_keep_new_listing. intros v s' H. exact H.
Qed.

Lemma products_upto_quiet n : Quiet (products_upto n).
Proof. split; intros; assumption. Qed.

Lemma refiled_listing_is_no_product (I : list Request -> Prop) page' :
  hoare (fun s => I (pending_products s))
    (addRequest {| url := page'; label := Some "listing";
                   uniqueKey := page'; priority := Some 1 |})
    (fun s => I (pending_products s)).
Proof.
  intros s Hs.
  destruct (addRequest_cases
              {| url := page'; label := Some "listing";
                 uniqueKey := page'; priority := Some 1 |} s)
    as [->|[_ ->]]; [exact Hs|].
  unfold pending_products in *. cbn [pending set_queue].
  rewrite List.filter_app. cbn. rewrite app_nil_r. exact Hs.
Qed.

Lemma listingHandler_grows request s :
  (List.length (pending_products (listingHandler P site request s).2)
   <= List.length (pending_products s) + 1)%nat.
Proof.
  set (n := List.length (pending_products s)).
  apply (hoare_listingHandler P site (products_upto n)
           (products_upto (n + 1)) (products_upto (n + 1)));
    [apply products_upto_quiet|apply products_upto_quiet
    |apply products_upto_quiet|..].
  - unfold products_upto. intros; lia.
  - intros; assumption.
  - intros urls s' Hs'. unfold products_upto, pending_products in *.
    etransitivity; [apply enqueueLinks_grows; intros g r p [=]|]. lia.
  - intros s' H. exact H.
  - intros page'.
    apply (refiled_listing_is_no_product
             (fun l => (List.length l <= n + 1)%nat)).
  - unfold products_upto. lia.
Qed.

Lemma candidates_are_products request c r :
  r ∈ product_candidates P site request c -> has_label "product" r = true.
Proof.
  unfold product_candidates. intros H.
  apply list_elem_of_In, List.filter_In in H as [H _].
  apply list_elem_of_In, list_elem_of_omap in H as (u & _ & H).
  destruct (URL_href P u _); [|discriminate]. injection H as <-.
  reflexivity.
Qed.

End FanOut.

(** C8, as the code has it.  A listing page adds at most one request for
    a product page to the queue: the listing handler calls
    [enqueueLinks] with [limit: 1].  The bound of 100 is that of the
    default handler, on the listing links that it files per page. *)
Theorem one_product_per_listing (P : Platform) (site : Site)
  (request : Request) (s : Session) :
  (List.length (pending_products (listingHandler P site request s).2)
   <= List.length (pending_products s) + 1)%nat
  /\ (List.length (pending (defaultHandler P site request s).2)
      <= List.length (pending s) + 100)%nat.
Proof.
  split; [apply listingHandler_grows|apply defaultHandler_grows].
Qed.

(** C8, as the specification words it, fails: of the two product links
    of a listing page only the first is enqueued, far below 100. *)
Lemma second_product_not_enqueued :
  let request := Sample.listing_request 1 in
  let s := (listingHandler PlainUrl.platform Sample.two_products request
              Sample.at_listing).2 in
  non_null (cardHrefs Sample.two_products (url request)
              (productCardSelectors (config Sample.at_listing)))
  = [Sample.item 1; Sample.item 2]
  /\ map url (pending s) = [Sample.item 1]
  /\ Sample.item 2 ∉ map url (pending s).
Proof.
  cbv zeta. split; [vm_compute; reflexivity|].
  assert (H : map url
                (pending
                   (listingHandler PlainUrl.platform Sample.two_products
                      (Sample.listing_request 1) Sample.at_listing).2)
              = [Sample.item 1]) by (vm_compute; reflexivity).
  split; [exact H|]. rewrite H. intros Hin.
  apply elem_of_cons in Hin as [Hin|Hin]; [|apply elem_of_nil in Hin; exact Hin].
  vm_compute in Hin. discriminate Hin.
Qed.

(** * Deduplication *)

Section Dedup.

Variable P : Platform.
Variable site : Site.

(** The default handler's filter, case by case. *)
Lemma keep_new_listing_eval baseUrl req s :
  keep_new_listing P baseUrl req s
  = if bool_decide (norm P baseUrl req ∈ processedUrls s) then (Ok None, s)
    else match isListingUrl P (norm P baseUrl req)
                 (productListingUrlPatterns (config s)) with
         | Ok true =>
             (Ok (Some req),
              set_processedUrls ({[norm P baseUrl req]} ∪ processedUrls s) s)
         | Ok false => (Ok None, s)
         | Throw e => (Throw e, s)
         end.
Proof.
  unfold keep_new_listing, norm, mbind, M_bind, gets, lift, modify.
  cbn [fst snd]. destruct (bool_decide _); [reflexivity|].
  destruct (isListingUrl P _ _) as [[]|e]; reflexivity.
Qed.

Lemma keep_new_listing_cases baseUrl req s :
  ((keep_new_listing P baseUrl req s).1 = Ok (Some req)
   /\ (norm P baseUrl req ∉ processedUrls s)
   /\ (keep_new_listing P baseUrl req s).2
      = set_processedUrls ({[norm P baseUrl req]} ∪ processedUrls s) s)
  \/ ((forall r, (keep_new_listing P baseUrl req s).1 <> Ok (Some r))
      /\ (keep_new_listing P baseUrl req s).2 = s).
Proof.
  rewrite keep_new_listing_eval.
  destruct (bool_decide_reflect (norm P baseUrl req ∈ processedUrls s)).
  - right. split; [intros r; discriminate|reflexivity].
  - destruct (isListingUrl P _ _) as [[]|e].
    + left. auto.
    + right. split; [intros r; discriminate|reflexivity].
    + right. split; [intros r; discriminate|reflexivity].
Qed.

(** Over one pass of the filter, the requests let through have
    normalized URLs that differ from one another and that were not
    processed before; all of them are processed afterwards, and nothing
    that was processed is forgotten. *)
Lemma transform_all_admits baseUrl reqs s :
  let result := transform_all (keep_new_listing P baseUrl) reqs s in
  processedUrls s ⊆ processedUrls result.2
  /\ forall out,
       result.1 = Ok out ->
       NoDup (map (norm P baseUrl) out)
       /\ out `sublist_of` reqs
       /\ forall r, r ∈ out ->
                    (norm P baseUrl r ∉ processedUrls s)
                    /\ norm P baseUrl r ∈ processedUrls result.2.
Proof.
  cbv zeta. revert s. induction reqs as [|req reqs IH]; intros s.
  - cbn. split; [reflexivity|]. intros out [= <-].
    split; [constructor|]. split; [constructor|].
    intros r Hr. apply elem_of_nil in Hr. contradiction.
  - cbn [transform_all]. rewrite bind_eval.
    destruct (keep_new_listing_cases baseUrl req s)
      as [(H1 & Hnew & H2)|(H1 & H2)];
      destruct (keep_new_listing P baseUrl req s) as [[o|e] s1];
      cbn [fst snd] in *; subst s1.
    + injection H1 as ->. rewrite bind_eval.
      set (s1 := set_processedUrls _ s).
      destruct (IH s1) as (Hsub & Hout).
      assert (Hs1 : processedUrls s ⊆ processedUrls s1)
        by (unfold s1; cbn; apply union_subseteq_r).
      destruct (transform_all (keep_new_listing P baseUrl) reqs s1)
        as [[out'|e] s2]; cbn [fst snd] in *.
      * split; [etransitivity; eassumption|]. intros out [= <-].
        destruct (Hout out' eq_refl) as (Hnd & Hsl & Hin).
        split; [|split].
        -- cbn [map]. constructor; [|exact Hnd].
           intros Hu. apply list_elem_of_fmap in Hu as (r & Hr & Hrin).
           destruct (Hin r Hrin) as [Hnot _]. apply Hnot.
           rewrite <- Hr. unfold s1. cbn.
           apply elem_of_union_l, elem_of_singleton. reflexivity.
        -- constructor. exact Hsl.
        -- intros r Hr. apply elem_of_cons in Hr as [->|Hr].
           ++ split; [exact Hnew|]. apply Hsub. unfold s1. cbn.
              apply elem_of_union_l, elem_of_singleton. reflexivity.
           ++ destruct (Hin r Hr) as [Hn Hy]. split; [|exact Hy].
              intros Hc. apply Hn, Hs1, Hc.
      * split; [etransitivity; eassumption|]. intros out [=].
    + discriminate H1.
    + rewrite bind_eval. destruct (IH s) as (Hsub & Hout).
      destruct (transform_all (keep_new_listing P baseUrl) reqs s)
        as [[out'|e'] s2]; cbn [fst snd] in *.
      * split; [exact Hsub|]. intros out Ho.
        assert (out = out') as ->.
        { destruct o as [r|]; [destruct (H1 r eq_refl)|].
          injection Ho as <-. reflexivity. }
        destruct (Hout out' eq_refl) as (Hnd & Hsl & Hin).
        split; [exact Hnd|]. split; [|exact Hin].
        apply sublist_cons, Hsl.
      * split; [exact Hsub|]. intros out [=].
    + split; [reflexivity|]. intros out [=].
Qed.



(** *** What the filter has marked stays marked *)







End Dedup.





(** * Further properties of the URL classifier *)

Section OrdinaryHosts.

Import Regex.

Lemma split_nonempty sep s : Str.split sep s <> [].
Proof.
  destruct s as [|c s]; cbn [Str.split]; [discriminate|].
  destruct (Ascii.eqb c sep); [discriminate|].
  destruct (Str.split sep s); discriminate.
Qed.

Lemma join_cons_char sep c w ws :
  Str.join sep (String c w :: ws) = String c (Str.join sep (w :: ws)).
Proof. destruct ws; reflexivity. Qed.

(** Splitting at the dots and joining with escaped dots escapes each
    dot. *)
Lemma chars_join_split s :
  Str.chars (Str.join "\." (Str.split "." s)) = escape_dots (Str.chars s).
Proof.
  induction s as [|c s IH]; [reflexivity|].
  cbn [Str.split].
  change (Str.chars (String c s)) with (c :: Str.chars s).
  cbn [escape_dots].
  pose proof (split_nonempty "." s) as Hne.
  destruct (Str.split "." s) as [|w ws]; [contradiction|].
  destruct (Ascii.eqb c ".").
  - change (Str.join "\." ("" :: w :: ws))
      with ("\." +:+ Str.join "\." (w :: ws)).
    rewrite chars_app, IH. reflexivity.
  - rewrite join_cons_char.
    change (Str.chars (String c (Str.join "\." (w :: ws))))
      with (c :: Str.chars (Str.join "\." (w :: ws))).
    rewrite IH. reflexivity.
Qed.

Lemma parse_host_char c acc r :
  PlainUrl.host_char c = true ->
  parse PNormal acc (c :: r) = parse PNormal ((AChar c, One) :: acc) r.
Proof.
  destruct c as [[] [] [] [] [] [] [] []]; intros H;
    first [discriminate H | reflexivity].
Qed.

Lemma parse_literal w acc :
  forallb hostish w = true ->
  parse PNormal acc (escape_dots w) = Some (rev acc ++ literal w)%list.
Proof.
  revert acc. induction w as [|c w IH]; intros acc Hw.
  - cbn. rewrite app_nil_r. reflexivity.
  - cbn [forallb] in Hw. apply andb_true_iff in Hw as [Hc Hw].
    cbn [escape_dots literal map].
    destruct (Ascii.eqb_spec c ".") as [->|Hdot].
    + change (parse PNormal acc ("\"%char :: "."%char :: escape_dots w))
        with (parse PNormal ((AChar ".", One) :: acc) (escape_dots w)).
      rewrite (IH _ Hw). cbn [rev]. rewrite <- app_assoc. reflexivity.
    + unfold hostish in Hc. apply orb_true_iff in Hc as [Hc|Hc].
      * rewrite (parse_host_char _ _ _ Hc), (IH _ Hw). cbn [rev].
        rewrite <- app_assoc. reflexivity.
      * apply Ascii.eqb_eq in Hc. contradiction.
Qed.

(** The pattern source of an ordinary host compiles to the program of
    [^https?://[\w-]+\.] followed by the host's characters. *)
Lemma new_RegExp_ordinary rest :
  forallb hostish (Str.chars rest) = true ->
  new_RegExp ("^https?://[\w-]+\." +:+ Str.join "\." (Str.split "." rest))
    "i"
  = Ok {| source := "^https?://[\w-]+\."
                    +:+ Str.join "\." (Str.split "." rest);
          ignoreCase := true;
          anchored := true;
          program := (one_label_program ++ literal (Str.chars rest))%list |}.
Proof.
  intros Hr. unfold new_RegExp, compile. rewrite chars_app, chars_join_split.
  change (Str.chars "^https?://[\w-]+\." ++ escape_dots (Str.chars rest))%list
    with ("^"%char :: Str.chars "https?://[\w-]+\."
                      ++ escape_dots (Str.chars rest))%list.
  cbv iota. change (Ascii.eqb "^" "^") with true. cbv iota.
  change (parse PNormal []
            (Str.chars "https?://[\w-]+\." ++ escape_dots (Str.chars rest)))
    with (parse PNormal (rev one_label_program)
            (escape_dots (Str.chars rest))).
  rewrite (parse_literal _ _ Hr), rev_involutive. reflexivity.
Qed.

End OrdinaryHosts.

Section DomainMatch.

Import Regex.

Lemma literal_match w u :
  match_items true (literal w) u = true <->
  exists found rest,
    u = (found ++ rest)%list /\ map Str.lower found = map Str.lower w.
Proof.
  revert u. induction w as [|c w IH]; intros u.
  - cbn. split; [intros _; exists [], u; auto|reflexivity].
  - cbn [literal map match_items]. rewrite one_spec. split.
    + intros (d & u' & -> & Hd & Hk). apply char_eq_lower in Hd.
      apply IH in Hk as (found & rest & -> & Hf).
      exists (d :: found), rest. split; [reflexivity|].
      cbn [map]. rewrite Hd, Hf. reflexivity.
    + intros (found & rest & -> & Hf). destruct found as [|d found];
        [discriminate Hf|]. cbn [map] in Hf. injection Hf as Hd Hf.
      exists d, (found ++ rest)%list. split; [reflexivity|].
      split; [apply char_eq_lower; exact Hd|].
      apply IH. exists found, rest. auto.
Qed.

Lemma label_dot_match tail u :
  match_items true
    ([(AChar ":", One); (AChar "/", One); (AChar "/", One);
      (AClass true false ["-"%char], Plus); (AChar ".", One)] ++ tail) u
  = true <->
  exists c1 c2 c3 first rest,
    u = (c1 :: c2 :: c3 :: first ++ "."%char :: rest)%list
    /\ map Str.lower [c1; c2; c3] = Str.chars "://"
    /\ first <> [] /\ Forall (fun c => label_char c = true) first
    /\ match_items true tail rest = true.
Proof.
  cbn [app match_items]. rewrite one_spec. split.
  - intros (c1 & u1 & -> & H1 & H). apply one_spec in H
      as (c2 & u2 & -> & H2 & H). apply one_spec in H
      as (c3 & u3 & -> & H3 & H). apply one_spec in H
      as (c4 & u4 & -> & H4 & H). apply star_spec in H
      as (l & r & -> & Hl & H). apply one_spec in H
      as (d & rest & -> & Hd & Hk).
    apply char_eq_dot in Hd as ->.
    apply char_eq_lower in H1, H2, H3.
    exists c1, c2, c3, (c4 :: l), rest. split; [reflexivity|].
    split; [cbn [map]; rewrite H1, H2, H3; reflexivity|].
    split; [discriminate|]. split; [|exact Hk].
    constructor.
    + rewrite <- class_word_dash. exact H4.
    + eapply Forall_impl; [exact Hl|]. intros c Hc.
      rewrite <- class_word_dash. exact Hc.
  - intros (c1 & c2 & c3 & first & rest & -> & Hs & Hne & Hf & Hk).
    cbn [map] in Hs. injection Hs as H1 H2 H3.
    destruct first as [|c4 l]; [congruence|]. inversion Hf; subst.
    exists c1, (c2 :: c3 :: (c4 :: l) ++ "."%char :: rest)%list.
    split; [reflexivity|]. split; [apply char_eq_lower; exact H1|].
    apply one_spec. do 2 eexists. split; [reflexivity|].
    split; [apply char_eq_lower; exact H2|].
    apply one_spec. do 2 eexists. split; [reflexivity|].
    split; [apply char_eq_lower; exact H3|].
    apply one_spec. do 2 eexists. split; [reflexivity|].
    split; [rewrite class_word_dash; assumption|].
    apply star_spec. exists l, ("."%char :: rest)%list.
    split; [reflexivity|]. split.
    + eapply Forall_impl; [eassumption|]. intros c Hc.
      rewrite class_word_dash. exact Hc.
    + apply one_spec. exists "."%char, rest. auto.
Qed.

Ltac next_char H :=
  match type of H with
  | map _ ?l = _ =>
      destruct l as [|? l]; cbn [map] in H; [discriminate H|];
      injection H as ? H
  end.

Lemma subdomain_match tail u :
  match_items true (one_label_program ++ tail) u = true <->
  exists scheme first rest,
    u = (scheme ++ first ++ "."%char :: rest)%list
    /\ (map Str.lower scheme = Str.chars "http://"
        \/ map Str.lower scheme = Str.chars "https://")
    /\ first <> [] /\ Forall (fun c => label_char c = true) first
    /\ match_items true tail rest = true.
Proof.
  unfold one_label_program.
  change (match_items true (_ ++ tail) u)
    with (one (atom_ok true (AChar "h"))
            (one (atom_ok true (AChar "t"))
               (one (atom_ok true (AChar "t"))
                  (one (atom_ok true (AChar "p"))
                     (fun s =>
                        (one (atom_ok true (AChar "s"))
                           (match_items true
                              ([(AChar ":", One); (AChar "/", One);
                                (AChar "/", One);
                                (AClass true false ["-"%char], Plus);
                                (AChar ".", One)] ++ tail)) s
                         || match_items true
                              ([(AChar ":", One); (AChar "/", One);
                                (AChar "/", One);
                                (AClass true false ["-"%char], Plus);
                                (AChar ".", One)] ++ tail) s)%bool)))) u).
  rewrite one_spec. split.
  - intros (c1 & u1 & -> & H1 & H). apply one_spec in H
      as (c2 & u2 & -> & H2 & H). apply one_spec in H
      as (c3 & u3 & -> & H3 & H). apply one_spec in H
      as (c4 & u4 & -> & H4 & H).
    apply char_eq_lower in H1, H2, H3, H4.
    apply orb_true_iff in H as [H|H].
    + apply one_spec in H as (c5 & u5 & -> & H5 & H).
      apply char_eq_lower in H5.
      apply label_dot_match in H
        as (c6 & c7 & c8 & first & rest & -> & Hs & Hne & Hf & Hk).
      exists [c1; c2; c3; c4; c5; c6; c7; c8], first, rest.
      split; [reflexivity|]. split; [|auto]. right.
      cbn [map] in *. rewrite H1, H2, H3, H4, H5.
      injection Hs as -> -> ->. reflexivity.
    + apply label_dot_match in H
        as (c6 & c7 & c8 & first & rest & -> & Hs & Hne & Hf & Hk).
      exists [c1; c2; c3; c4; c6; c7; c8], first, rest.
      split; [reflexivity|]. split; [|auto]. left.
      cbn [map] in *. rewrite H1, H2, H3, H4.
      injection Hs as -> -> ->. reflexivity.
  - intros (scheme & first & rest & -> & Hs & Hne & Hf & Hk).
    assert (Htail : forall c6 c7 c8,
               map Str.lower [c6; c7; c8] = Str.chars "://" ->
               match_items true
                 ([(AChar ":", One); (AChar "/", One); (AChar "/", One);
                   (AClass true false ["-"%char], Plus); (AChar ".", One)]
                  ++ tail)
                 (c6 :: c7 :: c8 :: first ++ "."%char :: rest)%list
               = true).
    { intros c6 c7 c8 H. apply label_dot_match.
      exists c6, c7, c8, first, rest. auto. }
    destruct Hs as [Hs|Hs];
      unfold Str.chars in Hs; cbn [list_ascii_of_string] in Hs.
    + do 7 next_char Hs. destruct scheme; [|discriminate Hs].
      cbn [app]. do 2 eexists. split; [reflexivity|].
      split; [apply char_eq_lower; assumption|].
      apply one_spec. do 2 eexists. split; [reflexivity|].
      split; [apply char_eq_lower; assumption|].
      apply one_spec. do 2 eexists. split; [reflexivity|].
      split; [apply char_eq_lower; assumption|].
      apply one_spec. do 2 eexists. split; [reflexivity|].
      split; [apply char_eq_lower; assumption|].
      apply orb_true_iff. right. apply Htail.
      unfold Str.chars. cbn [map list_ascii_of_string]. congruence.
    + do 8 next_char Hs. destruct scheme; [|discriminate Hs].
      cbn [app]. do 2 eexists. split; [reflexivity|].
      split; [apply char_eq_lower; assumption|].
      apply one_spec. do 2 eexists. split; [reflexivity|].
      split; [apply char_eq_lower; assumption|].
      apply one_spec. do 2 eexists. split; [reflexivity|].
      split; [apply char_eq_lower; assumption|].
      apply one_spec. do 2 eexists. split; [reflexivity|].
      split; [apply char_eq_lower; assumption|].
      apply orb_true_iff. left.
      apply one_spec. do 2 eexists. split; [reflexivity|].
      split; [apply char_eq_lower; assumption|].
      apply Htail.
      unfold Str.chars. cbn [map list_ascii_of_string]. congruence.
Qed.

End DomainMatch.

(** X1.  For a pattern whose host is a first label followed by an
    ordinary domain (letters, digits, hyphens and dots), the derived
    regular expression accepts a candidate exactly when the candidate
    reads [http://] or [https://], one or more word characters or
    hyphens, a dot and then the domain, all in any case, followed by
    anything at all: the match is not anchored at the end of the host. *)
Theorem registrable_domain_matcher (P : Platform)
  (pattern first rest : string) :
  URL_hostname P pattern = Some (first +:+ "." +:+ rest) ->
  single_label first ->
  forallb hostish (Str.chars rest) = true ->
  exists r : RegExp,
    createRegexFromUrl P pattern = Ok r
    /\ forall candidate : string,
         Regex.test r candidate = true
         <-> domain_prefixed (Str.chars rest) (Str.chars candidate).
Proof.
  intros Hh Hl Hr.
  rewrite (createRegexFromUrl_shape P pattern first rest Hh Hl).
  rewrite (new_RegExp_ordinary rest Hr). eexists. split; [reflexivity|].
  intros candidate. unfold Regex.test.
  cbn [Regex.anchored Regex.ignoreCase Regex.program].
  rewrite subdomain_match. unfold domain_prefixed. split.
  - intros (scheme & label & tail & Hu & Hs & Hne & Hf & Hk).
    apply literal_match in Hk as (found & more & -> & Hfound).
    exists scheme, label, found, more. auto.
  - intros (scheme & label & found & more & Hu & Hs & Hne & Hf & Hfound).
    exists scheme, label, (found ++ more)%list.
    split; [exact Hu|]. split; [exact Hs|]. split; [exact Hne|].
    split; [exact Hf|]. apply literal_match. exists found, more. auto.
Qed.

Lemma registrable_domain_matcher_witness :
  exists r : RegExp,
    createRegexFromUrl PlainUrl.platform "https://www.example.com/cat"
    = Ok r
    /\ (forall candidate : string,
           Regex.test r candidate = true
           <-> domain_prefixed (Str.chars "example.com")
                 (Str.chars candidate))
    /\ Regex.test r "https://shop.Example.com.evil.org/login" = true.
Proof.
  destruct (registrable_domain_matcher PlainUrl.platform
              "https://www.example.com/cat" "www" "example.com")
    as (r & Hr & Hiff).
  - vm_compute. reflexivity.
  - unfold single_label. vm_compute. intros H.
    repeat (apply elem_of_cons in H as [H|H]; [discriminate H|]).
    apply elem_of_nil in H. exact H.
  - vm_compute. reflexivity.
  - exists r. split; [exact Hr|]. split; [exact Hiff|].
    apply Hiff.
    exists (Str.chars "https://"), (Str.chars "shop"),
      (Str.chars "Example.com"), (Str.chars ".evil.org/login").
    split; [reflexivity|]. split; [right; reflexivity|].
    split; [discriminate|]. split; [|reflexivity].
    repeat constructor.
Defined.

(** ** The order of the patterns *)

Section PatternOrder.

Variable P : Platform.

Lemma some_pattern_passes url pre rest :
  Forall (passes_over P url) pre ->
  some_pattern P url (pre ++ rest) = some_pattern P url rest.
Proof.
  induction 1 as [|p pre (r & Hr & Ht) _ IH]; [reflexivity|].
  cbn [app some_pattern]. rewrite Hr. cbn. rewrite Ht. exact IH.
Qed.

End PatternOrder.

(** X2.  The patterns are tried in the order of the list, up to the
    first that accepts the URL.  If the patterns before [p] all yield an
    expression that rejects the URL, then the answer is [true] when [p]
    accepts it, whatever follows [p] in the list, and the call throws
    when [p] yields no expression; in particular a pattern that is not
    an absolute URL makes the call throw a [TypeError].  When every
    pattern rejects the URL the answer is [false]. *)
Theorem patterns_in_order (P : Platform) (url p : string)
  (pre post : list string) :
  Forall (passes_over P url) pre ->
  (forall r, createRegexFromUrl P p = Ok r -> Regex.test r url = true ->
             isListingUrl P url (pre ++ p :: post) = Ok true
             /\ isProductUrl P url (pre ++ p :: post) = Ok true)
  /\ (forall e, createRegexFromUrl P p = Throw e ->
                isListingUrl P url (pre ++ p :: post) = Throw e
                /\ isProductUrl P url (pre ++ p :: post) = Throw e)
  /\ (URL_hostname P p = None ->
      isProductUrl P url (pre ++ p :: post) = Throw (invalid_url p))
  /\ isListingUrl P url pre = Ok false
  /\ isProductUrl P url pre = Ok false.
Proof.
  intros Hpre. unfold isListingUrl, isProductUrl.
  rewrite (some_pattern_passes P url pre (p :: post) Hpre).
  split; [|split; [|split]].
  - intros r Hr Ht. cbn [some_pattern]. rewrite Hr. cbn. rewrite Ht. auto.
  - intros e He. cbn [some_pattern]. rewrite He. auto.
  - intros Hh. cbn [some_pattern]. unfold createRegexFromUrl. rewrite Hh.
    reflexivity.
  - rewrite <- (app_nil_r pre) at 1 2.
    rewrite (some_pattern_passes P url pre [] Hpre). auto.
Qed.

Lemma patterns_in_order_witness :
  let url := "https://shop.example.com/p/1" in
  isProductUrl PlainUrl.platform url
    ["https://www.example.org/x"; "https://www.example.com/cat"; "/buy/"]
  = Ok true
  /\ isProductUrl PlainUrl.platform url
       ["https://www.example.org/x"; "/buy/"; "https://www.example.com/cat"]
     = Throw (invalid_url "/buy/")
  /\ isListingUrl PlainUrl.platform url ["https://www.example.org/x"]
     = Ok false.
Proof.
  cbv zeta.
  assert (Hpre : Forall (passes_over PlainUrl.platform
                           "https://shop.example.com/p/1")
                   ["https://www.example.org/x"]).
  { constructor; [|constructor]. eexists.
    split; [vm_compute; reflexivity|]. vm_compute. reflexivity. }
  split; [|split].
  - destruct (patterns_in_order PlainUrl.platform
                "https://shop.example.com/p/1" "https://www.example.com/cat"
                ["https://www.example.org/x"] ["/buy/"] Hpre)
      as (H & _).
    eapply H; [vm_compute; reflexivity|]. vm_compute. reflexivity.
  - destruct (patterns_in_order PlainUrl.platform
                "https://shop.example.com/p/1" "/buy/"
                ["https://www.example.org/x"]
                ["https://www.example.com/cat"] Hpre)
      as (_ & _ & H & _).
    apply H. vm_compute. reflexivity.
  - destruct (patterns_in_order PlainUrl.platform
                "https://shop.example.com/p/1" "/buy/"
                ["https://www.example.org/x"] [] Hpre)
      as (_ & _ & _ & H & _).
    exact H.
Defined.

(** ** Links that do not resolve *)

Section EmptyUrl.

Import Regex.

(** Items that have other items after them are not touched by what is
    read later. *)
Lemma parse_base s :
  forall st acc base prog,
    acc <> [] ->
    parse st (acc ++ base) s = Some prog ->
    exists p', prog = (rev base ++ p')%list.
Proof.
  induction s as [|c s IH]; intros st acc base prog Hacc H.
  - cbn in H. destruct st; try discriminate H. injection H as <-.
    rewrite rev_app_distr. eauto.
  - destruct acc as [|x acc]; [contradiction|].
    cbn [parse app] in H. unfold is_quant in H.
    destruct st; repeat case_match; try discriminate H; subst;
      match type of H with
      | parse ?st' (?i :: ?j :: ?a ++ base) _ = _ =>
          apply (IH st' (i :: j :: a) base prog); [discriminate|exact H]
      | parse ?st' (?i :: ?a ++ base) _ = _ =>
          apply (IH st' (i :: a) base prog); [discriminate|exact H]
      end.
Qed.

(** Whatever the host of the pattern, the derived expression asks for
    [http] at the start of the subject. *)
Lemma derived_regex_wants_scheme x r :
  new_RegExp ("^https?://[\w-]+\." +:+ x) "i" = Ok r ->
  anchored r = true
  /\ exists p',
       program r
       = ([(AChar "h", One); (AChar "t", One); (AChar "t", One);
           (AChar "p", One)] ++ p')%list.
Proof.
  unfold new_RegExp, compile. rewrite chars_app.
  change (Str.chars "^https?://[\w-]+\." ++ Str.chars x)%list
    with ("^"%char :: Str.chars "https?://[\w-]+\." ++ Str.chars x)%list.
  cbv iota. change (Ascii.eqb "^" "^") with true. cbv iota.
  change (parse PNormal [] (Str.chars "https?://[\w-]+\." ++ Str.chars x))
    with (parse PNormal
            ([(AChar ".", One); (AClass true false ["-"%char], Plus);
              (AChar "/", One); (AChar "/", One); (AChar ":", One);
              (AChar "s", Opt)]
             ++ [(AChar "p", One); (AChar "t", One); (AChar "t", One);
                 (AChar "h", One)])
            (Str.chars x)).
  destruct (parse PNormal _ (Str.chars x)) as [prog|] eqn:Hp;
    cbn; [|discriminate].
  intros [= <-]. split; [reflexivity|].
  apply parse_base in Hp as (p' & ->); [|discriminate].
  exists p'. reflexivity.
Qed.

Lemma derived_regex_rejects_empty P pattern r :
  createRegexFromUrl P pattern = Ok r -> test r "" = false.
Proof.
  unfold createRegexFromUrl. destruct (URL_hostname P pattern); [|discriminate].
  intros H. apply derived_regex_wants_scheme in H as (Ha & p' & Hp).
  unfold test. rewrite Ha, Hp. reflexivity.
Qed.

Lemma empty_is_no_listing P patterns :
  some_pattern P "" patterns <> Ok true.
Proof.
  induction patterns as [|p patterns IH]; cbn [some_pattern];
    [discriminate|].
  destruct (createRegexFromUrl P p) as [r|e] eqn:Hr; cbn; [|discriminate].
  rewrite (derived_regex_rejects_empty P p r Hr). exact IH.
Qed.

End EmptyUrl.

(** X3.  [normalizeUrl] answers the empty string for a reference that
    does not resolve, and the empty string is accepted by no pattern:
    [isListingUrl] and [isProductUrl] never answer [true] for it.  So
    the default handler's filter never lets such a link through, and
    does not mark anything as processed for it. *)
Theorem unresolved_link_is_dropped (P : Platform) (baseUrl : string)
  (req : Request) (s : Session) :
  URL_href P (url req) baseUrl = None ->
  normalizeUrl P (url req) baseUrl = ""
  /\ (forall patterns,
         isListingUrl P "" patterns <> Ok true
         /\ isProductUrl P "" patterns <> Ok true)
  /\ (forall r, (keep_new_listing P baseUrl req s).1 <> Ok (Some r))
  /\ processedUrls (keep_new_listing P baseUrl req s).2 = processedUrls s.
Proof.
  intros Hh.
  assert (Hn : normalizeUrl P (url req) baseUrl = "")
    by (unfold normalizeUrl; rewrite Hh; reflexivity).
  split; [exact Hn|].
  split; [intros patterns; split; apply empty_is_no_listing|].
  rewrite keep_new_listing_eval. unfold norm. rewrite Hn.
  destruct (bool_decide _); [split; [intros r; discriminate|reflexivity]|].
  pose proof (empty_is_no_listing P (productListingUrlPatterns (config s)))
    as He. unfold isListingUrl.
  destruct (some_pattern P "" _) as [[]|e];
    [contradiction|split; [intros r; discriminate|reflexivity]..].
Qed.

Lemma unresolved_link_is_dropped_witness :
  let req := request_of PlainUrl.platform (Some "listing")
               "https://" in
  let s := new_EcommerceCrawler Sample.default_pages in
  normalizeUrl PlainUrl.platform (url req) Sample.home = ""
  /\ processedUrls (keep_new_listing PlainUrl.platform Sample.home req s).2
     = processedUrls s.
Proof.
  cbv zeta.
  destruct (unresolved_link_is_dropped PlainUrl.platform Sample.home
              (request_of PlainUrl.platform (Some "listing")
                 "https://")
              (new_EcommerceCrawler Sample.default_pages))
    as (H1 & _ & _ & H2); [vm_compute; reflexivity|].
  split; assumption.
Defined.

(** * Further properties of the handlers *)

Section ListingFailures.

Variable P : Platform.
Variable site : Site.

Lemma listingHandler_returns request s :
  (listingHandler P site request s).1 = Ok ().
Proof.
  unfold listingHandler, try_catch.
  match goal with |- context [match ?b s with _ => _ end] =>
    destruct (b s) as [[[]|e] s'] end; reflexivity.
Qed.

Lemma keeps_records_quiet s0 : Quiet (keeps_records s0).
Proof. split; intros; assumption. Qed.

Lemma keeps_records_add s0 r :
  hoare (keeps_records s0) (addRequest r) (keeps_records s0).
Proof.
  intros s Hs. destruct (addRequest_cases r s) as [->|[_ ->]]; exact Hs.
Qed.

Lemma listingHandler_keeps_records request s :
  keeps_records s (listingHandler P site request s).2.
Proof.
  apply (hoare_listingHandler P site (keeps_records s) (keeps_records s)
           (keeps_records s));
    [apply keeps_records_quiet|apply keeps_records_quiet
    |apply keeps_records_quiet|intros; assumption|intros; assumption|..].
  - intros urls. apply hoare_enqueueLinks;
      [apply keeps_records_add|intros f r [=]].
  - intros s' H. exact H.
  - intros page'. apply keeps_records_add.
  - repeat split.
Qed.

Lemma listing_without_cards request s e :
  waitForSelector site (url request) (productCardSelectors (config s))
  = Throw e ->
  (listingHandler P site request s).2
  = set_log
      (log s
       ++ [LogInfo ("Processing URL: "
                    +:+ show (loadedUrl site (url request)));
           LogError ("Error while processing URL "
                     +:+ show (loadedUrl site (url request)) +:+ ": "
                     +:+ err_message e)]) s.
Proof.
  intros Hw. unfold listingHandler, try_catch.
  rewrite bind_eval. unfold log_info at 1, modify at 1.
  rewrite bind_eval. unfold gets at 1. rewrite bind_eval.
  cbn [config set_log]. rewrite Hw. unfold lift at 1, log_error, modify.
  cbn [log set_log]. rewrite <- app_assoc. reflexivity.
Qed.

End ListingFailures.

(** X4.  The listing handler never throws: whatever fails on a listing
    page is caught inside the handler.  It leaves the crawler's records
    as they were: configuration, processed URLs, page counter, dataset
    and handled requests.  When the product cards never attach, the
    handler only logs the failure: nothing is enqueued, the consent
    button and the pagination control are not touched. *)
Theorem listing_failure_is_local (P : Platform) (site : Site)
  (request : Request) (s : Session) :
  (listingHandler P site request s).1 = Ok ()
  /\ keeps_records s (listingHandler P site request s).2
  /\ (forall e,
         waitForSelector site (url request) (productCardSelectors (config s))
         = Throw e ->
         same_but_log s (listingHandler P site request s).2
         /\ last (log (listingHandler P site request s).2)
            = Some (LogError
                      ("Error while processing URL "
                       +:+ show (loadedUrl site (url request)) +:+ ": "
                       +:+ err_message e))).
Proof.
  split; [apply listingHandler_returns|].
  split; [apply listingHandler_keeps_records|].
  intros e He. rewrite (listing_without_cards P site request s e He).
  split; [repeat split|]. last_entry.
Qed.

Lemma listing_failure_is_local_witness :
  let request := Sample.listing_request 1 in
  let after := (listingHandler PlainUrl.platform Faulty.no_cards request
                  Sample.at_listing).2 in
  same_but_log Sample.at_listing after
  /\ last (log after)
     = Some (LogError
               ("Error while processing URL "
                +:+ "https://www.example.com/cat?page=1: "
                +:+ "Timeout exceeded waiting for locator('.product-item')")).
Proof.
  cbv zeta.
  destruct (listing_failure_is_local PlainUrl.platform Faulty.no_cards
              (Sample.listing_request 1) Sample.at_listing) as (_ & _ & H).
  apply (H (Sample.timeout "locator('.product-item')")).
  vm_compute. reflexivity.
Defined.

(** ** Failures that the runtime gets to see *)

Section RecordedFailures.

Variable P : Platform.
Variable site : Site.

Lemma router_returns_labelled request s :
  has_label "listing" request = true \/ has_label "product" request = true ->
  (router P site request s).1 = Ok ().
Proof.
  intros [H|H].
  - rewrite (router_listing P site request H). apply listingHandler_returns.
  - rewrite (router_product P site request H). apply productHandler_returns.
Qed.

Lemma addRequests_returns rs s : (addRequests rs s).1 = Ok ().
Proof.
  revert s. induction rs as [|r rs IH]; intros s; [reflexivity|].
  cbn [addRequests]. rewrite bind_eval. apply IH.
Qed.

Lemma some_pattern_throws url patterns e :
  some_pattern P url patterns = Throw e ->
  exists p, p ∈ patterns /\ createRegexFromUrl P p = Throw e.
Proof.
  induction patterns as [|p patterns IH]; cbn [some_pattern]; [discriminate|].
  destruct (createRegexFromUrl P p) as [r|e'] eqn:Hr; cbn.
  - destruct (Regex.test r url); [discriminate|]. intros H.
    destruct (IH H) as (p' & Hin & Hp'). exists p'.
    split; [apply elem_of_cons; right; exact Hin|exact Hp'].
  - intros [= <-]. exists p. split; [apply elem_of_cons; left|]; auto.
Qed.

(** An exception that leaves the filter of the default handler is that
    of a listing pattern. *)
Lemma transform_all_throws c baseUrl rs s e :
  config s = c ->
  (transform_all (keep_new_listing P baseUrl) rs s).1 = Throw e ->
  exists p, p ∈ productListingUrlPatterns c
            /\ createRegexFromUrl P p = Throw e.
Proof.
  revert s. induction rs as [|r rs IH]; intros s Hc; cbn [transform_all];
    [discriminate|].
  rewrite bind_eval, keep_new_listing_eval, Hc.
  destruct (bool_decide _).
  { rewrite bind_eval. specialize (IH s Hc).
    destruct (transform_all _ rs s) as [[out|e'] s1]; cbn [fst] in *;
      [discriminate|exact IH]. }
  destruct (isListingUrl P (norm P baseUrl r) _) as [[]|e'] eqn:Hl.
  - rewrite bind_eval.
    specialize (IH (set_processedUrls
                      ({[norm P baseUrl r]} ∪ processedUrls s) s) Hc).
    destruct (transform_all _ rs _) as [[out|e''] s1]; cbn [fst] in *;
      [discriminate|exact IH].
  - rewrite bind_eval. specialize (IH s Hc).
    destruct (transform_all _ rs s) as [[out|e''] s1]; cbn [fst] in *;
      [discriminate|exact IH].
  - cbn [fst]. intros [= <-]. apply (some_pattern_throws _ _ _ Hl).
Qed.

Lemma defaultHandler_throws request s e :
  (defaultHandler P site request s).1 = Throw e ->
  exists p, p ∈ productListingUrlPatterns (config s)
            /\ createRegexFromUrl P p = Throw e.
Proof.
  unfold defaultHandler.
  destruct (loadedUrl site (url request)) as [baseUrl|]; [|discriminate].
  destruct (String.eqb baseUrl ""); [discriminate|].
  unfold enqueueLinks. rewrite bind_eval.
  pose proof (transform_all_throws (config s) baseUrl
                (omap (fun u => request_of P (Some "listing")
                                  <$> URL_href P u baseUrl)
                   (anchors site (url request))) s e eq_refl) as H.
  destruct (transform_all _ _ s) as [[out|e'] s1]; cbn [fst] in *;
    [|intros [= <-]; apply H; reflexivity].
  rewrite enqueue_tail_eval, addRequests_returns. discriminate.
Qed.

Lemma defaultHandler_returns request s :
  Forall (compiles P) (productListingUrlPatterns (config s)) ->
  (defaultHandler P site request s).1 = Ok ().
Proof.
  intros Hc.
  destruct (defaultHandler P site request s).1 as [[]|e] eqn:Hr;
    [reflexivity|].
  destruct (defaultHandler_throws request s e Hr) as (p & Hin & Hp).
  rewrite Forall_forall in Hc. destruct (Hc p Hin) as (r & Hok).
  congruence.
Qed.

Lemma router_returns request s :
  Forall (compiles P) (productListingUrlPatterns (config s)) ->
  (router P site request s).1 = Ok ().
Proof.
  intros Hc. unfold router. destruct (label request) as [l|].
  - destruct (String.eqb l "listing"); [apply listingHandler_returns|].
    destruct (String.eqb l "product"); [apply productHandler_returns|].
    apply defaultHandler_returns, Hc.
  - apply defaultHandler_returns, Hc.
Qed.

Lemma router_throws request s e :
  (router P site request s).1 = Throw e ->
  exists p, p ∈ productListingUrlPatterns (config s)
            /\ createRegexFromUrl P p = Throw e.
Proof.
  unfold router. destruct (label request) as [l|];
    [|apply defaultHandler_throws].
  destruct (String.eqb l "listing");
    [rewrite listingHandler_returns; discriminate|].
  destruct (String.eqb l "product");
    [rewrite productHandler_returns; discriminate|].
  apply defaultHandler_throws.
Qed.

End RecordedFailures.

(** X5.  The handlers of requests for listings and for product pages
    let no exception out: they catch what goes wrong on the page.  In
    the crawler's own code the one place that lets an exception out is
    the filter of the default handler, on a listing pattern from which
    no regular expression can be made: when every listing pattern
    yields one the handler returns, and an exception that it lets out
    is the one that [createRegexFromUrl] throws on one of the patterns.
    Collecting the links of a page and filing requests are taken not to
    fail. *)
Theorem only_pattern_errors_escape (P : Platform) (site : Site)
  (request : Request) (s : Session) :
  (has_label "listing" request = true \/ has_label "product" request = true ->
   (router P site request s).1 = Ok ())
  /\ (Forall (compiles P) (productListingUrlPatterns (config s)) ->
      (router P site request s).1 = Ok ())
  /\ (forall e,
         (router P site request s).1 = Throw e ->
         exists p, p ∈ productListingUrlPatterns (config s)
                   /\ createRegexFromUrl P p = Throw e).
Proof.
  split; [apply router_returns_labelled|].
  split; [apply router_returns|apply router_throws].
Qed.

Lemma only_pattern_errors_escape_witness :
  (router PlainUrl.platform Faulty.no_cards (Sample.listing_request 1)
     Sample.at_listing).1 = Ok ()
  /\ exists p,
       p ∈ productListingUrlPatterns Outbound.broken_pattern
       /\ createRegexFromUrl PlainUrl.platform p
          = Throw (invalid_url "listing").
Proof.
  split.
  - destruct (only_pattern_errors_escape PlainUrl.platform Faulty.no_cards
                (Sample.listing_request 1) Sample.at_listing) as (H & _).
    apply H. left. reflexivity.
  - destruct (only_pattern_errors_escape PlainUrl.platform Outbound.site
                Outbound.start
                (new_EcommerceCrawler Outbound.broken_pattern))
      as (_ & _ & H).
    apply (H (invalid_url "listing")). vm_compute. reflexivity.
Defined.

(** ** When a listing is filed again *)

Section Refiling.

Variable P : Platform.
Variable site : Site.

Lemma hoare_lift_bind {A B} (I J : Session -> Prop) (o : outcome A)
  (f : A -> M B) :
  (forall s, I s -> J s) ->
  (forall a, o = Ok a -> hoare I (f a) J) ->
  hoare I (lift o ≫= f) J.
Proof.
  intros HIJ Hf s Hs. rewrite bind_eval. unfold lift.
  destruct o as [a|e]; [apply (Hf a eq_refl), Hs|apply HIJ, Hs].
Qed.

Lemma hoare_addRequests_in (I : Session -> Prop) rs :
  (forall r, r ∈ rs -> hoare I (addRequest r) I) ->
  hoare I (addRequests rs) I.
Proof.
  induction rs as [|r rs IH]; intros Hadd; cbn [addRequests].
  - apply hoare_skip.
  - apply hoare_seq.
    + apply Hadd, elem_of_cons. left. reflexivity.
    + intros _. apply IH. intros r' Hr'. apply Hadd, elem_of_cons.
      right. exact Hr'.
Qed.

(** The listing handler, for a property that holds the configuration
    fixed: the product links are those of the cards found, and the page
    filed again is the one that the pagination click has led to. *)
Lemma hoare_listingHandler_at (I K J : Session -> Prop) request c :
  Quiet I -> Quiet K -> Quiet J ->
  (forall s, I s -> config s = c) ->
  (forall s, I s -> K s) -> (forall s, K s -> J s) ->
  (waitForSelector site (url request) (productCardSelectors c) = Ok () ->
   hoare I
     (enqueueLinks P 1 (base_of site request)
        (non_null (cardHrefs site (url request) (productCardSelectors c)))
        "product" None) K) ->
  (forall s, K s ->
             J (set_actions (actions s ++ [ClickNext (url request)]) s)) ->
  (forall page',
      clickFirst site (url request) (paginationSelectors c) = Ok page' ->
      waitForSelector site page' (productCardSelectors c) = Ok () ->
      hoare J (addRequest (refiled page')) J) ->
  hoare I (listingHandler P site request) J.
Proof.
  intros QI QK QJ Hc HIK HKJ Hprod Hclick Hadd. unfold listingHandler.
  apply (hoare_try I J J);
    [|auto|intros e; apply hoare_log_error, (quiet_log _ QJ)].
  apply (hoare_bind I I J);
    [apply hoare_log_info, (quiet_log _ QI)|auto|intros _].
  apply (hoare_bind_ok I (fun a s' => a = c /\ I s')); [|intros cfg].
  { intros s' Hs'. exists (config s'). cbn. split; [reflexivity|].
    split; [apply Hc, Hs'|exact Hs']. }
  apply hoare_assume. intros ->.
  apply hoare_lift_bind; [auto|]. intros [] Hw.
  apply (hoare_bind I K J); [|auto|intros _].
  { destruct (0 <? _)%nat.
    - apply (hoare_bind I K K); [apply (Hprod Hw)|auto|intros _].
      apply hoare_log_info, (quiet_log _ QK).
    - apply (hoare_weaken I I K); [apply hoare_skip|auto]. }
  apply (hoare_bind K K J);
    [apply hoare_clickAcceptButton, QK|auto|intros _].
  destruct (0 <? _)%nat.
  - apply (hoare_try K J J);
      [|auto|intros e; apply hoare_log_error, (quiet_log _ QJ)].
    apply (hoare_bind K J J); [|auto|intros _].
    { intros s Hs. apply Hclick, Hs. }
    apply hoare_lift_bind; [auto|]. intros page' Hp.
    apply hoare_lift_bind; [auto|]. intros [] Hw'.
    apply hoare_seq; [apply hoare_log_info, (quiet_log _ QJ)|intros _].
    apply (Hadd page' Hp Hw').
  - apply (hoare_weaken K K J);
      [apply hoare_log_info, (quiet_log _ QK)|auto].
Qed.

End Refiling.

(** X6.  The listing handler files a listing again only under a key
    that the queue has not been given before: when the pagination click
    fails, when the product cards do not attach again after it, or when
    the page shown after it has a URL that is already a key of the
    queue, no request for a listing is added. *)
Theorem listing_refiled_only_when_new (P : Platform) (site : Site)
  (request : Request) (s : Session) :
  (forall page',
      clickFirst site (url request) (paginationSelectors (config s))
      = Ok page' ->
      waitForSelector site page' (productCardSelectors (config s)) = Ok () ->
      page' ∈ queueKeys s) ->
  pending_listings (listingHandler P site request s).2 = pending_listings s.
Proof.
  intros Hknown.
  set (I := fun s' : Session =>
              config s' = config s
              /\ pending_listings s' = pending_listings s
              /\ queueKeys s ⊆ queueKeys s').
  assert (Q : Quiet I) by (split; intros; assumption).
  cut (hoare I (listingHandler P site request) I).
  { intros H. apply H. split; [reflexivity|]. split; reflexivity. }
  apply (hoare_listingHandler_at P site I I I request (config s));
    [exact Q|exact Q|exact Q|intros s' H; apply H|auto|auto|..].
  - intros _ s0 Hs0. rewrite enqueueLinks_plain.
    apply hoare_addRequests_in; [|exact Hs0].
    intros r Hr s' (Hc & Hl & Hk).
    apply enqueueCut_subseteq in Hr.
    assert (Hlab : has_label "product" r = true)
      by (apply (candidates_are_products P site request (config s)), Hr).
    destruct (addRequest_cases r s') as [->|[_ ->]]; [repeat split; auto|].
    split; [exact Hc|]. split.
    + unfold pending_listings in *. cbn [pending set_queue].
      rewrite List.filter_app, Hl. cbn [List.filter].
      replace (has_label "listing" (stored r)) with false;
        [apply app_nil_r|].
      unfold has_label in *. cbn [label stored].
      destruct (label r) as [l|]; [|reflexivity].
      apply String.eqb_eq in Hlab as ->. reflexivity.
    + cbn [queueKeys set_queue]. etransitivity; [exact Hk|].
      apply union_subseteq_r.
  - intros s' H. exact H.
  - intros page' Hp Hw s' (Hc & Hl & Hk).
    unfold addRequest, modify. cbn [snd].
    rewrite bool_decide_eq_true_2; [repeat split; auto|].
    apply Hk, (Hknown page' Hp Hw).
Qed.

Lemma listing_refiled_only_when_new_witness :
  let request := Sample.listing_request 1 in
  pending_listings
    (listingHandler PlainUrl.platform Faulty.stuck_button request
       Sample.at_listing).2 = []
  /\ pending_listings
       (listingHandler PlainUrl.platform Faulty.same_url request
          Sample.at_listing).2 = [].
Proof.
  cbv zeta. split.
  - apply (listing_refiled_only_when_new PlainUrl.platform
             Faulty.stuck_button (Sample.listing_request 1)
             Sample.at_listing).
    intros page' H. vm_compute in H. discriminate H.
  - apply (listing_refiled_only_when_new PlainUrl.platform Faulty.same_url
             (Sample.listing_request 1) Sample.at_listing).
    intros page' H _. injection H as <-. vm_compute. reflexivity.
Defined.

Section RefilingDone.

Variable P : Platform.
Variable site : Site.

Lemma succeeds_addRequests_in (I : Session -> Prop) rs :
  (forall r, r ∈ rs -> hoare I (addRequest r) I) ->
  succeeds I (addRequests rs) (fun _ => I).
Proof.
  intros Hadd s Hs. exists (). split; [apply addRequests_returns|].
  apply (hoare_addRequests_in I rs Hadd s Hs).
Qed.

Lemma listing_refiled request s page' :
  next_control_in_reach site (config s) (url request) ->
  clickFirst site (url request) (paginationSelectors (config s))
  = Ok page' ->
  waitForSelector site page' (productCardSelectors (config s)) = Ok () ->
  (page' ∉ queueKeys s) ->
  (forall r, r ∈ product_candidates P site request (config s) ->
             uniqueKey r <> page') ->
  pending_listings (listingHandler P site request s).2
  = (pending_listings s ++ [stored (refiled page')])%list.
Proof.
  intros (Hw & H1 & H2 & H3 & H4 & H5 & Hn) Hclick Hw' Hnew Hprod.
  set (c := config s) in *.
  set (K := fun s' : Session =>
              config s' = c
              /\ pending_listings s' = pending_listings s
              /\ (page' ∉ queueKeys s')).
  set (J := fun s' : Session =>
              pending_listings s'
              = (pending_listings s ++ [stored (refiled page')])%list).
  assert (QK : Quiet K) by (split; intros; assumption).
  assert (QJ : Quiet J) by (split; intros; assumption).
  cut (hoare K (listingHandler P site request) J).
  { intros H. apply H. repeat split. exact Hnew. }
  unfold listingHandler.
  apply (hoare_bind_ok_try K J);
    [|intros e; apply hoare_log_error, (quiet_log _ QJ)].
  apply (hoare_bind_ok K (fun _ => K)); [|intros _].
  { apply succeeds_modify. intros s' H. exact H. }
  apply (hoare_bind_ok K (fun a s' => a = c /\ K s')); [|intros cfg].
  { intros s' Hs'. exists (config s'). cbn. split; [reflexivity|].
    split; [apply Hs'|exact Hs']. }
  apply hoare_assume. intros ->.
  apply (hoare_bind_ok K (fun _ => K)); [|intros _].
  { intros s' Hs'. exists (). cbn. rewrite Hw. auto. }
  apply (hoare_bind_ok K (fun _ => K)); [|intros _].
  { destruct (0 <? _)%nat; [|intros s' Hs'; exists (); auto].
    apply (succeeds_bind K (fun _ => K));
      [|intros _; apply succeeds_modify; intros s' H; exact H].
    intros s0 Hs0. rewrite enqueueLinks_plain.
    apply succeeds_addRequests_in; [|exact Hs0].
    intros r Hr s' (Hc & Hl & Hk).
    apply enqueueCut_subseteq in Hr.
    change (List.filter _ (omap _ _))
      with (product_candidates P site request c) in Hr.
    assert (Hlab : has_label "product" r = true)
      by (apply (candidates_are_products P site request c), Hr).
    destruct (addRequest_cases r s') as [->|[_ ->]]; [repeat split; auto|].
    split; [exact Hc|]. split.
    - unfold pending_listings in *. cbn [pending set_queue].
      rewrite List.filter_app, Hl. cbn [List.filter].
      replace (has_label "listing" (stored r)) with false;
        [apply app_nil_r|].
      unfold has_label in *. cbn [label stored].
      destruct (label r) as [l|]; [|reflexivity].
      apply String.eqb_eq in Hlab as ->. reflexivity.
    - cbn [queueKeys set_queue]. intros Hin.
      apply elem_of_union in Hin as [Hin|Hin]; [|exact (Hk Hin)].
      apply elem_of_singleton in Hin. apply (Hprod r Hr).
      symmetry. exact Hin. }
  apply (hoare_bind_ok K (fun _ => K)); [|intros _].
  { apply succeeds_clickAcceptButton; assumption. }
  apply Nat.ltb_lt in Hn. rewrite Hn.
  apply (hoare_bind_ok_try K J);
    [|intros e; apply hoare_log_error, (quiet_log _ QJ)].
  apply (hoare_bind_ok K (fun _ => K)); [|intros _].
  { apply succeeds_modify. intros s' H. exact H. }
  rewrite Hclick. apply (hoare_bind_ok K (fun a s' => a = page' /\ K s'));
    [intros s' Hs'; exists page'; auto|intros p].
  apply hoare_assume. intros ->. rewrite Hw'.
  apply (hoare_bind_ok K (fun _ => K));
    [intros s' Hs'; exists (); auto|intros _].
  apply (hoare_bind_ok K (fun _ => K)); [|intros _].
  { apply succeeds_modify. intros s' H. exact H. }
  intros s' (_ & Hl & Hk). unfold addRequest, modify. cbn [snd].
  rewrite bool_decide_eq_false_2 by exact Hk.
  unfold J, pending_listings in *. cbn [pending set_queue].
  rewrite List.filter_app, Hl. reflexivity.
Qed.

End RefilingDone.

(** X7.  On a listing page whose cards, consent button and pagination
    control are all found, the handler files the page shown after the
    click once more as a listing, behind the pending ones and under the
    URL of that page as its key, provided that the queue has not been
    given this key and that no product link of the page has it.  The
    priority that the handler asks for is not kept with the request.
    The URL is taken as the page reports it: it is neither normalized,
    nor matched against the listing patterns, nor marked in
    [processedUrls]. *)
Theorem listing_refiled_when_new (P : Platform) (site : Site)
  (request : Request) (s : Session) (page' : string) :
  next_control_in_reach site (config s) (url request) ->
  clickFirst site (url request) (paginationSelectors (config s))
  = Ok page' ->
  waitForSelector site page' (productCardSelectors (config s)) = Ok () ->
  (page' ∉ queueKeys s) ->
  (forall r, r ∈ product_candidates P site request (config s) ->
             uniqueKey r <> page') ->
  pending_listings (listingHandler P site request s).2
  = (pending_listings s
     ++ [{| url := page'; label := Some "listing"; uniqueKey := page';
            priority := None |}])%list
  /\ processedUrls (listingHandler P site request s).2 = processedUrls s.
Proof.
  intros Hr Hc Hw Hnew Hprod. split.
  - apply listing_refiled; assumption.
  - apply (listingHandler_keeps_records P site request s).
Qed.

Lemma listing_refiled_when_new_witness :
  pending_listings
    (listingHandler PlainUrl.platform Sample.catalogue
       (Sample.listing_request 1) Sample.at_listing).2
  = [Sample.listing_request 2]
  /\ processedUrls
       (listingHandler PlainUrl.platform Sample.catalogue
          (Sample.listing_request 1) Sample.at_listing).2
     = processedUrls Sample.at_listing.
Proof.
  apply (listing_refiled_when_new PlainUrl.platform Sample.catalogue
           (Sample.listing_request 1) Sample.at_listing
           (Sample.cat_page 2)).
  - unfold next_control_in_reach. vm_compute. repeat split; lia.
  - vm_compute. reflexivity.
  - reflexivity.
  - vm_compute. discriminate.
  - assert (E : product_candidates PlainUrl.platform Sample.catalogue
                  (Sample.listing_request 1) (config Sample.at_listing)
                = [Sample.product_request 1])
      by (vm_compute; reflexivity).
    rewrite E. intros r Hr. apply list_elem_of_singleton in Hr as ->.
    vm_compute. discriminate.
Defined.

(** ** What is marked as processed *)

Section Marked.

Variable P : Platform.
Variable site : Site.

Lemma marks_listings_quiet c ps : Quiet (marks_listings P c ps).
Proof. split; intros; assumption. Qed.

Lemma marks_listings_add c ps r :
  hoare (marks_listings P c ps) (addRequest r) (marks_listings P c ps).
Proof.
  intros s Hs. destruct (addRequest_cases r s) as [->|[_ ->]]; exact Hs.
Qed.

Lemma marks_listings_keep c baseUrl req :
  hoare (marks_listings P c (productListingUrlPatterns c))
    (keep_new_listing P baseUrl req)
    (marks_listings P c (productListingUrlPatterns c)).
Proof.
  intros s [Hc Hs]. rewrite keep_new_listing_eval, Hc.
  destruct (bool_decide _); [split; assumption|].
  destruct (isListingUrl P (norm P baseUrl req) _) as [[]|e] eqn:Hl;
    [|split; assumption..].
  split; [exact Hc|]. cbn [snd processedUrls set_processedUrls].
  intros u Hu. apply elem_of_union in Hu as [Hu|Hu]; [|apply Hs, Hu].
  apply elem_of_singleton in Hu as ->. exact Hl.
Qed.

Lemma marks_listings_router c request :
  hoare (marks_listings P c (productListingUrlPatterns c))
    (router P site request)
    (marks_listings P c (productListingUrlPatterns c)).
Proof.
  set (I := marks_listings P c (productListingUrlPatterns c)).
  pose proof (marks_listings_quiet c (productListingUrlPatterns c)) as Q.
  assert (Hd : hoare I (defaultHandler P site request) I).
  { unfold defaultHandler.
    destruct (loadedUrl site (url request)) as [baseUrl|];
      [|apply hoare_skip].
    destruct (String.eqb baseUrl ""); [apply hoare_skip|].
    apply hoare_enqueueLinks; [apply marks_listings_add|].
    intros f r [= <-]. apply marks_listings_keep. }
  unfold router. destruct (label request) as [l|]; [|exact Hd].
  destruct (String.eqb l "listing").
  - apply (hoare_listingHandler P site I I I);
      [exact Q|exact Q|exact Q|auto|auto|..].
    + intros urls. apply hoare_enqueueLinks; [apply marks_listings_add|].
      intros f r [=].
    + intros s H. exact H.
    + intros page'. apply marks_listings_add.
  - destruct (String.eqb l "product"); [|exact Hd].
    apply hoare_productHandler, (quiet_log _ Q).
Qed.

Lemma marks_listings_crawl c budget s :
  marks_listings P c (productListingUrlPatterns c) s ->
  marks_listings P c (productListingUrlPatterns c) (crawl P site budget s).
Proof.
  revert s. induction budget as [|budget IH]; intros s Hs; [exact Hs|].
  cbn [crawl]. destruct (pending s) as [|request rest]; [exact Hs|].
  pose proof (marks_listings_router c request
                (set_queue rest (queueKeys s) s) Hs) as Hr.
  destruct (router P site request _) as [result s']. cbn [snd] in Hr.
  apply IH, Hr.
Qed.

Lemma marks_listings_run c :
  marks_listings P (default_maxPages c) (productListingUrlPatterns c)
    (run P site c).
Proof.
  unfold run, run_from.
  assert (H0 : marks_listings P (default_maxPages c)
                 (productListingUrlPatterns (default_maxPages c))
                 (seed P (new_EcommerceCrawler c))).
  { unfold seed. apply hoare_addRequests; [apply marks_listings_add|].
    split; [reflexivity|]. intros u Hu. cbn in Hu.
    apply elem_of_empty in Hu. contradiction. }
  apply (marks_listings_crawl (default_maxPages c)), H0.
Qed.

End Marked.

(** X8.  Whatever the site, every URL that a run has marked in
    [processedUrls] is not empty and is accepted by [isListingUrl], that
    is by the regular expression made of one of the patterns for
    listing pages. *)
Theorem processed_urls_are_listings (P : Platform) (site : Site)
  (c : CrawlerConfig) (u : string) :
  u ∈ processedUrls (run P site c) ->
  isListingUrl P u (productListingUrlPatterns c) = Ok true /\ u <> "".
Proof.
  intros Hu.
  assert (Hl : isListingUrl P u (productListingUrlPatterns c) = Ok true)
    by (apply (marks_listings_run P site c), Hu).
  split; [exact Hl|]. intros ->.
  apply (empty_is_no_listing P (productListingUrlPatterns c)), Hl.
Qed.

Lemma processed_urls_are_listings_witness :
  isListingUrl PlainUrl.platform (Sample.cat_page 1)
    (productListingUrlPatterns Sample.default_pages) = Ok true
  /\ Sample.cat_page 1 <> "".
Proof.
  apply (processed_urls_are_listings PlainUrl.platform Sample.four_products
           Sample.default_pages (Sample.cat_page 1)).
  vm_compute. reflexivity.
Defined.

(** ** What a product page leaves in the log *)

Section ProductLog.

Variable site : Site.

Lemma productHandler_log request s :
  let page := url request in
  let loaded := show (loadedUrl site page) in
  log (productHandler site request s).2
  = (log s
     ++ LogInfo ("Processing product URL: " +:+ loaded)
     :: match product_reads site (config s) page with
        | Ok (name, price, ean) =>
            [Console "Product Name:" name; Console "Price:" price;
             Console "EAN Value:" ean;
             LogInfo ("Product HTML uploaded to S3: products/"
                      +:+ isoNow site page +:+ "_" +:+ uniqueId site page
                      +:+ ".html")]
        | Throw e =>
            (match pageContent site page with
             | Ok _ =>
                 match textContent site page (nameSelector (config s)) with
                 | Ok name =>
                     Console "Product Name:" name
                     :: match firstTextContent site page
                                (priceSelector (config s)) with
                        | Ok price => [Console "Price:" price]
                        | Throw _ => []
                        end
                 | Throw _ => []
                 end
             | Throw _ => []
             end)
            ++ [LogError ("Error processing product " +:+ loaded +:+ ": "
                          +:+ err_message e)]
        end)%list.
Proof.
  cbv zeta. unfold product_reads.
  unfold productHandler, try_catch, mbind, M_bind, outcome_bind, log_info,
    log_error, console_log, modify, lift, gets.
  cbn [fst snd config log set_log].
  destruct (pageContent site (url request)) as [html|e];
    cbn [fst snd config log set_log]; [|rewrite <- !app_assoc; reflexivity].
  destruct (textContent site (url request) _) as [name|e];
    cbn [fst snd config log set_log]; [|rewrite <- !app_assoc; reflexivity].
  destruct (firstTextContent site (url request) _) as [price|e];
    cbn [fst snd config log set_log]; [|rewrite <- !app_assoc; reflexivity].
  destruct (0 <? eanLabelCount site (url request))%nat;
    cbn [fst snd config log set_log]; [|rewrite <- !app_assoc; reflexivity].
  destruct (eanValueText site (url request)) as [ean|e];
    cbn [fst snd config log set_log]; rewrite <- !app_assoc; reflexivity.
Qed.

End ProductLog.

(** X9.  What a product page leaves behind is decided by the first of
    the handler's reads that fails.  When the content of the page, the
    name, the price and the [EAN] value are all read (a name or a price
    without text is read as well), one upload notice closes the log and
    no error is logged; otherwise the log ends with the one error of the
    first read that failed, and no upload notice is written.  So a page
    on which the [EAN] label is found but its value cannot be read is
    not counted as extracted, and the handler never logs an upload
    error. *)
Theorem product_extraction_by_reads (site : Site) (request : Request)
  (s : Session) :
  let page := url request in
  let loaded := show (loadedUrl site page) in
  let after := (productHandler site request s).2 in
  let reads := product_reads site (config s) page in
  let failure (e : Error) :=
    LogError ("Error processing product " +:+ loaded +:+ ": "
              +:+ err_message e) in
  let notice :=
    LogInfo ("Product HTML uploaded to S3: products/" +:+ isoNow site page
             +:+ "_" +:+ uniqueId site page +:+ ".html") in
  extracted after
  = (extracted s + match reads with Ok _ => 1 | Throw _ => 0 end)%nat
  /\ List.filter is_log_error (log after)
     = (List.filter is_log_error (log s)
        ++ match reads with Ok _ => [] | Throw e => [failure e] end)%list
  /\ last (log after)
     = Some (match reads with Ok _ => notice | Throw e => failure e end).
Proof.
  cbv zeta. unfold extracted. rewrite productHandler_log.
  rewrite !List.filter_app, length_app, last_app_cons.
  unfold product_reads.
  destruct (pageContent site (url request)) as [html|e];
    [|split; [f_equal|split; [f_equal|]]; reflexivity].
  destruct (textContent site (url request) _) as [name|e];
    [|split; [f_equal|split; [f_equal|]]; reflexivity].
  destruct (firstTextContent site (url request) _) as [price|e];
    [|split; [f_equal|split; [f_equal|]]; reflexivity].
  destruct (0 <? eanLabelCount site (url request))%nat;
    [|split; [f_equal|split; [f_equal|]]; reflexivity].
  destruct (eanValueText site (url request)) as [ean|e];
    (split; [f_equal|split; [f_equal|]]; reflexivity).
Qed.

(** ** What the default handler files *)

Section DefaultFiles.

Variable P : Platform.
Variable site : Site.

(** The filter of the default handler leaves the queue alone, and lets
    through listing URLs only. *)
Lemma transform_all_listings baseUrl reqs s :
  let result := transform_all (keep_new_listing P baseUrl) reqs s in
  config result.2 = config s
  /\ pending result.2 = pending s
  /\ queueKeys result.2 = queueKeys s
  /\ forall out,
       result.1 = Ok out ->
       forall r, r ∈ out ->
                 isListingUrl P (norm P baseUrl r)
                   (productListingUrlPatterns (config s)) = Ok true.
Proof.
  cbv zeta. revert s. induction reqs as [|req reqs IH]; intros s.
  - cbn. repeat split. intros out [= <-] r Hr.
    apply elem_of_nil in Hr. contradiction.
  - cbn [transform_all]. rewrite bind_eval, keep_new_listing_eval.
    destruct (bool_decide _).
    { rewrite bind_eval. destruct (IH s) as (Hc & Hp & Hk & Hout).
      destruct (transform_all _ reqs s) as [[out'|e] s2];
        cbn [fst snd] in *;
        (split; [exact Hc|split; [exact Hp|split; [exact Hk|]]]);
        [|intros out [=]].
      intros out [= <-]. apply (Hout out' eq_refl). }
    destruct (isListingUrl P (norm P baseUrl req) _) as [[]|e] eqn:Hl.
    + rewrite bind_eval. set (s1 := set_processedUrls _ s).
      destruct (IH s1) as (Hc & Hp & Hk & Hout).
      destruct (transform_all _ reqs s1) as [[out'|e] s2];
        cbn [fst snd] in *;
        (split; [exact Hc|split; [exact Hp|split; [exact Hk|]]]);
        [|intros out [=]].
      intros out [= <-] r Hr. apply elem_of_cons in Hr as [->|Hr];
        [exact Hl|apply (Hout out' eq_refl), Hr].
    + rewrite bind_eval. destruct (IH s) as (Hc & Hp & Hk & Hout).
      destruct (transform_all _ reqs s) as [[out'|e] s2];
        cbn [fst snd] in *;
        (split; [exact Hc|split; [exact Hp|split; [exact Hk|]]]);
        [|intros out [=]].
      intros out [= <-]. apply (Hout out' eq_refl).
    + repeat split. intros out [=].
Qed.

(** The queue files some of the requests it is given, in their order,
    and does not fail. *)
Lemma addRequests_appends rs s :
  (addRequests rs s).1 = Ok ()
  /\ processedUrls (addRequests rs s).2 = processedUrls s
  /\ exists added,
       pending (addRequests rs s).2 = (pending s ++ added)%list
       /\ added `sublist_of` map stored rs.
Proof.
  revert s. induction rs as [|r rs IH]; intros s; cbn [addRequests map].
  - cbn. repeat split. exists []. rewrite app_nil_r. split; constructor.
  - rewrite bind_eval.
    change (addRequest r s) with (Ok (), (addRequest r s).2). cbv iota.
    destruct (IH (addRequest r s).2) as (H1 & H2 & added & H3 & H4).
    split; [exact H1|].
    destruct (addRequest_cases r s) as [E|[_ E]]; rewrite E in *.
    + split; [exact H2|]. exists added. split; [exact H3|].
      apply sublist_cons, H4.
    + split; [exact H2|]. exists (stored r :: added). split.
      * rewrite H3. cbn [pending set_queue]. rewrite <- app_assoc.
        reflexivity.
      * apply sublist_skip, H4.
Qed.

End DefaultFiles.

(** X10.  The default handler files requests behind the pending ones
    and takes none away.  Each request that it files is labelled
    [listing], passes the strategy of [enqueueLinks], and has a
    normalized URL that matches a listing pattern, was not marked as
    processed before and is marked afterwards.  When the handler throws
    (a listing pattern that is no URL), it files nothing, though the
    URLs let through before the failure stay marked. *)
Theorem default_handler_files_listings (P : Platform) (site : Site)
  (request : Request) (s : Session) :
  let after := (defaultHandler P site request s).2 in
  processedUrls s ⊆ processedUrls after
  /\ (exists added,
         pending after = (pending s ++ added)%list
         /\ forall r,
              r ∈ added ->
              label r = Some "listing"
              /\ exists baseUrl,
                   loadedUrl site (url request) = Some baseUrl
                   /\ enqueueStrategy P baseUrl (url r) = true
                   /\ isListingUrl P (norm P baseUrl r)
                        (productListingUrlPatterns (config s)) = Ok true
                   /\ (norm P baseUrl r ∉ processedUrls s)
                   /\ norm P baseUrl r ∈ processedUrls after)
  /\ (forall e,
         (defaultHandler P site request s).1 = Throw e ->
         pending after = pending s).
Proof.
  cbv zeta. unfold defaultHandler.
  assert (Hskip : processedUrls s ⊆ processedUrls s
                  /\ (exists added,
                         pending s = (pending s ++ added)%list
                         /\ forall r,
                              r ∈ added ->
                              label r = Some "listing"
                              /\ exists baseUrl,
                                   loadedUrl site (url request)
                                   = Some baseUrl
                                   /\ enqueueStrategy P baseUrl (url r)
                                      = true
                                   /\ isListingUrl P (norm P baseUrl r)
                                        (productListingUrlPatterns
                                           (config s)) = Ok true
                                   /\ (norm P baseUrl r ∉ processedUrls s)
                                   /\ norm P baseUrl r ∈ processedUrls s)
                  /\ (forall e : Error,
                         Ok () = Throw e -> pending s = pending s)).
  { split; [reflexivity|]. split; [|reflexivity]. exists [].
    rewrite app_nil_r. split; [reflexivity|]. intros r Hr.
    apply elem_of_nil in Hr. contradiction. }
  destruct (loadedUrl site (url request)) as [baseUrl|]; [|exact Hskip].
  destruct (String.eqb baseUrl ""); [exact Hskip|]. clear Hskip.
  unfold enqueueLinks. rewrite bind_eval.
  set (reqs := omap _ (anchors site (url request))).
  assert (Hlab : forall r, r ∈ reqs -> label r = Some "listing").
  { intros r Hr. apply list_elem_of_omap in Hr as (u & _ & Hr).
    destruct (URL_href P u baseUrl); [|discriminate].
    injection Hr as <-. reflexivity. }
  destruct (transform_all_admits P baseUrl reqs s) as (Hsub & Hadm).
  destruct (transform_all_listings P baseUrl reqs s)
    as (_ & Hpend & _ & Hlist).
  destruct (transform_all (keep_new_listing P baseUrl) reqs s)
    as [[out|e] s1]; cbn [fst snd] in *.
  - destruct (Hadm out eq_refl) as (_ & Hsl & Hmark).
    rewrite enqueue_tail_eval.
    set (rs := enqueueCut P 100 _ _ _).
    destruct (addRequests_appends rs s1) as (Hok & Hproc & added & Ha & Hs).
    split; [rewrite Hproc; exact Hsub|]. split.
    + exists added. rewrite Ha, Hpend. split; [reflexivity|].
      intros r Hr.
      assert (Hrs : r ∈ map stored rs)
        by (eapply elem_of_sublist; eassumption).
      apply list_elem_of_fmap in Hrs as (r0 & -> & Hrs).
      apply enqueueCut_subseteq in Hrs.
      apply list_elem_of_In, List.filter_In in Hrs as [Hin Hst].
      apply list_elem_of_In in Hin.
      cbn [label url stored].
      split; [apply Hlab, (elem_of_sublist out reqs r0 Hin Hsl)|].
      exists baseUrl.
      change (norm P baseUrl (stored r0)) with (norm P baseUrl r0).
      split; [reflexivity|]. split; [exact Hst|].
      split; [apply (Hlist out eq_refl), Hin|].
      rewrite Hproc. apply Hmark, Hin.
    + intros e He. rewrite Hok in He. discriminate He.
  - split; [exact Hsub|]. split; [|intros _ _; exact Hpend].
    exists []. rewrite app_nil_r. split; [exact Hpend|].
    intros r Hr. apply elem_of_nil in Hr. contradiction.
Qed.

Lemma default_handler_files_listings_witness :
  let s := new_EcommerceCrawler Outbound.broken_pattern in
  let after :=
    (defaultHandler PlainUrl.platform Outbound.site Outbound.start s).2 in
  pending after = pending s
  /\ processedUrls s ⊆ processedUrls after
  /\ Sample.cat_page 1 ∈ processedUrls after.
Proof.
  cbv zeta.
  destruct (default_handler_files_listings PlainUrl.platform Outbound.site
              Outbound.start (new_EcommerceCrawler Outbound.broken_pattern))
    as (Hsub & _ & Hthrow).
  split; [|split; [exact Hsub|vm_compute; reflexivity]].
  apply (Hthrow (invalid_url "listing")). vm_compute. reflexivity.
Defined.

(** ** Fields of the configuration that no handler reads *)

Section Blind.

Variable P : Platform.
Variable site : Site.
Variable f : CrawlerConfig -> CrawlerConfig.

Hypothesis f_startUrls : forall c, startUrls (f c) = startUrls c.
Hypothesis f_listing :
  forall c, productListingUrlPatterns (f c) = productListingUrlPatterns c.
Hypothesis f_cards :
  forall c, productCardSelectors (f c) = productCardSelectors c.
Hypothesis f_pagination :
  forall c, paginationSelectors (f c) = paginationSelectors c.
Hypothesis f_maxPages : forall c, maxPages (f c) = maxPages c.
Hypothesis f_name : forall c, nameSelector (f c) = nameSelector c.
Hypothesis f_price : forall c, priceSelector (f c) = priceSelector c.

Lemma blind_ret {A} (a : A) : blind f (mret a).
Proof. intros s. reflexivity. Qed.

Lemma blind_lift {A} (o : outcome A) : blind f (lift o).
Proof. intros s. reflexivity. Qed.

Lemma blind_bind {A B} (m : M A) (k : A -> M B) :
  blind f m -> (forall a, blind f (k a)) -> blind f (m ≫= k).
Proof.
  intros Hm Hk s. rewrite !bind_eval, Hm.
  destruct (m s) as [[a|e] s1]; cbn [fst snd]; [apply Hk|reflexivity].
Qed.

Lemma blind_try {A} (body : M A) (handler : Error -> M A) :
  blind f body -> (forall e, blind f (handler e)) ->
  blind f (try_catch body handler).
Proof.
  intros Hb Hh s. unfold try_catch. rewrite Hb.
  destruct (body s) as [[a|e] s1]; cbn [fst snd]; [reflexivity|apply Hh].
Qed.

Lemma blind_gets_config {B} (k : CrawlerConfig -> M B) :
  (forall c, blind f (k c)) -> (forall c, k (f c) = k c) ->
  blind f (gets config ≫= k).
Proof.
  intros Hk Hf s. rewrite !bind_eval. unfold gets. cbn [config set_config].
  rewrite Hf. apply Hk.
Qed.

Lemma blind_gets_processed {B} (k : gset string -> M B) :
  (forall v, blind f (k v)) -> blind f (gets processedUrls ≫= k).
Proof. intros Hk s. rewrite !bind_eval. unfold gets. apply Hk. Qed.

Lemma blind_gets {A B} (g : Session -> A) (k : A -> M B) :
  (forall s, g (set_config (f (config s)) s) = g s) ->
  (forall v, blind f (k v)) -> blind f (gets g ≫= k).
Proof.
  intros Hg Hk s. rewrite !bind_eval. unfold gets. cbn [fst snd].
  rewrite Hg. apply Hk.
Qed.

Lemma blind_skip : blind f skip.
Proof. intros s. reflexivity. Qed.

Lemma blind_log_info m : blind f (log_info m).
Proof. intros s. reflexivity. Qed.

Lemma blind_log_error m : blind f (log_error m).
Proof. intros s. reflexivity. Qed.

Lemma blind_console_log w v : blind f (console_log w v).
Proof. intros s. reflexivity. Qed.

Lemma blind_act a : blind f (act a).
Proof. intros s. reflexivity. Qed.

Lemma blind_addRequest r : blind f (addRequest r).
Proof.
  intros s. unfold addRequest, modify. cbn [queueKeys set_config fst snd].
  destruct (bool_decide _); reflexivity.
Qed.

Lemma blind_addRequests rs : blind f (addRequests rs).
Proof.
  induction rs as [|r rs IH]; cbn [addRequests]; [apply blind_skip|].
  apply blind_bind; [apply blind_addRequest|intros _; exact IH].
Qed.

Lemma blind_transform_all g rs :
  (forall r, blind f (g r)) -> blind f (transform_all g rs).
Proof.
  intros Hg. induction rs as [|r rs IH]; cbn [transform_all];
    [apply blind_ret|].
  apply blind_bind; [apply Hg|intros o].
  apply blind_bind; [exact IH|intros out]. apply blind_ret.
Qed.

Lemma blind_enqueueLinks limit baseUrl urls lbl transform :
  (forall g r, transform = Some g -> blind f (g r)) ->
  blind f (enqueueLinks P limit baseUrl urls lbl transform).
Proof.
  intros Hg. unfold enqueueLinks. apply blind_bind.
  - destruct transform as [g|]; [|apply blind_ret].
    apply blind_transform_all. intros r. apply (Hg g r eq_refl).
  - intros transformed.
    apply blind_gets; [reflexivity|intros known].
    apply blind_gets; [|intros room; apply blind_addRequests].
    intros s. unfold room_for_links, maxRequestsPerCrawl.
    cbn [config set_config handled pending]. rewrite f_maxPages.
    reflexivity.
Qed.

Lemma blind_keep_new_listing baseUrl req :
  blind f (keep_new_listing P baseUrl req).
Proof.
  unfold keep_new_listing. apply blind_gets_processed. intros processed.
  destruct (bool_decide _); [apply blind_ret|].
  apply blind_gets_config; [|intros c; rewrite f_listing; reflexivity].
  intros c. apply blind_bind; [apply blind_lift|intros []];
    [|apply blind_ret].
  apply blind_bind; [|intros _; apply blind_ret].
  intros s. reflexivity.
Qed.

Lemma blind_defaultHandler request : blind f (defaultHandler P site request).
Proof.
  unfold defaultHandler.
  destruct (loadedUrl site (url request)) as [baseUrl|];
    [|apply blind_skip].
  destruct (String.eqb baseUrl ""); [apply blind_skip|].
  apply blind_enqueueLinks. intros g r [= <-]. apply blind_keep_new_listing.
Qed.

Lemma blind_clickAcceptButton page : blind f (clickAcceptButton site page).
Proof.
  unfold clickAcceptButton.
  apply blind_bind; [apply blind_lift|intros _].
  apply blind_bind; [apply blind_act|intros _].
  apply blind_bind; [apply blind_lift|intros _].
  apply blind_bind; [apply blind_lift|intros _].
  destruct (negb locator_truthy); [apply blind_skip|].
  apply blind_bind; [apply blind_lift|intros _].
  apply blind_bind; [apply blind_act|intros _]. apply blind_lift.
Qed.

Lemma blind_listingHandler request : blind f (listingHandler P site request).
Proof.
  unfold listingHandler.
  apply blind_try; [|intros e; apply blind_log_error].
  apply blind_bind; [apply blind_log_info|intros _].
  apply blind_gets_config;
    [|intros c; rewrite f_cards, f_pagination; reflexivity].
  intros c. apply blind_bind; [apply blind_lift|intros _].
  apply blind_bind.
  { destruct (0 <? _)%nat; [|apply blind_skip].
    apply blind_bind; [|intros _; apply blind_log_info].
    apply blind_enqueueLinks. intros g r [=]. }
  intros _. apply blind_bind; [apply blind_clickAcceptButton|intros _].
  destruct (0 <? _)%nat; [|apply blind_log_info].
  apply blind_try; [|intros e; apply blind_log_error].
  apply blind_bind; [apply blind_act|intros _].
  apply blind_bind; [apply blind_lift|intros page'].
  apply blind_bind; [apply blind_lift|intros _].
  apply blind_bind; [apply blind_log_info|intros _].
  apply blind_addRequest.
Qed.

Lemma blind_productHandler request : blind f (productHandler site request).
Proof.
  unfold productHandler.
  apply blind_try; [|intros e; apply blind_log_error].
  apply blind_bind; [apply blind_log_info|intros _].
  apply blind_bind; [apply blind_lift|intros product_html].
  apply blind_gets_config; [|intros c; rewrite f_name, f_price; reflexivity].
  intros c. apply blind_bind; [apply blind_lift|intros productName].
  apply blind_bind; [apply blind_console_log|intros _].
  apply blind_bind; [apply blind_lift|intros price].
  apply blind_bind; [apply blind_console_log|intros _].
  apply blind_bind.
  { destruct (0 <? _)%nat; [|apply blind_lift].
    apply blind_bind; [apply blind_lift|intros eanValue].
    apply blind_console_log. }
  intros _. apply blind_try; [apply blind_log_info|].
  intros e. apply blind_log_error.
Qed.

Lemma blind_router request : blind f (router P site request).
Proof.
  unfold router. destruct (label request) as [l|];
    [|apply blind_defaultHandler].
  destruct (String.eqb l "listing"); [apply blind_listingHandler|].
  destruct (String.eqb l "product");
    [apply blind_productHandler|apply blind_defaultHandler].
Qed.

Lemma crawl_blind budget s :
  crawl P site budget (set_config (f (config s)) s)
  = set_config (f (config (crawl P site budget s))) (crawl P site budget s).
Proof.
  revert s. induction budget as [|budget IH]; intros s; [reflexivity|].
  cbn [crawl pending set_config].
  destruct (pending s) as [|request rest]; [reflexivity|].
  change (set_queue rest (queueKeys (set_config (f (config s)) s))
            (set_config (f (config s)) s))
    with (set_config (f (config (set_queue rest (queueKeys s) s)))
            (set_queue rest (queueKeys s) s)).
  rewrite blind_router.
  destruct (router P site request (set_queue rest (queueKeys s) s))
    as [result s1]. cbn [fst snd].
  apply (IH (set_handled (handled s1 ++ [(request, _)]) s1)).
Qed.

Lemma run_from_blind s :
  run_from P site (set_config (f (config s)) s)
  = set_config (f (config (run_from P site s))) (run_from P site s).
Proof.
  unfold run_from, seed. cbn [config set_config]. rewrite f_startUrls.
  rewrite blind_addRequests. cbn [fst snd config set_config].
  unfold maxRequestsPerCrawl. rewrite f_maxPages. apply crawl_blind.
Qed.

End Blind.

(** X11.  A run reads neither [productUrlPatterns] nor
    [productLinkSelectors]: with other values in these two fields the
    session ends in the same state, the configuration it carries apart.
    The same requests are handled with the same results, the same lines
    are logged and the same clicks are made; which pages are taken for
    product pages is decided by the product cards of the listing pages
    alone. *)
Theorem product_hints_are_not_read (P : Platform) (site : Site)
  (c : CrawlerConfig) (patterns links : list string) :
  let s := run P site c in
  let s' := run P site (with_product_hints patterns links c) in
  s' = set_config (with_product_hints patterns links (config s)) s
  /\ handled s' = handled s
  /\ log s' = log s
  /\ actions s' = actions s
  /\ processedUrls s' = processedUrls s.
Proof.
  cbv zeta.
  assert (H : run P site (with_product_hints patterns links c)
              = set_config
                  (with_product_hints patterns links
                     (config (run P site c))) (run P site c)).
  { unfold run.
    change (new_EcommerceCrawler (with_product_hints patterns links c))
      with (set_config
              (with_product_hints patterns links
                 (config (new_EcommerceCrawler c)))
              (new_EcommerceCrawler c)).
    apply run_from_blind; reflexivity. }
  rewrite H. repeat split.
Qed.

(** * More on the job controller *)

Section Validation.

Lemma usable_urls_spec urls :
  usable_urls urls
  = (truthy urls && negb (is_zero (get urls "length")))%bool.
Proof.
  destruct urls as [| |b|n|s|items|fields]; cbn [usable_urls truthy get];
    try reflexivity.
  - destruct b; reflexivity.
  - destruct (n =? 0); reflexivity.
  - destruct s as [|a s]; [reflexivity|].
    change (String.eqb (String a s) "") with false. cbn [negb andb].
    change (String.eqb "length" "length") with true. cbv iota.
    cbn [String.length is_zero Z.of_nat]. reflexivity.
  - change (String.eqb "length" "length") with true. cbv iota.
    destruct items; reflexivity.
Qed.

Lemma validateCrawlerConfig_cases body :
  validateCrawlerConfig body
  = if negb (truthy body) then Throw MISSING_CONFIG
    else if usable_urls (get body "urls") then Ok ()
         else Throw INVALID_URLS.
Proof.
  unfold validateCrawlerConfig. rewrite usable_urls_spec.
  destruct (truthy body); [|reflexivity]. cbn [negb].
  destruct (truthy (get body "urls")); [|reflexivity]. cbn [negb orb andb].
  destruct (is_zero _); reflexivity.
Qed.

Lemma field_other k k' v fields :
  k <> k' -> field k ((k', v) :: fields) = field k fields.
Proof.
  intros Hk. cbn [field]. apply String.eqb_neq in Hk. rewrite Hk.
  destruct (field k fields); reflexivity.
Qed.

End Validation.

(** X12.  The validation of a request body looks at [urls] alone.  A
    body that is [undefined], [null], [false], 0 or the empty string is
    refused with [MISSING_CONFIG]; any other body passes exactly when
    its [urls] is a non-empty array, a non-empty string, [true], a
    number other than 0 or an object whose [length] is not 0, and is
    refused with [INVALID_URLS] otherwise.  That [urls] holds URLs, or
    is an array at all, is not checked, and a field under another name
    ([startUrls], the patterns, the selectors) changes nothing. *)
Theorem validation_looks_at_urls_only :
  (forall body,
      validateCrawlerConfig body
      = if negb (truthy body) then Throw MISSING_CONFIG
        else if usable_urls (get body "urls") then Ok ()
             else Throw INVALID_URLS)
  /\ (forall k v fields,
         k <> "urls" ->
         validateCrawlerConfig (JObj ((k, v) :: fields))
         = validateCrawlerConfig (JObj fields))
  /\ (forall fields,
         validateCrawlerConfig (JObj fields) = Ok ()
         <-> usable_urls (field "urls" fields) = true).
Proof.
  split; [apply validateCrawlerConfig_cases|]. split.
  - intros k v fields Hk. rewrite !validateCrawlerConfig_cases.
    cbn [truthy negb get]. rewrite field_other by congruence. reflexivity.
  - intros fields. rewrite validateCrawlerConfig_cases.
    cbn [truthy negb get].
    destruct (usable_urls (field "urls" fields)); split; congruence.
Qed.

Lemma validation_looks_at_urls_only_witness :
  validateCrawlerConfig
    (JObj [("startUrls", JArr []); ("urls", JNum 7)])
  = validateCrawlerConfig (JObj [("urls", JNum 7)])
  /\ validateCrawlerConfig (JObj [("urls", JNum 7)]) = Ok ().
Proof.
  destruct validation_looks_at_urls_only as (_ & Hother & Hurls).
  split.
  - apply (Hother "startUrls" (JArr []) [("urls", JNum 7)]). discriminate.
  - apply (Hurls [("urls", JNum 7)]). reflexivity.
Defined.

Section Submission.

Lemma createCrawlee_invalid body now q e :
  validateCrawlerConfig body = Throw e ->
  createCrawlee body now q
  = (Failed 400 (if truthy body then "INVALID_URLS" else "MISSING_CONFIG")
       (err_message e), q).
Proof.
  unfold createCrawlee. rewrite validateCrawlerConfig_cases.
  destruct (truthy body); cbn [negb].
  - destruct (usable_urls _); [discriminate|]. intros [= <-]. reflexivity.
  - intros [= <-]. reflexivity.
Qed.

Lemma store_call_keeps q :
  jobs (store_call q).2 = jobs q /\ next_id (store_call q).2 = next_id q.
Proof.
  unfold store_call. destruct (answers q); split; reflexivity.
Qed.

(** The three calls to the queue, one after the other. *)
Lemma createCrawlee_valid body now q :
  validateCrawlerConfig body = Ok () ->
  let job := mkJob (next_id q) body submit_options "waiting" now in
  let down := Failed 500 "INTERNAL_ERROR" "Failed to create crawl job" in
  let r := createCrawlee body now q in
  ((store_call q).1 = false /\ r = (down, (store_call q).2))
  \/ ((store_call q).1 = true
      /\ jobs r.2 = (jobs q ++ [job])%list
      /\ (r.1 = down
          \/ exists status counts,
               r.1 = Queued (next_id q) status
                       "Crawlee job queued successfully" counts)).
Proof.
  intros Hv. cbv zeta. unfold createCrawlee. rewrite Hv.
  unfold queue_add.
  destruct (store_call_keeps q) as (Hj1 & Hn1).
  destruct (store_call q) as [[] q1]; cbn [fst snd] in *;
    [right|left; split; reflexivity].
  split; [reflexivity|]. rewrite Hn1, Hj1.
  set (q1' := {| jobs := _; next_id := _; answers := _ |}).
  unfold getState.
  destruct (store_call_keeps q1') as (Hj2 & _).
  destruct (store_call q1') as [[] q2]; cbn [fst snd job_id] in *;
    [|split; [exact Hj2|left; reflexivity]].
  unfold getJobCounts.
  destruct (store_call_keeps q2) as (Hj3 & _).
  destruct (store_call q2) as [[] q3]; cbn [fst snd] in *;
    (split; [rewrite Hj3; exact Hj2|]); [right|left; reflexivity].
  eexists _, _. reflexivity.
Qed.

End Submission.

(** X13.  [createCrawlee] validates before it touches the queue.  A
    body that fails the validation is answered with status 400 and the
    code and message of the validation error, and the queue is left as
    it was.  A valid body is answered with status 500, [INTERNAL_ERROR]
    and a fixed message when a call to the queue fails, and the message
    of the underlying error is not passed on; when it is the first call
    that fails no job is filed, but [getState] and [getJobCounts] are
    awaited in the same [try] after the job was added, so that a reply of
    status 500 can come with the job already in the queue.  A reply that
    reports the job as queued names a job that was filed behind the
    others, with the body as it came as its [config], 3 attempts,
    exponential backoff from 1000 ms and retention of 100 completed and
    200 failed jobs. *)
Theorem createCrawlee_replies (body : jsval) (now : Z) (q : BullQueue) :
  let r := createCrawlee body now q in
  let filed job :=
    job_config job = body
    /\ job_opts job = mkJobOptions 3 "exponential" 1000 100 200
    /\ jobs r.2 = (jobs q ++ [job])%list in
  (forall e,
      validateCrawlerConfig body = Throw e ->
      r = (Failed 400 (if truthy body then "INVALID_URLS" else "MISSING_CONFIG")
             (err_message e), q))
  /\ (validateCrawlerConfig body = Ok () -> (store_call q).1 = false ->
      r.1 = Failed 500 "INTERNAL_ERROR" "Failed to create crawl job"
      /\ jobs r.2 = jobs q)
  /\ (forall id status message counts,
         r.1 = Queued id status message counts ->
         validateCrawlerConfig body = Ok ()
         /\ truthy body = true
         /\ message = "Crawlee job queued successfully"
         /\ exists job, job_id job = id /\ filed job)
  /\ (forall status code message,
         r.1 = Failed status code message ->
         (status = 400 /\ r.2 = q
          /\ exists e, validateCrawlerConfig body = Throw e
                       /\ err_code e = Some code /\ err_message e = message)
         \/ (status = 500 /\ code = "INTERNAL_ERROR"
             /\ message = "Failed to create crawl job"
             /\ validateCrawlerConfig body = Ok ()
             /\ (jobs r.2 = jobs q \/ exists job, filed job)))
  /\ (let late := {| jobs := []; next_id := 1; answers := [true; false] |} in
      let r := createCrawlee Sample.urls_body now late in
      r.1 = Failed 500 "INTERNAL_ERROR" "Failed to create crawl job"
      /\ jobs r.2 = [mkJob 1 Sample.urls_body submit_options "waiting" now]).
Proof.
  cbv zeta. split; [intros e; apply createCrawlee_invalid|].
  assert (Htruthy : validateCrawlerConfig body = Ok () -> truthy body = true).
  { rewrite validateCrawlerConfig_cases.
    destruct (truthy body); [reflexivity|discriminate]. }
  split; [|split; [|split]].
  - intros Hv Hs.
    destruct (createCrawlee_valid body now q Hv) as [(_ & ->)|(Hs' & _)];
      [|congruence].
    split; [reflexivity|apply store_call_keeps].
  - intros id status message counts Hr.
    destruct (validateCrawlerConfig body) as [[]|e] eqn:Hv.
    + split; [reflexivity|]. split; [apply Htruthy; reflexivity|].
      destruct (createCrawlee_valid body now q Hv)
        as [(_ & E)|(_ & Hj & [E|(st & cs & E)])].
      * rewrite E in Hr. discriminate Hr.
      * rewrite E in Hr. discriminate Hr.
      * rewrite E in Hr. injection Hr as <- <- <- <-.
        split; [reflexivity|].
        exists (mkJob (next_id q) body submit_options "waiting" now).
        split; [reflexivity|]. split; [reflexivity|].
        split; [reflexivity|exact Hj].
    + rewrite (createCrawlee_invalid body now q e Hv) in Hr.
      discriminate Hr.
  - intros status code message Hr.
    destruct (validateCrawlerConfig body) as [[]|e] eqn:Hv.
    + right.
      destruct (createCrawlee_valid body now q Hv)
        as [(_ & E)|(_ & Hj & [E|(st & cs & E)])].
      * rewrite E in Hr |- *. injection Hr as <- <- <-.
        do 4 (split; [reflexivity|]). left. apply store_call_keeps.
      * rewrite E in Hr. injection Hr as <- <- <-.
        do 4 (split; [reflexivity|]). right.
        exists (mkJob (next_id q) body submit_options "waiting" now).
        split; [reflexivity|]. split; [reflexivity|exact Hj].
      * rewrite E in Hr. discriminate Hr.
    + left. rewrite (createCrawlee_invalid body now q e Hv) in Hr |- *.
      injection Hr as <- <- <-.
      split; [reflexivity|]. split; [reflexivity|]. exists e.
      split; [reflexivity|]. split; [|reflexivity].
      rewrite validateCrawlerConfig_cases in Hv.
      destruct (truthy body); cbn [negb] in Hv.
      * destruct (usable_urls _); [discriminate|].
        injection Hv as <-. reflexivity.
      * injection Hv as <-. reflexivity.
  - split; reflexivity.
Qed.

Lemma createCrawlee_replies_witness :
  let down := {| jobs := []; next_id := 1; answers := [false] |} in
  createCrawlee JNull 0 down
  = (Failed 400 "MISSING_CONFIG" "Crawler configuration is required", down)
  /\ (createCrawlee Sample.urls_body 0 down).1
     = Failed 500 "INTERNAL_ERROR" "Failed to create crawl job"
  /\ jobs (createCrawlee Sample.urls_body 0 down).2 = []
  /\ exists job,
       job_id job = 1 /\ job_config job = Sample.urls_body
       /\ jobs (createCrawlee Sample.urls_body 0 Sample.empty_queue).2
          = [job].
Proof.
  cbv zeta. split; [|split; [|split]].
  - destruct (createCrawlee_replies JNull 0
                {| jobs := []; next_id := 1; answers := [false] |})
      as (H & _).
    apply (H MISSING_CONFIG). reflexivity.
  - destruct (createCrawlee_replies Sample.urls_body 0
                {| jobs := []; next_id := 1; answers := [false] |})
      as (_ & H & _).
    apply H; reflexivity.
  - destruct (createCrawlee_replies Sample.urls_body 0
                {| jobs := []; next_id := 1; answers := [false] |})
      as (_ & H & _).
    apply H; reflexivity.
  - destruct (createCrawlee_replies Sample.urls_body 0 Sample.empty_queue)
      as (_ & _ & H & _).
    destruct (H 1 "waiting" "Crawlee job queued successfully"
                (mkJobCounts 1 0 0 0 0) eq_refl)
      as (_ & _ & _ & job & Hid & Hc & _ & Hj).
    exists job. split; [exact Hid|]. split; [exact Hc|exact Hj].
Defined.

(** X14.  Whatever makes the job processor fail, the error it throws
    is a [CrawlJobError] under the code [CRAWL_FAILED].  On a job without
    configuration the [INVALID_CONFIG] error is thrown inside the
    processor's own [try] and wrapped by its [catch], which keeps the
    message and replaces the code, so that [INVALID_CONFIG] never leaves
    the processor.  A result carries the job's timestamp as [startedAt],
    the clock's reading as [completedAt] and the configuration as it was
    submitted, without the default for [maxPages] that the crawler
    works with. *)
Theorem processJob_failure_code (P : Platform) (site : Site)
  (t_id t_done : Z) (job : Job (option CrawlerConfig)) :
  (forall e,
      processJob P site t_id t_done job = Throw e ->
      err_name e = "CrawlJobError" /\ err_code e = Some "CRAWL_FAILED")
  /\ (job_config job = None ->
      processJob P site t_id t_done job
      = Throw (CrawlJobError "Invalid crawler configuration" "CRAWL_FAILED"))
  /\ (forall result,
         processJob P site t_id t_done job = Ok result ->
         job_config job = Some (metadata_config (metadata result))
         /\ startedAt (metadata result) = job_timestamp job
         /\ completedAt (metadata result) = t_done
         /\ config (run P site (metadata_config (metadata result)))
            = default_maxPages (metadata_config (metadata result))).
Proof.
  unfold processJob. split; [|split].
  - intros e. destruct (job_config job) as [c|]; [discriminate|].
    intros [= <-]. split; reflexivity.
  - intros ->. reflexivity.
  - intros result. destruct (job_config job) as [c|]; [|discriminate].
    intros [= <-]. cbn. split; [reflexivity|]. split; [reflexivity|].
    split; [reflexivity|]. apply (untouched_run P site c).
Qed.

Lemma processJob_failure_code_witness :
  let job := mkJob 7 None submit_options "active" 1700000000000 in
  processJob PlainUrl.platform Sample.endless 1 2 job
  = Throw (CrawlJobError "Invalid crawler configuration" "CRAWL_FAILED")
  /\ exists result,
       processJob PlainUrl.platform Sample.four_products 1 2
         (Sample.job_of Sample.default_pages) = Ok result
       /\ startedAt (metadata result) = 1700000000000
       /\ completedAt (metadata result) = 2.
Proof.
  cbv zeta. split.
  - destruct (processJob_failure_code PlainUrl.platform Sample.endless 1 2
                (mkJob 7 None submit_options "active" 1700000000000))
      as (_ & H & _).
    apply H. reflexivity.
  - destruct (processJob_failure_code PlainUrl.platform Sample.four_products
                1 2 (Sample.job_of Sample.default_pages)) as (_ & _ & H).
    eexists. split;
      [unfold processJob, Sample.job_of; cbn [job_config]; reflexivity|].
    split; eapply H; unfold processJob, Sample.job_of; cbn [job_config];
      reflexivity.
Defined.

(** * The origin of the requests *)

Section Origins.

Variable P : Platform.
Variable site : Site.
Variable c : CrawlerConfig.

Lemma accounted_quiet : Quiet (accounted c).
Proof. split; intros; assumption. Qed.

Lemma accounted_add r :
  origin c r -> hoare (accounted c) (addRequest r) (accounted c).
Proof.
  intros Hr s [Hp Hh].
  destruct (addRequest_cases r s) as [->|[_ ->]]; [split; assumption|].
  split; [|exact Hh]. cbn [pending set_queue].
  apply Forall_app. split; [exact Hp|]. constructor; [exact Hr|constructor].
Qed.

Lemma transform_all_hands_on g rs s out :
  hands_on g -> (transform_all g rs s).1 = Ok out -> out ⊆ rs.
Proof.
  intros Hg. revert s out.
  induction rs as [|r rs IH]; intros s out; cbn [transform_all].
  - intros [= <-]. reflexivity.
  - rewrite bind_eval. pose proof (Hg r s) as Hr.
    destruct (g r s) as [[o|e] s1]; cbn [fst] in Hr; [|discriminate].
    rewrite bind_eval. specialize (IH s1).
    destruct (transform_all g rs s1) as [[out'|e] s2]; cbn [fst] in *;
      [|discriminate].
    specialize (IH out' eq_refl). intros [= <-].
    destruct o as [r'|].
    + rewrite (Hr r' eq_refl). intros x Hx.
      apply elem_of_cons in Hx as [->|Hx];
        apply elem_of_cons; [left; reflexivity|right; apply IH, Hx].
    + intros x Hx. apply elem_of_cons. right. apply IH, Hx.
Qed.

Lemma keep_new_listing_hands_on baseUrl :
  hands_on (keep_new_listing P baseUrl).
Proof.
  intros r s r'. rewrite keep_new_listing_eval.
  destruct (bool_decide _); [discriminate|].
  destruct (isListingUrl P _ _) as [[]|e]; [|discriminate..].
  intros [= <-]. reflexivity.
Qed.

(** [enqueueLinks] files requests under its label only. *)
Lemma hoare_enqueueLinks_labelled (I : Session -> Prop) limit baseUrl urls
  lbl transform :
  (forall r, label r = Some lbl -> hoare I (addRequest r) I) ->
  (forall g, transform = Some g ->
             hands_on g /\ forall r, hoare I (g r) I) ->
  hoare I (enqueueLinks P limit baseUrl urls lbl transform) I.
Proof.
  intros Hadd Hg s Hs. unfold enqueueLinks. rewrite bind_eval.
  set (reqs := omap _ urls).
  assert (Hlab : forall r, r ∈ reqs -> label r = Some lbl).
  { intros r Hr. apply list_elem_of_omap in Hr as (u & _ & Hr).
    destruct (URL_href P u baseUrl); [|discriminate].
    injection Hr as <-. reflexivity. }
  assert (Hfile : forall out s1,
             out ⊆ reqs -> I s1 ->
             I (addRequests
                  (enqueueCut P limit (queueKeys s1) (room_for_links P s1)
                     (List.filter
                        (fun r => enqueueStrategy P baseUrl (url r)) out))
                  s1).2).
  { intros out s1 Hsub Hs1. apply hoare_addRequests_in; [|exact Hs1].
    intros r Hr. apply Hadd, Hlab, Hsub.
    apply enqueueCut_subseteq in Hr.
    apply list_elem_of_In, List.filter_In in Hr as [Hr _].
    apply list_elem_of_In, Hr. }
  destruct transform as [g|].
  - destruct (Hg g eq_refl) as [Hon Hst].
    pose proof (hoare_transform_all I g reqs Hst s Hs) as H1.
    pose proof (transform_all_hands_on g reqs s) as H2.
    destruct (transform_all g reqs s) as [[out|e] s1]; cbn [fst snd] in *;
      [|exact H1].
    rewrite enqueue_tail_eval.
    apply Hfile; [apply (H2 out Hon eq_refl)|exact H1].
  - assert (Hsub : reqs ⊆ reqs) by reflexivity.
    exact (Hfile reqs s Hsub Hs).
Qed.

Lemma accounted_router request :
  hoare (accounted c) (router P site request) (accounted c).
Proof.
  pose proof accounted_quiet as Q.
  assert (Hd : hoare (accounted c) (defaultHandler P site request)
                 (accounted c)).
  { unfold defaultHandler.
    destruct (loadedUrl site (url request)) as [baseUrl|];
      [|apply hoare_skip].
    destruct (String.eqb baseUrl ""); [apply hoare_skip|].
    apply hoare_enqueueLinks_labelled.
    - intros r Hr. apply accounted_add. unfold origin. rewrite Hr.
      left. reflexivity.
    - intros g [= <-]. split; [apply keep_new_listing_hands_on|].
      intros r. apply hoare_keep_new_listing. intros v s H. exact H. }
  unfold router. destruct (label request) as [l|]; [|exact Hd].
  destruct (String.eqb l "listing").
  - apply (hoare_listingHandler P site (accounted c) (accounted c)
             (accounted c));
      [exact Q|exact Q|exact Q|auto|auto|..].
    + intros urls. apply hoare_enqueueLinks_labelled; [|intros g [=]].
      intros r Hr. apply accounted_add. unfold origin. rewrite Hr.
      right. reflexivity.
    + intros s H. exact H.
    + intros page'. apply accounted_add. left. reflexivity.
  - destruct (String.eqb l "product"); [|exact Hd].
    apply hoare_productHandler, (quiet_log _ Q).
Qed.

Lemma accounted_crawl budget s :
  accounted c s -> accounted c (crawl P site budget s).
Proof.
  revert s. induction budget as [|budget IH]; intros s Hs; [exact Hs|].
  cbn [crawl]. destruct (pending s) as [|request rest] eqn:Hp; [exact Hs|].
  destruct Hs as [Hpend Hh]. rewrite Hp in Hpend.
  apply Forall_cons in Hpend as [Hreq Hrest].
  pose proof (accounted_router request (set_queue rest (queueKeys s) s)
                (conj Hrest Hh)) as Hr.
  destruct (router P site request _) as [result s']. cbn [snd] in Hr.
  apply IH. destruct Hr as [H1 H2]. split; [exact H1|].
  cbn [handled set_handled]. apply Forall_app. split; [exact H2|].
  constructor; [exact Hreq|constructor].
Qed.

Lemma accounted_run : accounted c (run P site c).
Proof.
  unfold run, run_from. apply accounted_crawl. unfold seed.
  cbn [config new_EcommerceCrawler].
  change (startUrls (default_maxPages c)) with (startUrls c).
  apply hoare_addRequests_in; [|split; constructor].
  intros r Hr. apply list_elem_of_fmap in Hr as (u & -> & Hu).
  apply accounted_add. exact Hu.
Qed.

End Origins.

(** X15.  Every request that a run handles is labelled [listing] or
    [product], or is the unlabelled request for one of the start URLs.
    So the default handler, which alone follows the links of a page to
    listings, runs on the start pages only, and a request reaches the
    product handler only from the product cards of a listing page. *)
Theorem requests_by_origin (P : Platform) (site : Site)
  (c : CrawlerConfig) (h : Request * bool) :
  h ∈ handled (run P site c) ->
  match label h.1 with
  | Some l =>
      (l = "listing" /\ router P site h.1 = listingHandler P site h.1)
      \/ (l = "product" /\ router P site h.1 = productHandler site h.1)
  | None =>
      url h.1 ∈ startUrls c
      /\ router P site h.1 = defaultHandler P site h.1
  end.
Proof.
  intros Hin. destruct (accounted_run P site c) as [_ Hh].
  rewrite Forall_forall in Hh. specialize (Hh h Hin).
  unfold origin, router in *. destruct (label h.1) as [l|].
  - destruct Hh as [->| ->]; [left|right]; split; reflexivity.
  - split; [exact Hh|reflexivity].
Qed.

Lemma requests_by_origin_witness :
  let start := request_of PlainUrl.platform None Sample.home in
  url start ∈ startUrls Sample.default_pages
  /\ router PlainUrl.platform Sample.four_products start
     = defaultHandler PlainUrl.platform Sample.four_products start.
Proof.
  apply (requests_by_origin PlainUrl.platform Sample.four_products
           Sample.default_pages
           (request_of PlainUrl.platform None Sample.home, true)).
  apply list_elem_of_In. vm_compute. left. reflexivity.
Defined.
